(** * XStore: the encrypted vault's persistence and backup protocol

    A shallow embedding of the server routes of XStore
    (server/routes/folders.js, which also holds the file routes,
    server/routes/items.js and server/routes/backup.js), of the
    relational schema they run against ([initDatabase], at the end of
    server/middleware/auth.js) and of the client-side
    [EncryptionService] (unnamed/part_001), of the account routes and
    the authentication middleware (server/routes/auth.js,
    server/middleware/auth.js) and of the folder tree of the client
    (unnamed/part_002), followed by the properties of the design
    document that can be stated over them and by properties of the
    routes that the code itself shows.

    Conventions of the embedding:
    - PostgreSQL is a record of three tables (lists of rows in insertion
      order) and three SERIAL counters ([users] is kept apart, with the
      account routes); every SQL statement of the routes
      is a function on that record, which answers rows or throws.  The
      order in which an unsorted query answers several rows is left
      open ([Scan]).  The
      constraints of the schema that the routes can run into are checked
      by the statements: primary keys, foreign keys, the
      CHECK on [items.type], the UNIQUE constraint of [folders] (behind
      ON CONFLICT DO NOTHING), VARCHAR lengths and ON DELETE CASCADE.
      The connection itself never fails.
    - A route is a function from the store to an HTTP answer and a store;
      [try]/[catch], BEGIN/COMMIT/ROLLBACK are combinators on statements.
    - Request bodies and parsed JSON are typed records; an absent or null
      property is [None], and JavaScript truthiness is written out where
      a route tests a value.  Ids in paths are numbers.
    - Time ([now]) and randomness ([entropy]) are arguments.
    - Strings are byte strings on the server; on the client, where the
      cipher reads a text through its UTF-8 encoding, they are
      sequences of UTF-16 code units.
    - The upload directory is a map from paths to bytes.
    - The libraries the code calls (Node's crypto, Buffer and JSON;
      crypto-js; bcryptjs and jsonwebtoken) are interfaces with the laws
      their documentation gives;
      a stand-in instance of each is there to run examples. *)

From Stdlib Require Import Strings.Ascii Strings.Byte.
From stdpp Require Import base gmap strings list sorting relations.

(** ** The relational schema ([initDatabase]) *)

Module Db.

(** Row of [folders]. *)
Record Folder := {
  f_id : Z;
  f_name : string;
  f_parent_id : option Z;
  f_user_id : Z;
  f_created_at : Z;
  f_updated_at : Z
}.

(** Row of [items]. *)
Record Item := {
  i_id : Z;
  i_name : string;
  i_type : string;
  i_encrypted_content : option string;
  i_file_path : option string;
  i_file_size : Z;
  i_language : option string;
  i_tags : option (list string);
  i_folder_id : Z;
  i_user_id : Z;
  i_access_count : Z;
  i_last_accessed : option Z;
  i_is_pinned : bool;
  i_created_at : Z;
  i_updated_at : Z
}.

(** Row of [item_versions]. *)
Record ItemVersion := {
  v_id : Z;
  v_item_id : Z;
  v_encrypted_content : option string;
  v_version_number : Z;
  v_created_at : Z
}.

(** The database: the three tables and the SERIAL sequence of each.
    Sequences are not transactional in PostgreSQL, so they are kept
    apart from the tables when a transaction is rolled back. *)
Record Store := {
  folders : list Folder;
  items : list Item;
  item_versions : list ItemVersion;
  folders_id_seq : Z;
  items_id_seq : Z;
  item_versions_id_seq : Z
}.

(** [req.user], as attached by middleware/auth.js. *)
Record User := {
  u_id : Z;
  u_email : string;
  u_encryptionKey : string
}.

(** What a statement does: it returns rows or throws, and leaves a store
    behind in both cases (a throw does not undo earlier statements). *)
Inductive Outcome (A : Type) : Type :=
| Done (a : A)
| Thrown (e : string).
Global Arguments Done {A} a.
Global Arguments Thrown {A} e.

Definition Query (A : Type) : Type := Store → Outcome A * Store.

Definition ret {A} (a : A) : Query A := λ s, (Done a, s).
Definition bind {A B} (q : Query A) (k : A → Query B) : Query B :=
  λ s, match q s with
       | (Done a, s') => k a s'
       | (Thrown e, s') => (Thrown e, s')
       end.

(** An HTTP answer: [res.json(payload)] with its status, or
    [res.status(n).json({ error })]. *)
Inductive Response (A : Type) : Type :=
| Ok (status : nat) (payload : A)
| Err (status : nat) (error : string).
Global Arguments Ok {A} status payload.
Global Arguments Err {A} status error.

(** JavaScript truthiness of the values the routes test. *)
Definition truthy_num (z : Z) : bool := negb (bool_decide (z = 0%Z)).
Definition truthy_str (s : string) : bool := negb (bool_decide (s = "")).
Definition truthy_opt {A} (t : A → bool) (o : option A) : bool :=
  match o with Some a => t a | None => false end.

(** VARCHAR(n): a longer value is refused by the server (characters are
    counted as bytes here). *)
Definition varchar (n : nat) (s : string) : bool :=
  bool_decide (String.length s ≤ n).

(** CHECK (type IN ('text', 'secret', 'api_key', 'code', 'file')). *)
Definition validTypes : list string :=
  ["text"; "secret"; "api_key"; "code"; "file"].

(** *** ON DELETE CASCADE

    [folders.parent_id], [items.folder_id] and [item_versions.item_id]
    all cascade.  A folder goes when the statement hits it or hits one
    of its ancestors; the walk up the parent links is bounded by the
    number of folder rows, which covers every distinct ancestor (under
    the primary key the walk decides the relation [doomed] below). *)
Fixpoint cascades (fuel : nat) (fs : list Folder) (hit : Folder → bool)
    (f : Folder) : bool :=
  hit f ||
  match fuel with
  | O => false
  | S n =>
      match f_parent_id f with
      | None => false
      | Some p =>
          existsb (λ g, bool_decide (f_id g = p) && cascades n fs hit g) fs
      end
  end.

(** The same as a relation: the rows the statement hits and, from parent
    to child, the rows whose parent goes. *)
Inductive doomed (fs : list Folder) (hit : Folder → bool) : Folder → Prop :=
| doomed_hit f :
    hit f = true → doomed fs hit f
| doomed_child f g :
    g ∈ fs → f_parent_id f = Some (f_id g) → doomed fs hit g →
    doomed fs hit f.

Definition with_folders (fs : list Folder) (s : Store) : Store :=
  {| folders := fs; items := items s; item_versions := item_versions s;
     folders_id_seq := folders_id_seq s; items_id_seq := items_id_seq s;
     item_versions_id_seq := item_versions_id_seq s |}.
Definition with_items (l : list Item) (s : Store) : Store :=
  {| folders := folders s; items := l; item_versions := item_versions s;
     folders_id_seq := folders_id_seq s; items_id_seq := items_id_seq s;
     item_versions_id_seq := item_versions_id_seq s |}.
Definition with_item_versions (l : list ItemVersion) (s : Store) : Store :=
  {| folders := folders s; items := items s; item_versions := l;
     folders_id_seq := folders_id_seq s; items_id_seq := items_id_seq s;
     item_versions_id_seq := item_versions_id_seq s |}.

(** nextval of the three sequences *)
Definition nextval_folders : Query Z := λ s,
  (Done (folders_id_seq s),
   {| folders := folders s; items := items s; item_versions := item_versions s;
      folders_id_seq := folders_id_seq s + 1; items_id_seq := items_id_seq s;
      item_versions_id_seq := item_versions_id_seq s |}).
Definition nextval_items : Query Z := λ s,
  (Done (items_id_seq s),
   {| folders := folders s; items := items s; item_versions := item_versions s;
      folders_id_seq := folders_id_seq s; items_id_seq := items_id_seq s + 1;
      item_versions_id_seq := item_versions_id_seq s |}).
Definition nextval_item_versions : Query Z := λ s,
  (Done (item_versions_id_seq s),
   {| folders := folders s; items := items s; item_versions := item_versions s;
      folders_id_seq := folders_id_seq s; items_id_seq := items_id_seq s;
      item_versions_id_seq := item_versions_id_seq s + 1 |}).

(** DELETE FROM items WHERE [hit] *)
Definition delete_items (hit : Item → bool) (s : Store) : Store :=
  let dead := i_id <$> filter (λ i, hit i) (items s) in
  with_item_versions (filter (λ v, v_item_id v ∉ dead) (item_versions s))
    (with_items (filter (λ i, ¬ hit i) (items s)) s).

(** DELETE FROM folders WHERE [hit] *)
Definition delete_folders (hit : Folder → bool) (s : Store) : Store :=
  let gone := cascades (length (folders s)) (folders s) hit in
  let dead := f_id <$> filter (λ f, gone f) (folders s) in
  delete_items (λ i, bool_decide (i_folder_id i ∈ dead))
    (with_folders (filter (λ f, ¬ gone f) (folders s)) s).

(** INSERT INTO folders (name, parent_id, user_id) VALUES ($1, $2, $3)
    ON CONFLICT DO NOTHING RETURNING id.

    The conflict clause names no target, so it covers the primary key
    and UNIQUE(name, parent_id, user_id); a NULL parent never takes part
    in a conflict on the latter (NULLs are distinct).  The answer is
    the list of returned ids: one, or none after a conflict. *)
Definition folder_conflict (id : Z) (name : string) (parent : option Z)
    (user : Z) (g : Folder) : bool :=
  bool_decide (f_id g = id) ||
  match parent with
  | Some p => bool_decide (f_name g = name ∧ f_parent_id g = Some p ∧ f_user_id g = user)
  | None => false
  end.

Definition insert_folder_on_conflict_do_nothing (name : string)
    (parent : option Z) (user : Z) (now : Z) : Query (list Z) :=
  bind nextval_folders (λ id s,
    if negb (varchar 255 name) then
      (Thrown "value too long for type character varying(255)", s)
    else if negb (from_option (λ p, bool_decide (p ∈ f_id <$> folders s)) true parent) then
      (Thrown "folders_parent_id_fkey", s)
    else if existsb (folder_conflict id name parent user) (folders s) then
      (Done [], s)
    else
      (Done [id],
       with_folders (folders s ++
         [{| f_id := id; f_name := name; f_parent_id := parent;
             f_user_id := user; f_created_at := now; f_updated_at := now |}]) s)).

(** INSERT INTO items (name, type, encrypted_content, folder_id, user_id,
    language, tags) VALUES ($1 .. $7) RETURNING * *)
Definition insert_item (name type : string) (content : option string)
    (folder user : Z) (language : option string) (tags : list string)
    (now : Z) : Query Item :=
  bind nextval_items (λ id s,
    if negb (varchar 255 name) then
      (Thrown "value too long for type character varying(255)", s)
    else if negb (varchar 50 type) || negb (from_option (varchar 50) true language) then
      (Thrown "value too long for type character varying(50)", s)
    else if negb (bool_decide (type ∈ validTypes)) then
      (Thrown "items_type_check", s)
    else if negb (bool_decide (folder ∈ f_id <$> folders s)) then
      (Thrown "items_folder_id_fkey", s)
    else if bool_decide (id ∈ i_id <$> items s) then
      (Thrown "items_pkey", s)
    else
      let row :=
        {| i_id := id; i_name := name; i_type := type;
           i_encrypted_content := content; i_file_path := None;
           i_file_size := 0; i_language := language; i_tags := Some tags;
           i_folder_id := folder; i_user_id := user; i_access_count := 0;
           i_last_accessed := None; i_is_pinned := false;
           i_created_at := now; i_updated_at := now |} in
      (Done row, with_items (items s ++ [row]) s)).

(** INSERT INTO item_versions (item_id, encrypted_content, version_number)
    VALUES ($1, $2, $3) *)
Definition insert_item_version (item : Z) (content : option string)
    (number : Z) (now : Z) : Query unit :=
  bind nextval_item_versions (λ id s,
    if negb (bool_decide (item ∈ i_id <$> items s)) then
      (Thrown "item_versions_item_id_fkey", s)
    else if bool_decide (id ∈ v_id <$> item_versions s) then
      (Thrown "item_versions_pkey", s)
    else
      (Done (),
       with_item_versions (item_versions s ++
         [{| v_id := id; v_item_id := item; v_encrypted_content := content;
             v_version_number := number; v_created_at := now |}]) s)).

(** COALESCE($n, column) *)
Definition COALESCE {A} (new : option A) (old : A) : A := default old new.
Definition COALESCE_null {A} (new old : option A) : option A :=
  match new with Some a => Some a | None => old end.

(** UPDATE items SET name = COALESCE($1, name),
      encrypted_content = COALESCE($2, encrypted_content),
      folder_id = COALESCE($3, folder_id),
      language = COALESCE($4, language), tags = COALESCE($5, tags),
      updated_at = CURRENT_TIMESTAMP
    WHERE id = $6 AND user_id = $7 RETURNING * *)
Definition updated_item (name content : option string) (folder : option Z)
    (language : option string) (tags : option (list string)) (now : Z)
    (r : Item) : Item :=
  {| i_id := i_id r;
     i_name := COALESCE name (i_name r);
     i_type := i_type r;
     i_encrypted_content := COALESCE_null content (i_encrypted_content r);
     i_file_path := i_file_path r;
     i_file_size := i_file_size r;
     i_language := COALESCE_null language (i_language r);
     i_tags := COALESCE_null tags (i_tags r);
     i_folder_id := COALESCE folder (i_folder_id r);
     i_user_id := i_user_id r;
     i_access_count := i_access_count r;
     i_last_accessed := i_last_accessed r;
     i_is_pinned := i_is_pinned r;
     i_created_at := i_created_at r;
     i_updated_at := now |}.

Definition item_row_ok (s : Store) (r : Item) : bool :=
  varchar 255 (i_name r) && from_option (varchar 50) true (i_language r)
  && bool_decide (i_folder_id r ∈ f_id <$> folders s).

Definition update_item (name content : option string) (folder : option Z)
    (language : option string) (tags : option (list string))
    (id user : Z) (now : Z) : Query (list Item) := λ s,
  let target r := bool_decide (i_id r = id ∧ i_user_id r = user) in
  let change r :=
    if target r then updated_item name content folder language tags now r
    else r in
  let rows := change <$> filter (λ r, target r) (items s) in
  if forallb (item_row_ok s) rows then
    (Done rows, with_items (change <$> items s) s)
  else
    (Thrown "UPDATE items: constraint violated", s).

(** [column = $n] as a WHERE condition: never true when either side is
    NULL. *)
Definition sql_eq (column param : option Z) : Prop :=
  ∃ x, column = Some x ∧ param = Some x.
Global Instance sql_eq_dec column param : Decision (sql_eq column param).
Proof.
  unfold sql_eq. destruct column as [x|], param as [y|].
  - destruct (decide (x = y)) as [->|Hne].
    + left. by exists y.
    + right. intros (z & [= ->] & [= ->]). done.
  - right. by intros (z & _ & [=]).
  - right. by intros (z & [=] & _).
  - right. by intros (z & [=] & _).
Defined.

(** INSERT INTO folders (name, parent_id, user_id) VALUES ($1, $2, $3)
    RETURNING *: the statement of the create route, without a conflict
    clause.  The unique indexes are probed when the row goes in, the
    foreign key after it. *)
Definition insert_folder (name : string) (parent : option Z) (user : Z)
    (now : Z) : Query Folder :=
  bind nextval_folders (λ id s,
    if negb (varchar 255 name) then
      (Thrown "value too long for type character varying(255)", s)
    else if existsb (folder_conflict id name parent user) (folders s) then
      (Thrown "duplicate key value violates unique constraint", s)
    else if negb (from_option (λ p, bool_decide (p ∈ f_id <$> folders s)) true parent) then
      (Thrown "folders_parent_id_fkey", s)
    else
      let row :=
        {| f_id := id; f_name := name; f_parent_id := parent;
           f_user_id := user; f_created_at := now; f_updated_at := now |} in
      (Done row, with_folders (folders s ++ [row]) s)).

(** UPDATE folders SET name = $1, parent_id = $2,
      updated_at = CURRENT_TIMESTAMP
    WHERE id = $3 AND user_id = $4 RETURNING *.
    A changed row is checked against the rows the statement leaves
    alone: VARCHAR(255), UNIQUE(name, parent_id, user_id) with NULL
    parents distinct, and the foreign key of [parent_id] (ids do not
    change, so the parent is looked up among the ids of the table). *)
Definition updated_folder (name : string) (parent : option Z) (now : Z)
    (r : Folder) : Folder :=
  {| f_id := f_id r; f_name := name; f_parent_id := parent;
     f_user_id := f_user_id r; f_created_at := f_created_at r;
     f_updated_at := now |}.

Definition folder_row_ok (s : Store) (target : Folder → bool) (r : Folder)
  : bool :=
  varchar 255 (f_name r)
  && negb (existsb (λ g, negb (target g) &&
             bool_decide (f_name g = f_name r
                          ∧ sql_eq (f_parent_id g) (f_parent_id r)
                          ∧ f_user_id g = f_user_id r)) (folders s))
  && from_option (λ p, bool_decide (p ∈ f_id <$> folders s)) true
       (f_parent_id r).

Definition update_folder (name : string) (parent : option Z) (id user : Z)
    (now : Z) : Query (list Folder) := λ s,
  let target r := bool_decide (f_id r = id ∧ f_user_id r = user) in
  let change r := if target r then updated_folder name parent now r else r in
  let rows := change <$> filter (λ r, target r) (folders s) in
  if forallb (folder_row_ok s target) rows then
    (Done rows, with_folders (change <$> folders s) s)
  else
    (Thrown "UPDATE folders: constraint violated", s).

(** UPDATE items SET access_count = access_count + 1,
      last_accessed = CURRENT_TIMESTAMP WHERE id = $1.
    [access_count] is an INTEGER: the statement fails with
    "integer out of range" past 2^31 - 1. *)
Definition accessed_item (now : Z) (r : Item) : Item :=
  {| i_id := i_id r; i_name := i_name r; i_type := i_type r;
     i_encrypted_content := i_encrypted_content r;
     i_file_path := i_file_path r; i_file_size := i_file_size r;
     i_language := i_language r; i_tags := i_tags r;
     i_folder_id := i_folder_id r; i_user_id := i_user_id r;
     i_access_count := i_access_count r + 1;
     i_last_accessed := Some now;
     i_is_pinned := i_is_pinned r; i_created_at := i_created_at r;
     i_updated_at := i_updated_at r |}.

Definition INTEGER_max : Z := 2147483647.

Definition update_access (id : Z) (now : Z) : Query unit := λ s,
  let target r := bool_decide (i_id r = id) in
  let change r := if target r then accessed_item now r else r in
  if forallb (λ r, bool_decide (i_access_count r + 1 ≤ INTEGER_max)%Z)
       (filter (λ r, target r) (items s)) then
    (Done (), with_items (change <$> items s) s)
  else
    (Thrown "integer out of range", s).

(** UPDATE items SET is_pinned = NOT is_pinned
    WHERE id = $1 AND user_id = $2 RETURNING is_pinned *)
Definition toggled_item (r : Item) : Item :=
  {| i_id := i_id r; i_name := i_name r; i_type := i_type r;
     i_encrypted_content := i_encrypted_content r;
     i_file_path := i_file_path r; i_file_size := i_file_size r;
     i_language := i_language r; i_tags := i_tags r;
     i_folder_id := i_folder_id r; i_user_id := i_user_id r;
     i_access_count := i_access_count r;
     i_last_accessed := i_last_accessed r;
     i_is_pinned := negb (i_is_pinned r); i_created_at := i_created_at r;
     i_updated_at := i_updated_at r |}.

Definition update_pin (id user : Z) : Query (list bool) := λ s,
  let target r := bool_decide (i_id r = id ∧ i_user_id r = user) in
  let change r := if target r then toggled_item r else r in
  (Done ((λ r, i_is_pinned (change r)) <$> filter (λ r, target r) (items s)),
   with_items (change <$> items s) s).

(** INSERT INTO items (name, type, encrypted_content, file_path,
    file_size, folder_id, user_id) VALUES ($1, 'file', $2 .. $6)
    RETURNING *: the statement of the upload route.  [file_size] is a
    BIGINT. *)
Definition BIGINT_max : Z := 9223372036854775807.

Definition insert_file_item (name : string) (content : option string)
    (path : string) (size : Z) (folder user : Z) (now : Z) : Query Item :=
  bind nextval_items (λ id s,
    if negb (varchar 255 name) then
      (Thrown "value too long for type character varying(255)", s)
    else if negb (varchar 500 path) then
      (Thrown "value too long for type character varying(500)", s)
    else if negb (bool_decide (- BIGINT_max - 1 ≤ size ≤ BIGINT_max)%Z) then
      (Thrown "bigint out of range", s)
    else if bool_decide (id ∈ i_id <$> items s) then
      (Thrown "items_pkey", s)
    else if negb (bool_decide (folder ∈ f_id <$> folders s)) then
      (Thrown "items_folder_id_fkey", s)
    else
      let row :=
        {| i_id := id; i_name := name; i_type := "file";
           i_encrypted_content := content; i_file_path := Some path;
           i_file_size := size; i_language := None; i_tags := None;
           i_folder_id := folder; i_user_id := user; i_access_count := 0;
           i_last_accessed := None; i_is_pinned := false;
           i_created_at := now; i_updated_at := now |} in
      (Done row, with_items (items s ++ [row]) s)).

End Db.

(** ** Shared route plumbing *)

Module Route.
Import Db.

Declare Scope query_scope.
Delimit Scope query_scope with query.
Notation "'let*' x := q 'in' k" := (bind q (λ x, k))
  (at level 10, x binder, q at level 100, k at level 200) : query_scope.

(** SELECT ... FROM folders / items / item_versions WHERE [P] *)
Definition select_folders (P : Folder → Prop) `{∀ f, Decision (P f)}
  : Query (list Folder) := λ s, (Done (filter P (folders s)), s).
Definition select_items (P : Item → Prop) `{∀ i, Decision (P i)}
  : Query (list Item) := λ s, (Done (filter P (items s)), s).
Definition select_item_versions (P : ItemVersion → Prop)
    `{∀ v, Decision (P v)}
  : Query (list ItemVersion) := λ s, (Done (filter P (item_versions s)), s).

(** A SELECT without ORDER BY answers its rows in an order that
    PostgreSQL does not fix: it is the order of the scan, which moves
    with earlier updates and deletes.  One query of the routes is read
    at [rows[0]] while several rows can match it (the existing root of
    the import route); its rows come as [scan s rows], some arrangement
    of the matching rows in the state the database is in.  Every other
    query names a primary key or a unique column, is sorted, or is only
    counted. *)
Class Scan := {
  scan : Store → list Folder → list Folder;
  scan_Permutation s rows : scan s rows ≡ₚ rows
}.

Definition select_folders_as_scanned `{Scan} (P : Folder → Prop)
    `{∀ f, Decision (P f)}
  : Query (list Folder) := λ s, (Done (scan s (filter P (folders s))), s).

(** DELETE statements as queries *)
Definition exec (f : Store → Store) : Query unit := λ s, (Done (), f s).

(** [try { ... } catch (error) { res.status(500).json({ error }) }] *)
Definition catch {A} (error : string) (q : Query (Response A))
  : Store → Response A * Store :=
  λ s, match q s with
       | (Done r, s') => (r, s')
       | (Thrown _, s') => (Err 500 error, s')
       end.
End Route.

(** ** server/routes/folders.js: deletion of folders and of files *)

Module Folders.
Import Db Route.
Local Open Scope query_scope.

(** router.delete('/:id'), folders *)
Definition deleteFolder (user : User) (id : Z)
  : Store → Response string * Store :=
  catch "Failed to delete folder" (
    let* folderCheck :=
      select_folders (λ f, f_id f = id ∧ f_user_id f = u_id user) in
    match folderCheck with
    | [] => ret (Err 404 "Folder not found")
    | row :: _ =>
        if bool_decide (f_name row = "Root") then
          ret (Err 403 "Cannot delete root folder")
        else
          let* _ := exec (delete_folders
            (λ f, bool_decide (f_id f = id ∧ f_user_id f = u_id user))) in
          ret (Ok 200 "Folder deleted successfully")
    end).

(** router.delete('/:id'), files; unlinking the file on disk is outside
    the store. *)
Definition deleteFile (user : User) (id : Z)
  : Store → Response string * Store :=
  catch "Failed to delete file" (
    let* result :=
      select_items (λ i, i_id i = id ∧ i_user_id i = u_id user
                         ∧ i_type i = "file") in
    match result with
    | [] => ret (Err 404 "File not found")
    | _ :: _ =>
        let* _ := exec (delete_items
          (λ i, bool_decide (i_id i = id ∧ i_user_id i = u_id user))) in
        ret (Ok 200 "File deleted successfully")
    end).
(** [req.body] of the create and update routes of folders; [None] is an
    absent or null field. *)
Record FolderData := {
  fd_name : option string;
  fd_parentId : option Z
}.

(** [parentId || null] *)
Definition or_null (parentId : option Z) : option Z :=
  if truthy_opt truthy_num parentId then parentId else None.

(** The parent query of the create route, which runs only behind
    [if (parentId)]. *)
Definition parentCheck (user : User) (parentId : option Z)
  : Query (list Folder) :=
  match parentId with
  | Some parentId =>
      if truthy_num parentId then
        select_folders (λ f, f_id f = parentId ∧ f_user_id f = u_id user)
      else ret []
  | None => ret []
  end.

(** router.post('/'), folders *)
Definition createFolder (user : User) (body : FolderData) (now : Z)
  : Store → Response Folder * Store :=
  match fd_name body with
  | Some name =>
      if negb (truthy_str name) then
        λ s, (Err 400 "Folder name is required", s)
      else
        catch "Failed to create folder" (
          (* Check if parent exists (if provided) *)
          let* parentCheck := parentCheck user (fd_parentId body) in
          if truthy_opt truthy_num (fd_parentId body)
             && bool_decide (parentCheck = []) then
            ret (Err 404 "Parent folder not found")
          else
            (* Check for duplicate names in same parent *)
            let* duplicateCheck :=
              select_folders (λ f, f_name f = name
                ∧ sql_eq (f_parent_id f) (or_null (fd_parentId body))
                ∧ f_user_id f = u_id user) in
            match duplicateCheck with
            | _ :: _ =>
                ret (Err 409 "Folder with this name already exists in the same location")
            | [] =>
                let* row :=
                  insert_folder name (or_null (fd_parentId body))
                    (u_id user) now in
                ret (Ok 201 row)
            end)
  | None => λ s, (Err 400 "Folder name is required", s)
  end.

(** router.put('/:id'), folders *)
Definition updateFolder (user : User) (id : Z) (body : FolderData) (now : Z)
  : Store → Response (option Folder) * Store :=
  match fd_name body with
  | Some name =>
      if negb (truthy_str name) then
        λ s, (Err 400 "Folder name is required", s)
      else
        catch "Failed to update folder" (
          (* Check folder ownership *)
          let* folderCheck :=
            select_folders (λ f, f_id f = id ∧ f_user_id f = u_id user) in
          match folderCheck with
          | [] => ret (Err 404 "Folder not found")
          | _ :: _ =>
              (* Check for duplicate names in same parent (excluding
                 current folder) *)
              let* duplicateCheck :=
                select_folders (λ f, f_name f = name
                  ∧ sql_eq (f_parent_id f) (or_null (fd_parentId body))
                  ∧ f_user_id f = u_id user ∧ f_id f ≠ id) in
              match duplicateCheck with
              | _ :: _ =>
                  ret (Err 409 "Folder with this name already exists in the same location")
              | [] =>
                  let* result :=
                    update_folder name (or_null (fd_parentId body)) id
                      (u_id user) now in
                  ret (Ok 200 (head result))
              end
          end)
  | None => λ s, (Err 400 "Folder name is required", s)
  end.
End Folders.

(** ** server/routes/items.js *)

Module Items.
Import Db Route.
Local Open Scope query_scope.

(** Request bodies (src/types/index.ts); [None] is an absent or null
    field. *)
Record CreateItemData := {
  cd_name : option string;
  cd_type : option string;
  cd_encryptedContent : option string;
  cd_folderId : option Z;
  cd_language : option string;
  cd_tags : option (list string)
}.

Record UpdateItemData := {
  ud_name : option string;
  ud_encryptedContent : option string;
  ud_folderId : option Z;
  ud_language : option string;
  ud_tags : option (list string)
}.

(** router.post('/') *)
Definition createItem (user : User) (body : CreateItemData) (now : Z)
  : Store → Response Item * Store :=
  match cd_name body, cd_type body, cd_folderId body with
  | Some name, Some type, Some folderId =>
      if negb (truthy_str name && truthy_str type && truthy_num folderId) then
        λ s, (Err 400 "Name, type, and folder ID are required", s)
      else if negb (bool_decide (type ∈ validTypes)) then
        λ s, (Err 400 "Invalid item type", s)
      else
        catch "Failed to create item" (
          let* folderCheck :=
            select_folders (λ f, f_id f = folderId ∧ f_user_id f = u_id user) in
          match folderCheck with
          | [] => ret (Err 404 "Folder not found")
          | _ :: _ =>
              let* row :=
                insert_item name type (cd_encryptedContent body) folderId
                  (u_id user) (cd_language body)
                  (default [] (cd_tags body)) now in
              (* Create initial version *)
              let* _ :=
                insert_item_version (i_id row) (cd_encryptedContent body) 1 now in
              ret (Ok 201 row)
          end)
  | _, _, _ => λ s, (Err 400 "Name, type, and folder ID are required", s)
  end.

(** SELECT MAX(version_number) as max_version FROM item_versions
    WHERE item_id = $1; NULL when there is no row *)
Definition max_version (id : Z) (s : Store) : option Z :=
  foldr (λ v acc, Some (from_option (Z.max (v_version_number v))
                                    (v_version_number v) acc))
        None (filter (λ v, v_item_id v = id) (item_versions s)).

(** The folder query of the update route, which runs only behind
    [if (folderId)]. *)
Definition targetFolderCheck (user : User) (folderId : option Z)
  : Query (list Folder) :=
  match folderId with
  | Some folderId =>
      if truthy_num folderId then
        select_folders (λ f, f_id f = folderId ∧ f_user_id f = u_id user)
      else ret []
  | None => ret []
  end.

(** router.put('/:id') *)
Definition updateItem (user : User) (id : Z) (body : UpdateItemData)
    (now : Z) : Store → Response (option Item) * Store :=
  catch "Failed to update item" (
    (* Check item ownership *)
    let* itemCheck :=
      select_items (λ i, i_id i = id ∧ i_user_id i = u_id user) in
    match itemCheck with
    | [] => ret (Err 404 "Item not found")
    | current :: _ =>
        (* If folder is being changed, verify new folder ownership *)
        let* folderCheck := targetFolderCheck user (ud_folderId body) in
        if truthy_opt truthy_num (ud_folderId body)
           && bool_decide (folderCheck = []) then
          ret (Err 404 "Target folder not found")
        else
          (* Get current version number *)
          let* versionResult := (λ s, (Done (max_version id s), s)) in
          let nextVersion :=
            ((if truthy_opt truthy_num versionResult
              then default 0 versionResult else 0) + 1)%Z in
          (* Update item *)
          let* result :=
            update_item (ud_name body) (ud_encryptedContent body)
              (ud_folderId body) (ud_language body) (ud_tags body)
              id (u_id user) now in
          (* Create new version if content changed *)
          let* _ :=
            if truthy_opt truthy_str (ud_encryptedContent body)
               && negb (bool_decide (ud_encryptedContent body
                                     = i_encrypted_content current))
            then insert_item_version id (ud_encryptedContent body)
                   nextVersion now
            else ret () in
          ret (Ok 200 (head result))
    end).

(** ORDER BY version_number DESC *)
Definition version_desc (a b : ItemVersion) : Prop :=
  (v_version_number b ≤ v_version_number a)%Z.
Global Instance version_desc_dec a b : Decision (version_desc a b).
Proof. unfold version_desc. apply _. Defined.

(** router.get('/:id/versions') *)
Definition getItemVersions (user : User) (id : Z)
  : Store → Response (list ItemVersion) * Store :=
  catch "Failed to fetch versions" (
    (* Verify item ownership *)
    let* itemCheck :=
      select_items (λ i, i_id i = id ∧ i_user_id i = u_id user) in
    match itemCheck with
    | [] => ret (Err 404 "Item not found")
    | _ :: _ =>
        let* result := select_item_versions (λ v, v_item_id v = id) in
        ret (Ok 200 (merge_sort version_desc result))
    end).

(** router.delete('/:id') *)
Definition deleteItem (user : User) (id : Z)
  : Store → Response string * Store :=
  catch "Failed to delete item" (
    let* found :=
      select_items (λ i, i_id i = id ∧ i_user_id i = u_id user) in
    let* _ := exec (delete_items
      (λ i, bool_decide (i_id i = id ∧ i_user_id i = u_id user))) in
    match found with
    | [] => ret (Err 404 "Item not found")
    | _ :: _ => ret (Ok 200 "Item deleted successfully")
    end).
(** SELECT i.*, f.name as folder_name FROM items i
    JOIN folders f ON i.folder_id = f.id WHERE [P] *)
Definition select_items_join_folders (P : Item → Prop) `{∀ i, Decision (P i)}
  : Query (list (Item * string)) := λ s,
  (Done (filter P (items s) ≫= λ i,
           (λ f, (i, f_name f)) <$>
             filter (λ f, f_id f = i_folder_id i) (folders s)), s).

(** router.get('/:id'): the answer is the row as it was read, before the
    access is counted. *)
Definition getItem (user : User) (id : Z) (now : Z)
  : Store → Response (Item * string) * Store :=
  catch "Failed to fetch item" (
    let* result :=
      select_items_join_folders (λ i, i_id i = id ∧ i_user_id i = u_id user) in
    match result with
    | [] => ret (Err 404 "Item not found")
    | row :: _ =>
        (* Increment access count and update last accessed *)
        let* _ := update_access id now in
        ret (Ok 200 row)
    end).

(** router.put('/:id/pin') *)
Definition togglePin (user : User) (id : Z)
  : Store → Response bool * Store :=
  catch "Failed to toggle pin" (
    let* result := update_pin id (u_id user) in
    match result with
    | [] => ret (Err 404 "Item not found")
    | is_pinned :: _ => ret (Ok 200 is_pinned)
    end).

(** ORDER BY i.is_pinned DESC, i.access_count DESC, i.last_accessed DESC;
    in descending order NULL comes first. *)
Definition frequent_first (a b : Item * string) : Prop :=
  if decide (i_is_pinned a.1 = i_is_pinned b.1) then
    if decide (i_access_count a.1 = i_access_count b.1) then
      match i_last_accessed a.1, i_last_accessed b.1 with
      | None, _ => True
      | Some _, None => False
      | Some t, Some t' => (t' ≤ t)%Z
      end
    else (i_access_count b.1 < i_access_count a.1)%Z
  else i_is_pinned a.1 = true.
Global Instance frequent_first_dec a b : Decision (frequent_first a b).
Proof.
  unfold frequent_first.
  destruct (decide _); [destruct (decide _)|]; [|apply _..].
  destruct (i_last_accessed a.1), (i_last_accessed b.1); apply _.
Defined.

(** router.get('/frequent') *)
Definition getFrequentItems (user : User)
  : Store → Response (list (Item * string)) * Store :=
  catch "Failed to fetch frequent items" (
    let* result :=
      select_items_join_folders (λ i, i_user_id i = u_id user
        ∧ ((0 < i_access_count i)%Z ∨ i_is_pinned i = true)) in
    ret (Ok 200 (take 20 (merge_sort frequent_first result)))).
End Items.

(** ** Sequences of delete requests *)

Module Requests.
Import Db.

(** The three DELETE routes of the server, with the caller that the
    authentication middleware attached to the request. *)
Inductive DeleteRequest : Type :=
| DeleteFolder (user : User) (id : Z)
| DeleteItem (user : User) (id : Z)
| DeleteFile (user : User) (id : Z).

Definition serve (r : DeleteRequest) : Store → Response string * Store :=
  match r with
  | DeleteFolder user id => Folders.deleteFolder user id
  | DeleteItem user id => Items.deleteItem user id
  | DeleteFile user id => Folders.deleteFile user id
  end.

Definition serve_all (rs : list DeleteRequest) (s : Store) : Store :=
  foldl (λ s r, (serve r s).2) s rs.
End Requests.

(** ** server/routes/backup.js *)

Module Backup.
Import Db Route.
Local Open Scope query_scope.

(** The envelope ([BackupData] of src/types/index.ts), as the client
    posts it back in [req.body.backupData]. *)
Record BackupData := {
  version : string;
  encrypted : bool;
  data : string
}.

(** The snapshot inside the envelope: [backupData] of the export route,
    [backup] of the import route.  A collection is [None] when the
    parsed object has no such (truthy) property. *)
Record Snapshot := {
  snap_version : string;
  snap_timestamp : Z;
  snap_user_email : string;
  snap_folders : option (list Folder);
  snap_items : option (list Item)
}.

(** What [res.json] is given by the export route: an object, as the
    list of its properties with their values. *)
Inductive JSONValue : Type :=
| JString (s : string)
| JBool (b : bool).

Inductive JSON : Type :=
| JObject (properties : list (string * JSONValue)).

(** Node's [crypto], [Buffer] and [JSON], which the routes call and
    whose code is not part of the repository.  [createCipher] and
    [createDecipher] take the algorithm and a password only: key and
    nonce are derived from [req.user.encryptionKey] inside the library.
    [createDecipher_gcm key tag ciphertext] is
    [setAuthTag(tag); update(ciphertext); final()], and [None] when one
    of the three throws. *)
Class Node := {
  createCipher_gcm : string → list Byte.byte → list Byte.byte * list Byte.byte;
  createDecipher_gcm : string → list Byte.byte → list Byte.byte → option (list Byte.byte);
  base64_encode : list Byte.byte → string;
  base64_decode : string → list Byte.byte;
  utf8_encode : string → list Byte.byte;
  utf8_decode : list Byte.byte → string;
  JSON_stringify : Snapshot → string;
  JSON_parse : string → option Snapshot;
  getAuthTag_length key text :
    length (createCipher_gcm key text).2 = 16;
  createDecipher_createCipher key text :
    createDecipher_gcm key (createCipher_gcm key text).2
      (createCipher_gcm key text).1 = Some text;
  base64_decode_encode bytes :
    base64_decode (base64_encode bytes) = bytes
}.

(** crypto.randomBytes(n), reading the entropy source *)
Definition randomBytes (n : nat) (entropy : nat → Byte.byte) : list Byte.byte :=
  entropy <$> seq 0 n.

(** ORDER BY id *)
Definition folder_by_id (a b : Folder) : Prop := (f_id a ≤ f_id b)%Z.
Definition item_by_id (a b : Item) : Prop := (i_id a ≤ i_id b)%Z.
Global Instance folder_by_id_dec a b : Decision (folder_by_id a b).
Proof. unfold folder_by_id. apply _. Defined.
Global Instance item_by_id_dec a b : Decision (item_by_id a b).
Proof. unfold item_by_id. apply _. Defined.

(** Don't include file paths in backup for security *)
Definition mask_file_path (item : Item) : Item :=
  {| i_id := i_id item; i_name := i_name item; i_type := i_type item;
     i_encrypted_content := i_encrypted_content item;
     i_file_path :=
       if bool_decide (i_type item = "file")
       then Some "[FILE_DATA_NOT_INCLUDED]" else i_file_path item;
     i_file_size := i_file_size item; i_language := i_language item;
     i_tags := i_tags item; i_folder_id := i_folder_id item;
     i_user_id := i_user_id item; i_access_count := i_access_count item;
     i_last_accessed := i_last_accessed item;
     i_is_pinned := i_is_pinned item; i_created_at := i_created_at item;
     i_updated_at := i_updated_at item |}.

Section routes.
Context `{Node}.

(** Create backup structure *)
Definition backupData (user : User) (now : Z) (folders : list Folder)
    (items : list Item) : Snapshot :=
  {| snap_version := "1.0.0";
     snap_timestamp := now;
     snap_user_email := u_email user;
     snap_folders := Some folders;
     snap_items := Some (mask_file_path <$> items) |}.

(** Encrypt backup data: the bytes that are base64-encoded *)
Definition encryptedBackup (key : string) (iv : list Byte.byte)
    (backupJson : string) : list Byte.byte :=
  let '(encrypted, authTag) := createCipher_gcm key (utf8_encode backupJson) in
  iv ++ authTag ++ encrypted.

(** router.get('/export') *)
Definition exportData (user : User) (now : Z) (entropy : nat → Byte.byte)
  : Store → Response JSON * Store :=
  catch "Failed to export data" (
    (* Get all user data *)
    let* folders := select_folders (λ f, f_user_id f = u_id user) in
    let* items := select_items (λ i, i_user_id i = u_id user) in
    let backupJson :=
      JSON_stringify (backupData user now (merge_sort folder_by_id folders)
                        (merge_sort item_by_id items)) in
    let iv := randomBytes 16 entropy in
    ret (Ok 200 (JObject [
      ("version", JString "1.0.0");
      ("encrypted", JBool true);
      ("data", JString (base64_encode
         (encryptedBackup (u_encryptionKey user) iv backupJson)))]))).

(** Decrypt backup data: the slices of the decoded buffer and the
    decipher call; [iv] is sliced off and not used again. *)
Definition decryptBackup (key : string) (encryptedBuffer : list Byte.byte)
  : option (list Byte.byte) :=
  let iv := take 16 encryptedBuffer in
  let authTag := take 16 (drop 16 encryptedBuffer) in
  let encrypted := drop 32 encryptedBuffer in
  createDecipher_gcm key authTag encrypted.
End routes.

(** *** The replay of a snapshot *)

(** Ghost record of what the folder loop did with each bundle folder. *)
Inductive FolderEvent : Type :=
| MappedOntoRoot (bundle_id root_id : Z)
| Inserted (bundle_id new_id : Z) (parent : option Z)
| NothingInserted (bundle_id : Z).

Record Replay := {
  folderMapping : gmap Z Z;
  events : list FolderEvent
}.

(** for (const x of xs) { ... } over an accumulator *)
Fixpoint for_of {A B} (xs : list A) (body : A → B → Query B) (acc : B)
  : Query B :=
  match xs with
  | [] => ret acc
  | x :: rest => let* acc' := body x acc in for_of rest body acc'
  end.

Section import.
Context `{Scan}.

(** Body of the folder loop *)
Definition importFolder (user : User) (clearExisting : bool) (now : Z)
    (folder : Folder) (acc : Replay) : Query Replay :=
  let* existingRoot :=
    if bool_decide (f_name folder = "Root") && negb clearExisting then
      (* Skip root folder if not clearing existing data *)
      select_folders_as_scanned
        (λ f, f_name f = "Root" ∧ f_parent_id f = None
              ∧ f_user_id f = u_id user)
    else ret [] in
  match existingRoot with
  | root :: _ =>
      ret {| folderMapping := <[f_id folder := f_id root]> (folderMapping acc);
             events := events acc ++ [MappedOntoRoot (f_id folder) (f_id root)] |}
  | [] =>
      let parentId :=
        if truthy_opt truthy_num (f_parent_id folder)
        then f_parent_id folder ≫= (λ p, folderMapping acc !! p)
        else None in
      let* result :=
        insert_folder_on_conflict_do_nothing (f_name folder) parentId
          (u_id user) now in
      match result with
      | new_id :: _ =>
          ret {| folderMapping := <[f_id folder := new_id]> (folderMapping acc);
                 events := events acc ++ [Inserted (f_id folder) new_id parentId] |}
      | [] =>
          ret {| folderMapping := folderMapping acc;
                 events := events acc ++ [NothingInserted (f_id folder)] |}
      end
  end.

(** Body of the item loop *)
Definition importItem (user : User) (now : Z) (folderMapping : gmap Z Z)
    (item : Item) (importedItems : nat) : Query nat :=
  if bool_decide (i_type item = "file") then
    (* Skip file items as we don't restore actual files *)
    ret importedItems
  else
    let newFolderId := folderMapping !! i_folder_id item in
    if negb (truthy_opt truthy_num newFolderId) then
      ret importedItems (* Skip if folder mapping not found *)
    else
      let* _ :=
        insert_item (i_name item) (i_type item) (i_encrypted_content item)
          (default 0%Z newFolderId) (u_id user) (i_language item)
          (default [] (i_tags item)) now in
      ret (S importedItems).

(** Clear existing data if requested *)
Definition clearExistingData (user : User) : Query unit :=
  let* _ := exec (delete_items (λ i, bool_decide (i_user_id i = u_id user))) in
  exec (delete_folders (λ f, bool_decide (f_user_id f = u_id user))).

(** Import folders (preserve hierarchy) *)
Definition importFolders (user : User) (clearExisting : bool) (now : Z)
    (fs : list Folder) : Query Replay :=
  for_of fs (importFolder user clearExisting now)
    {| folderMapping := ∅; events := [] |}.

(** What is answered under [imported] *)
Record Imported := {
  imported_folders : nat;
  imported_items : nat
}.

(** The statements between BEGIN and COMMIT; the replay record is
    returned along with the answer. *)
Definition replay (user : User) (clearExisting : bool) (now : Z)
    (fs : list Folder) (its : list Item) : Query (Imported * Replay) :=
  let* _ := if clearExisting then clearExistingData user else ret () in
  let* r := importFolders user clearExisting now fs in
  let* importedItems := for_of its (importItem user now (folderMapping r)) 0 in
  ret ({| imported_folders := length fs; imported_items := importedItems |}, r).
End import.

(** ROLLBACK puts the tables back; the sequences keep their values. *)
Definition rollback (before after : Store) : Store :=
  {| folders := folders before; items := items before;
     item_versions := item_versions before;
     folders_id_seq := folders_id_seq after;
     items_id_seq := items_id_seq after;
     item_versions_id_seq := item_versions_id_seq after |}.

(** BEGIN; try { ...; COMMIT } catch (error) { ROLLBACK; throw error } *)
Definition transaction {A} (q : Query A) : Query A :=
  λ s, match q s with
       | (Done a, s') => (Done a, s')
       | (Thrown e, s') => (Thrown e, rollback s s')
       end.

(** [req.body] of the import route *)
Record ImportBody := {
  ib_backupData : option BackupData;
  ib_clearExisting : bool
}.

(** router.post('/import') *)
Definition importData `{Node} `{Scan} (user : User) (body : ImportBody)
    (now : Z)
  : Store → Response Imported * Store :=
  match ib_backupData body with
  | None => λ s, (Err 400 "Invalid backup data", s)
  | Some bundle =>
      if negb (truthy_str (data bundle)) then
        λ s, (Err 400 "Invalid backup data", s)
      else
        match decryptBackup (u_encryptionKey user) (base64_decode (data bundle)) with
        | None => λ s, (Err 500 "Failed to import data", s)
        | Some decrypted =>
            match JSON_parse (utf8_decode decrypted) with
            | None => λ s, (Err 500 "Failed to import data", s)
            | Some backup =>
                (* Validate backup structure *)
                match snap_folders backup, snap_items backup with
                | Some fs, Some its =>
                    catch "Failed to import data" (
                      let* r := transaction
                        (replay user (ib_clearExisting body) now fs its) in
                      ret (Ok 200 r.1))
                | _, _ => λ s, (Err 400 "Invalid backup structure", s)
                end
            end
        end
  end.
End Backup.

(** ** The file routes (server/routes/folders.js, second half) *)

Module Files.
Import Db Route Backup.
Local Open Scope query_scope.

(** The upload directory: what is stored under each path. *)
Definition Disk : Type := gmap string (list Byte.byte).

(** [req.file], as multer's disk storage leaves it: when the handler
    runs, the upload is on disk under [path]. *)
Record UploadedFile := {
  originalname : string;
  path : string;
  size : Z;
  mimetype : string
}.

Section routes.
Context `{Node}.

(** Encrypt file if requested: the buffer written back to disk *)
Definition encryptedBuffer (key : string) (iv fileBuffer : list Byte.byte)
  : list Byte.byte :=
  let '(encrypted, authTag) := createCipher_gcm key fileBuffer in
  iv ++ authTag ++ encrypted.

(** Decrypt if necessary: the slices of the stored buffer and the
    decipher call *)
Definition decryptedBuffer (key : string) (fileBuffer : list Byte.byte)
  : option (list Byte.byte) :=
  let iv := take 16 fileBuffer in
  let authTag := take 16 (drop 16 fileBuffer) in
  let encrypted := drop 32 fileBuffer in
  createDecipher_gcm key authTag encrypted.

(** router.post('/upload'); ids in form fields are numbers.  The catch
    block unlinks the upload, and [fs.unlink] of a missing path fails
    silently. *)
Definition uploadFile (user : User) (file : option UploadedFile)
    (folderId : Z) (encrypt : string) (now : Z) (entropy : nat → Byte.byte)
    (disk : Disk) (s : Store)
  : Response (Item * UploadedFile) * Disk * Store :=
  match file with
  | None => (Err 400 "No file uploaded", disk, s)
  | Some file =>
      (* Verify folder ownership *)
      match filter (λ f, f_id f = folderId ∧ f_user_id f = u_id user)
              (folders s) with
      | [] => (Err 404 "Folder not found", disk, s)
      | _ :: _ =>
          let stored : option (Disk * option string) :=
            if bool_decide (encrypt = "true") then
              match disk !! path file with
              | Some fileBuffer =>
                  let iv := randomBytes 16 entropy in
                  Some (<[path file :=
                            encryptedBuffer (u_encryptionKey user) iv fileBuffer]>
                          disk,
                        Some "encrypted")
              | None => None
              end
            else Some (disk, None) in
          match stored with
          | None =>
              (Err 500 "Failed to upload file", delete (path file) disk, s)
          | Some (disk', encryptedContent) =>
              (* Create item record *)
              match insert_file_item (originalname file) encryptedContent
                      (path file) (size file) folderId (u_id user) now s with
              | (Done row, s') => (Ok 201 (row, file), disk', s')
              | (Thrown _, s') =>
                  (Err 500 "Failed to upload file",
                   delete (path file) disk', s')
              end
          end
      end
  end.

(** router.get('/download/:id'): the answer is the name for the
    Content-Disposition header and the bytes sent. *)
Definition downloadFile (user : User) (id : Z) (now : Z) (disk : Disk)
  : Store → Response (string * list Byte.byte) * Store :=
  catch "Failed to download file" (
    (* Get file item *)
    let* result :=
      select_items (λ i, i_id i = id ∧ i_user_id i = u_id user
                         ∧ i_type i = "file") in
    match result with
    | [] => ret (Err 404 "File not found")
    | item :: _ =>
        match (if truthy_opt truthy_str (i_file_path item)
               then i_file_path item ≫= (λ p, disk !! p) else None) with
        | None => ret (Err 404 "File not found on disk")
        | Some fileBuffer =>
            match (if bool_decide (i_encrypted_content item = Some "encrypted")
                   then decryptedBuffer (u_encryptionKey user) fileBuffer
                   else Some fileBuffer) with
            | None => ret (Err 500 "Failed to decrypt file")
            | Some fileBuffer =>
                (* Update access count *)
                let* _ := update_access id now in
                ret (Ok 200 (i_name item, fileBuffer))
            end
        end
    end).
End routes.
End Files.

(** ** Accounts (server/routes/auth.js, server/middleware/auth.js) *)

Module Auth.
Import Db Route.

(** Row of [users]. *)
Record Account := {
  a_id : Z;
  a_email : string;
  a_password_hash : string;
  a_encryption_key : string
}.

(** The [users] table and its sequence, next to the tables of the
    vault. *)
Record Server := {
  users : list Account;
  users_id_seq : Z;
  store : Store
}.

Definition with_store (st : Store) (srv : Server) : Server :=
  {| users := users srv; users_id_seq := users_id_seq srv; store := st |}.

(** The payload of a token: [{ userId, email }]. *)
Record Claims := {
  userId : Z;
  email : string
}.

(** bcryptjs, jsonwebtoken and [String.prototype.toLowerCase], which
    the routes call.  [bcrypt_hash] is [bcrypt.hash(password, 12)] with
    the salt it draws made explicit; [jwt_sign claims now] is
    [jwt.sign(claims, secret, { expiresIn: '7d' })] at the time [now],
    and [jwt_verify token now] is [jwt.verify(token, secret)] at the
    time [now], [None] when it throws. *)
Class Platform := {
  bcrypt_hash : string → list Byte.byte → string;
  bcrypt_compare : string → string → bool;
  jwt_sign : Claims → Z → string;
  jwt_verify : string → Z → option Claims;
  toLowerCase : string → string;
  bcrypt_compare_hash password salt :
    bcrypt_compare password (bcrypt_hash password salt) = true
}.

(** Buffer.toString('hex') *)
Definition hex_digit (n : N) : ascii :=
  default "0"%char
    (String.list_ascii_of_string "0123456789abcdef" !! N.to_nat n).

Fixpoint hex (bytes : list Byte.byte) : string :=
  match bytes with
  | [] => ""
  | b :: rest =>
      String (hex_digit (Byte.to_N b / 16))
        (String (hex_digit (Byte.to_N b mod 16)) (hex rest))
  end.

(** String.prototype.split with a separator of one character *)
Fixpoint split (separator : ascii) (s : string) : list string :=
  match s with
  | EmptyString => [""]
  | String c rest =>
      if bool_decide (c = separator) then "" :: split separator rest
      else
        match split separator rest with
        | piece :: pieces => String c piece :: pieces
        | [] => [String c ""]
        end
  end.

(** INSERT INTO users (email, password_hash, encryption_key)
    VALUES ($1, $2, $3) RETURNING id, email *)
Definition insert_user (email passwordHash encryptionKey : string)
    (srv : Server) : Outcome Account * Server :=
  let id := users_id_seq srv in
  let srv' := {| users := users srv; users_id_seq := id + 1;
                 store := store srv |} in
  if negb (varchar 255 email && varchar 255 passwordHash
           && varchar 255 encryptionKey) then
    (Thrown "value too long for type character varying(255)", srv')
  else if bool_decide (id ∈ a_id <$> users srv) then
    (Thrown "users_pkey", srv')
  else if bool_decide (email ∈ a_email <$> users srv) then
    (Thrown "users_email_key", srv')
  else
    let row := {| a_id := id; a_email := email;
                  a_password_hash := passwordHash;
                  a_encryption_key := encryptionKey |} in
    (Done row, {| users := users srv ++ [row]; users_id_seq := id + 1;
                  store := store srv |}).

(** [req.body] of the register and login routes *)
Record Credentials := {
  c_email : option string;
  c_password : option string
}.

(** What the two routes answer: [{ user: { id, email }, token,
    encryptionKey }] *)
Record Session := {
  session_id : Z;
  session_email : string;
  session_token : string;
  session_encryptionKey : string
}.

Section routes.
Context `{Platform}.

(** router.post('/register') *)
Definition register (body : Credentials) (now : Z)
    (entropy : nat → Byte.byte) (salt : list Byte.byte) (srv : Server)
  : Response Session * Server :=
  match c_email body, c_password body with
  | Some email, Some password =>
      if negb (truthy_str email && truthy_str password) then
        (Err 400 "Email and password are required", srv)
      else if bool_decide (String.length password < 8) then
        (Err 400 "Password must be at least 8 characters long", srv)
      else
        (* Check if user already exists *)
        match filter (λ a, a_email a = toLowerCase email) (users srv) with
        | _ :: _ => (Err 409 "User already exists", srv)
        | [] =>
            (* Hash password and generate encryption key *)
            let passwordHash := bcrypt_hash password salt in
            let encryptionKey := hex (Backup.randomBytes 32 entropy) in
            (* Create user *)
            match insert_user (toLowerCase email) passwordHash encryptionKey
                    srv with
            | (Thrown _, srv') => (Err 500 "Failed to create user", srv')
            | (Done user, srv') =>
                (* Create root folder for user *)
                match insert_folder "Root" None (a_id user) now (store srv') with
                | (Thrown _, st) =>
                    (Err 500 "Failed to create user", with_store st srv')
                | (Done _, st) =>
                    (Ok 201
                       {| session_id := a_id user;
                          session_email := a_email user;
                          session_token :=
                            jwt_sign {| userId := a_id user;
                                        email := a_email user |} now;
                          session_encryptionKey := encryptionKey |},
                     with_store st srv')
                end
            end
        end
  | _, _ => (Err 400 "Email and password are required", srv)
  end.

(** router.post('/login') *)
Definition login (body : Credentials) (now : Z) (srv : Server)
  : Response Session :=
  match c_email body, c_password body with
  | Some email, Some password =>
      if negb (truthy_str email && truthy_str password) then
        Err 400 "Email and password are required"
      else
        match filter (λ a, a_email a = toLowerCase email) (users srv) with
        | [] => Err 401 "Invalid credentials"
        | user :: _ =>
            (* Verify password *)
            if negb (bcrypt_compare password (a_password_hash user)) then
              Err 401 "Invalid credentials"
            else
              Ok 200
                {| session_id := a_id user;
                   session_email := a_email user;
                   session_token :=
                     jwt_sign {| userId := a_id user;
                                 email := a_email user |} now;
                   session_encryptionKey := a_encryption_key user |}
        end
  | _, _ => Err 400 "Email and password are required"
  end.

(** authenticateToken: the answer that ends the request, or the
    [req.user] with which the request goes on to its route. *)
Definition authenticateToken (authorization : option string) (now : Z)
    (srv : Server) : Response unit + User :=
  let token :=
    match authorization with
    | Some authHeader =>
        if truthy_str authHeader then split " " authHeader !! 1 else None
    | None => None
    end in
  match token with
  | None => inl (Err 401 "Access token required")
  | Some token =>
      if negb (truthy_str token) then inl (Err 401 "Access token required")
      else
        match jwt_verify token now with
        | None => inl (Err 403 "Invalid or expired token")
        | Some decoded =>
            (* Verify user still exists *)
            match filter (λ a, a_id a = userId decoded) (users srv) with
            | [] => inl (Err 401 "Invalid token - user not found")
            | row :: _ =>
                inr {| u_id := userId decoded; u_email := a_email row;
                       u_encryptionKey := a_encryption_key row |}
            end
        end
  end.

(** The header the client sends (src/utils/api.ts, [request]) *)
Definition authorization_header (token : string) : string :=
  "Bearer " +:+ token.
End routes.
End Auth.

(** ** The folder tree of the client (FolderTree, unnamed/part_002) *)

Module Client.
Import Db.

(** An entry of [folderMap]: the folder with its [children] array.  The
    arrays hold references to entries of the map; an entry is reached
    through the id it is stored under, so a reference is that id. *)
Record TreeNode := {
  node_folder : Folder;
  children : list Z
}.

(** Create folder map *)
Definition folderMap (folders : list Folder) : gmap Z TreeNode :=
  foldl (λ m folder,
           <[f_id folder := {| node_folder := folder; children := [] |}]> m)
        ∅ folders.

(** Build hierarchy: one step of the second loop, on the map and on
    [rootFolders] *)
Definition link (acc : gmap Z TreeNode * list Z) (folder : Folder)
  : gmap Z TreeNode * list Z :=
  match f_parent_id folder with
  | None => (acc.1, acc.2 ++ [f_id folder])
  | Some p =>
      match acc.1 !! p with
      | Some parent =>
          (<[p := {| node_folder := node_folder parent;
                     children := children parent ++ [f_id folder] |}]> acc.1,
           acc.2)
      | None => acc
      end
  end.

(** buildFolderTree: the map after both loops and [rootFolders] *)
Definition buildFolderTree (folders : list Folder)
  : gmap Z TreeNode * list Z :=
  foldl link (folderMap folders, []) folders.
End Client.

(** ** EncryptionService (unnamed/part_001) *)

Module Encryption.
Import Db.

(** A JavaScript string is a sequence of UTF-16 code units.  The cipher
    reads a string through its UTF-8 encoding, which not every such
    sequence has, so the texts of the service are kept unit by unit. *)
Definition Utf16 : Type := list N.

(** The units of a text of ASCII characters *)
Definition code_units (s : string) : Utf16 :=
  N_of_ascii <$> String.list_ascii_of_string s.

Definition high_surrogate (u : N) : bool :=
  ((0xD800 <=? u) && (u <=? 0xDBFF))%N.
Definition low_surrogate (u : N) : bool :=
  ((0xDC00 <=? u) && (u <=? 0xDFFF))%N.

(** String.prototype.isWellFormed: every high surrogate is followed by
    a low one and no low surrogate stands alone.  On the other strings
    [encodeURIComponent] throws a URIError, and with it
    [CryptoJS.enc.Utf8.parse], through which crypto-js reads the text
    and the passphrase. *)
Fixpoint isWellFormed (text : Utf16) : bool :=
  match text with
  | [] => true
  | u :: rest =>
      if high_surrogate u then
        match rest with
        | v :: rest' => low_surrogate v && isWellFormed rest'
        | [] => false
        end
      else negb (low_surrogate u) && isWellFormed rest
  end.

(** crypto-js, which [EncryptionService] wraps.  [AES_encrypt] is
    [CryptoJS.AES.encrypt(text, key).toString()], with the salt the
    library draws made explicit; [AES_decrypt] is
    [CryptoJS.AES.decrypt(encryptedText, key).toString(CryptoJS.enc.Utf8)];
    each is [None] when the call throws.  Encryption throws on a text
    or a passphrase that has no UTF-8 encoding, and on no other. *)
Class CryptoJS := {
  AES_encrypt : Utf16 → Utf16 → list Byte.byte → option Utf16;
  AES_decrypt : Utf16 → Utf16 → option Utf16;
  AES_encrypt_malformed text key salt :
    isWellFormed text && isWellFormed key = false →
    AES_encrypt text key salt = None;
  AES_decrypt_encrypt text key salt :
    isWellFormed text = true → isWellFormed key = true →
    ∃ encrypted,
      AES_encrypt text key salt = Some encrypted ∧
      AES_decrypt encrypted key = Some text
}.

Section service.
Context `{CryptoJS}.

(** EncryptionService.encrypt *)
Definition encrypt (encryptionKey : Utf16) (salt : list Byte.byte)
    (text : Utf16) : Outcome Utf16 :=
  match AES_encrypt text encryptionKey salt with
  | Some encrypted => Done encrypted
  | None => Thrown "Failed to encrypt data"
  end.

(** EncryptionService.decrypt *)
Definition decrypt (encryptionKey : Utf16) (encryptedText : Utf16)
  : Outcome Utf16 :=
  match AES_decrypt encryptedText encryptionKey with
  | Some plaintext =>
      if bool_decide (plaintext = []) then
        (* 'Decryption failed - invalid key or corrupted data', caught
           and thrown again by the catch block *)
        Thrown "Failed to decrypt data"
      else Done plaintext
  | None => Thrown "Failed to decrypt data"
  end.
End service.
End Encryption.

(** ** The requests that write to the store *)

Module Api.
Import Db.

(** The routes of the server that can change the store, each with the
    caller that the authentication middleware attached to the request
    and with what the route reads from outside the store. *)
Inductive Request : Type :=
| CreateFolder (user : User) (body : Folders.FolderData) (now : Z)
| UpdateFolder (user : User) (id : Z) (body : Folders.FolderData) (now : Z)
| CreateItem (user : User) (body : Items.CreateItemData) (now : Z)
| GetItem (user : User) (id : Z) (now : Z)
| UpdateItem (user : User) (id : Z) (body : Items.UpdateItemData) (now : Z)
| TogglePin (user : User) (id : Z)
| Delete (request : Requests.DeleteRequest)
| UploadFile (user : User) (file : option Files.UploadedFile) (folderId : Z)
    (encrypt : string) (now : Z) (entropy : nat → Byte.byte)
    (disk : Files.Disk)
| DownloadFile (user : User) (id : Z) (now : Z) (disk : Files.Disk)
| ImportData (user : User) (body : Backup.ImportBody) (now : Z).

(** [req.user] of a request *)
Definition caller (r : Request) : User :=
  match r with
  | CreateFolder user _ _ | UpdateFolder user _ _ _ | CreateItem user _ _
  | GetItem user _ _ | UpdateItem user _ _ _ | TogglePin user _
  | UploadFile user _ _ _ _ _ _ | DownloadFile user _ _ _
  | ImportData user _ _ => user
  | Delete (Requests.DeleteFolder user _)
  | Delete (Requests.DeleteItem user _)
  | Delete (Requests.DeleteFile user _) => user
  end.

(** The store a request leaves behind. *)
Definition handle `{Backup.Node} `{Route.Scan} (r : Request) (s : Store)
  : Store :=
  match r with
  | CreateFolder user body now => (Folders.createFolder user body now s).2
  | UpdateFolder user id body now => (Folders.updateFolder user id body now s).2
  | CreateItem user body now => (Items.createItem user body now s).2
  | GetItem user id now => (Items.getItem user id now s).2
  | UpdateItem user id body now => (Items.updateItem user id body now s).2
  | TogglePin user id => (Items.togglePin user id s).2
  | Delete request => (Requests.serve request s).2
  | UploadFile user file folderId encrypt now entropy disk =>
      (Files.uploadFile user file folderId encrypt now entropy disk s).2
  | DownloadFile user id now disk => (Files.downloadFile user id now disk s).2
  | ImportData user body now => (Backup.importData user body now s).2
  end.
End Api.


(** ** Vocabulary of the properties *)

Module Observations.
Import Db Items.

(** The content the update route reads off the row it checks:
    [itemCheck.rows[0].encrypted_content]. *)
Definition current_content (user : User) (id : Z) (s : Store)
  : option string :=
  head (filter (λ i, i_id i = id ∧ i_user_id i = u_id user) (items s))
    ≫= i_encrypted_content.

(** The store after a run of update requests on one item. *)
Definition apply_updates (user : User) (id : Z)
    (ups : list (UpdateItemData * Z)) (s : Store) : Store :=
  foldl (λ s up, (updateItem user id up.1 up.2 s).2) s ups.

(** Every request of the run is answered 200 and carries a content that
    is a non-empty string and differs from the one stored when the
    request arrives. *)
Fixpoint changing_updates (user : User) (id : Z)
    (ups : list (UpdateItemData * Z)) (s : Store) : Prop :=
  match ups with
  | [] => True
  | up :: rest =>
      (∃ c, ud_encryptedContent up.1 = Some c ∧ c ≠ ""
            ∧ current_content user id s ≠ Some c) ∧
      (∃ row, (updateItem user id up.1 up.2 s).1 = Ok 200 row) ∧
      changing_updates user id rest (updateItem user id up.1 up.2 s).2
  end.

(** The columns that no update request names. *)
Definition same_fixed_columns (r r' : Item) : Prop :=
  i_id r' = i_id r ∧ i_type r' = i_type r ∧
  i_file_path r' = i_file_path r ∧ i_file_size r' = i_file_size r ∧
  i_user_id r' = i_user_id r ∧ i_access_count r' = i_access_count r ∧
  i_last_accessed r' = i_last_accessed r ∧
  i_is_pinned r' = i_is_pinned r ∧ i_created_at r' = i_created_at r.

(** The five columns an update request can name, each kept when the
    request does not supply it. *)
Definition unsupplied_columns_kept (body : UpdateItemData) (r r' : Item)
  : Prop :=
  (ud_name body = None → i_name r' = i_name r) ∧
  (ud_encryptedContent body = None →
     i_encrypted_content r' = i_encrypted_content r) ∧
  (ud_folderId body = None → i_folder_id r' = i_folder_id r) ∧
  (ud_language body = None → i_language r' = i_language r) ∧
  (ud_tags body = None → i_tags r' = i_tags r).

(** The five columns after an update that was carried out. *)
Definition supplied_columns_set (body : UpdateItemData) (r r' : Item)
  : Prop :=
  (∀ v, ud_name body = Some v → i_name r' = v) ∧
  (∀ v, ud_encryptedContent body = Some v →
     i_encrypted_content r' = Some v) ∧
  (∀ v, ud_folderId body = Some v → i_folder_id r' = v) ∧
  (∀ v, ud_language body = Some v → i_language r' = Some v) ∧
  (∀ v, ud_tags body = Some v → i_tags r' = Some v).

(** What the UPDATE statement of the route is applied to. *)
Definition put_target (user : User) (id : Z) (r : Item) : bool :=
  bool_decide (i_id r = id ∧ i_user_id r = u_id user).

Definition put_change (user : User) (id : Z) (body : UpdateItemData)
    (now : Z) (r : Item) : Item :=
  if put_target user id r then
    updated_item (ud_name body) (ud_encryptedContent body) (ud_folderId body)
      (ud_language body) (ud_tags body) now r
  else r.

(** The version numbers of one item, in the order of insertion. *)
Definition numbers_of (id : Z) (s : Store) : list Z :=
  v_version_number <$> filter (λ v, v_item_id v = id) (item_versions s).

(** The invariant of the log of one item: its version numbers are
    1, 2, ..., k in the order of insertion, and its row is there. *)
Definition log_upto (user : User) (id : Z) (k : nat) (s : Store) : Prop :=
  numbers_of id s = seqZ 1 (Z.of_nat k) ∧
  ∃ row, row ∈ items s ∧ i_id row = id ∧ i_user_id row = u_id user.

(** The snapshot the export route serializes for a caller. *)
Definition exported_snapshot (user : User) (now : Z) (s : Store)
  : Backup.Snapshot :=
  Backup.backupData user now
    (merge_sort Backup.folder_by_id
       (filter (λ f, f_user_id f = u_id user) (folders s)))
    (merge_sort Backup.item_by_id
       (filter (λ i, i_user_id i = u_id user) (items s))).

(** The parent row of a folder, and its ancestor [n] links up. *)
Definition up (fs : list Folder) (f : Folder) : option Folder :=
  f_parent_id f ≫= λ p, head (filter (λ g, f_id g = p) fs).

Fixpoint climb (fs : list Folder) (n : nat) (f : Folder) : option Folder :=
  match n with
  | O => Some f
  | S n => up fs f ≫= climb fs n
  end.

(** The statement hits the ancestor [n] links up. *)
Definition reach (fs : list Folder) (hit : Folder → bool) (n : nat)
    (f : Folder) : bool :=
  from_option hit false (climb fs n f).

(** The three tables agree (the sequences may differ). *)
Definition same_tables (s s' : Store) : Prop :=
  folders s' = folders s ∧ items s' = items s ∧
  item_versions s' = item_versions s.

(** The caller has a folder named Root without parent. *)
Definition existing_root (user : User) (s : Store) (g : Folder) : Prop :=
  g ∈ folders s ∧ f_name g = "Root" ∧ f_parent_id g = None ∧
  f_user_id g = u_id user.

(** One step of the folder loop took [folder] for the root: it was
    mapped onto the id of an existing root of the caller and the store
    was left as it was. *)
Definition mapped_onto_root (user : User) (folder : Folder)
    (acc : Backup.Replay) (s : Store)
    (out : Outcome Backup.Replay * Store) : Prop :=
  ∃ g, existing_root user s g ∧
       out = (Done {| Backup.folderMapping :=
                        <[f_id folder := f_id g]> (Backup.folderMapping acc);
                      Backup.events := Backup.events acc ++
                        [Backup.MappedOntoRoot (f_id folder) (f_id g)] |}, s).

(** A scan that answers the rows with the id [id] before the others. *)
Definition scan_first (id : Z) : Route.Scan.
Proof.
  refine
    {| Route.scan := λ _ rows,
         filter (λ f, f_id f = id) rows ++ filter (λ f, ¬ f_id f = id) rows |}.
  intros _ rows. apply filter_app_complement.
Defined.

(** What the folder loop did, counted over its record. *)
Definition is_inserted (e : Backup.FolderEvent) : bool :=
  match e with Backup.Inserted _ _ _ => true | _ => false end.
Definition is_mapped (e : Backup.FolderEvent) : bool :=
  match e with Backup.MappedOntoRoot _ _ => true | _ => false end.
Definition is_left_out (e : Backup.FolderEvent) : bool :=
  match e with Backup.NothingInserted _ => true | _ => false end.

Definition rows_inserted (evs : list Backup.FolderEvent) : nat :=
  length (filter (λ e, is_inserted e) evs).
Definition folders_mapped (evs : list Backup.FolderEvent) : nat :=
  length (filter (λ e, is_mapped e) evs).
Definition folders_left_out (evs : list Backup.FolderEvent) : nat :=
  length (filter (λ e, is_left_out e) evs).

(** The store the replay starts from, after the optional clearing. *)
Definition cleared (user : User) (clearExisting : bool) (s : Store) : Store :=
  if clearExisting then (Backup.clearExistingData user s).2 else s.
(** The caller has a folder with this id. *)
Definition owns_folder (user : User) (s : Store) (p : Z) : Prop :=
  ∃ g, g ∈ folders s ∧ f_id g = p ∧ f_user_id g = u_id user.

(** [d] is a folder of the caller with this name under the parent [p]. *)
Definition sibling_named (user : User) (s : Store) (name : string) (p : Z)
    (d : Folder) : Prop :=
  d ∈ folders s ∧ f_name d = name ∧ f_parent_id d = Some p ∧
  f_user_id d = u_id user.

(** The row the create route inserts, and the store with it. *)
Definition created_folder (user : User) (name : string) (parent : option Z)
    (now : Z) (s : Store) : Folder :=
  {| f_id := folders_id_seq s; f_name := name; f_parent_id := parent;
     f_user_id := u_id user; f_created_at := now; f_updated_at := now |}.

Definition with_created_folder (row : Folder) (s : Store) : Store :=
  {| folders := folders s ++ [row]; items := items s;
     item_versions := item_versions s;
     folders_id_seq := folders_id_seq s + 1; items_id_seq := items_id_seq s;
     item_versions_id_seq := item_versions_id_seq s |}.

(** What the UPDATE statement of the folder route is applied to. *)
Definition folder_target (user : User) (id : Z) (r : Folder) : bool :=
  bool_decide (f_id r = id ∧ f_user_id r = u_id user).

Definition folder_change (user : User) (id : Z) (name : string)
    (parent : option Z) (now : Z) (r : Folder) : Folder :=
  if folder_target user id r then updated_folder name parent now r else r.

(** The store after a run of reads of one item, one per time stamp. *)
Definition read_item (user : User) (id : Z) (nows : list Z) (s : Store)
  : Store :=
  foldl (λ s now, (getItem user id now s).2) s nows.

(** *** The constraints of the schema, as properties of a store *)

(** PRIMARY KEY of the three tables *)
Definition primary_keys (s : Store) : Prop :=
  NoDup (f_id <$> folders s) ∧ NoDup (i_id <$> items s) ∧
  NoDup (v_id <$> item_versions s).

(** REFERENCES folders(id) of [folders.parent_id] and [items.folder_id],
    REFERENCES items(id) of [item_versions.item_id] *)
Definition foreign_keys (s : Store) : Prop :=
  (∀ f p, f ∈ folders s → f_parent_id f = Some p → p ∈ f_id <$> folders s) ∧
  (∀ i, i ∈ items s → i_folder_id i ∈ f_id <$> folders s) ∧
  (∀ v, v ∈ item_versions s → v_item_id v ∈ i_id <$> items s).

(** SERIAL: ids were drawn from sequences that start at 1. *)
Definition serial_ids (s : Store) : Prop :=
  (∀ f, f ∈ folders s → (1 ≤ f_id f < folders_id_seq s)%Z) ∧
  (∀ i, i ∈ items s → (1 ≤ i_id i < items_id_seq s)%Z) ∧
  (∀ v, v ∈ item_versions s → (1 ≤ v_id v < item_versions_id_seq s)%Z) ∧
  (1 ≤ folders_id_seq s)%Z ∧ (1 ≤ items_id_seq s)%Z ∧
  (1 ≤ item_versions_id_seq s)%Z.

Definition consistent (s : Store) : Prop :=
  primary_keys s ∧ foreign_keys s ∧ serial_ids s.

(** Links stay inside an account: a folder and its parent, an item and
    its folder belong to the same user. *)
Definition owned_links (s : Store) : Prop :=
  (∀ f g, f ∈ folders s → g ∈ folders s →
          f_parent_id f = Some (f_id g) → f_user_id g = f_user_id f) ∧
  (∀ i g, i ∈ items s → g ∈ folders s →
          i_folder_id i = f_id g → f_user_id g = i_user_id i).

(** The rows of one account: its folders, its items and the versions of
    its items. *)
Definition folders_of (user : Z) (s : Store) : list Folder :=
  filter (λ f, f_user_id f = user) (folders s).
Definition items_of (user : Z) (s : Store) : list Item :=
  filter (λ i, i_user_id i = user) (items s).
Definition versions_of (user : Z) (s : Store) : list ItemVersion :=
  filter (λ v, v_item_id v ∈ i_id <$> items_of user s) (item_versions s).

(** None of the three sequences went back. *)
Definition sequences_le (s s' : Store) : Prop :=
  (folders_id_seq s ≤ folders_id_seq s')%Z ∧
  (items_id_seq s ≤ items_id_seq s')%Z ∧
  (item_versions_id_seq s ≤ item_versions_id_seq s')%Z.

(** What one statement of a route run for [user] does to the store.
    The UPDATE of the folder route is not among them: it is the one
    statement that takes a link from the request unchecked. *)
Inductive statement (user : Z) (s s' : Store) : Prop :=
| statement_reads :
    same_tables s s' → sequences_le s s' → statement user s s'
| statement_inserts_folder row :
    folders s' = folders s ++ [row] → items s' = items s →
    item_versions s' = item_versions s → sequences_le s s' →
    (folders_id_seq s ≤ f_id row < folders_id_seq s')%Z →
    f_id row ∉ f_id <$> folders s → f_user_id row = user →
    (∀ p, f_parent_id row = Some p →
          ∃ g, g ∈ folders s ∧ f_id g = p ∧ f_user_id g = user) →
    statement user s s'
| statement_inserts_item row :
    folders s' = folders s → items s' = items s ++ [row] →
    item_versions s' = item_versions s → sequences_le s s' →
    (items_id_seq s ≤ i_id row < items_id_seq s')%Z →
    i_id row ∉ i_id <$> items s → i_user_id row = user →
    (∃ g, g ∈ folders s ∧ f_id g = i_folder_id row ∧ f_user_id g = user) →
    statement user s s'
| statement_inserts_version row :
    folders s' = folders s → items s' = items s →
    item_versions s' = item_versions s ++ [row] → sequences_le s s' →
    (item_versions_id_seq s ≤ v_id row < item_versions_id_seq s')%Z →
    v_id row ∉ v_id <$> item_versions s →
    (∃ i, i ∈ items s ∧ i_id i = v_item_id row ∧ i_user_id i = user) →
    statement user s s'
| statement_updates_items change :
    folders s' = folders s → items s' = change <$> items s →
    item_versions s' = item_versions s → sequences_le s s' →
    (∀ r, r ∈ items s →
          i_id (change r) = i_id r ∧ i_user_id (change r) = i_user_id r ∧
          (change r = r ∨
           i_user_id r = user ∧
           (i_folder_id (change r) = i_folder_id r ∨
            ∃ g, g ∈ folders s ∧ f_id g = i_folder_id (change r)
                 ∧ f_user_id g = user))) →
    statement user s s'
| statement_deletes_items hit :
    s' = delete_items hit s →
    (∀ i, i ∈ items s → hit i = true → i_user_id i = user) →
    statement user s s'
| statement_deletes_folders hit :
    s' = delete_folders hit s →
    (∀ f, f ∈ folders s → hit f = true → f_user_id f = user) →
    statement user s s'.
(** An item row as the import route writes it: owned by the caller, not
    a file, and with the columns that the INSERT leaves to their
    defaults. *)
Definition as_imported (user : User) (it : Item) : Prop :=
  i_user_id it = u_id user ∧ i_type it ≠ "file" ∧ i_file_path it = None ∧
  i_file_size it = 0%Z ∧ i_access_count it = 0%Z ∧
  i_last_accessed it = None ∧ i_is_pinned it = false.

(** What the folder loop and the item loop of an import leave behind,
    from the store [s0] they start on: rows are only added, and the
    added rows are the caller's, with ids drawn after [s0]. *)
Definition added (user : User) (s0 s : Store) : Prop :=
  sequences_le s0 s ∧ item_versions s = item_versions s0 ∧
  (∃ new_folders,
      folders s = folders s0 ++ new_folders ∧
      Forall (λ f, f_user_id f = u_id user
                   ∧ (folders_id_seq s0 ≤ f_id f)%Z) new_folders) ∧
  (∃ new_items,
      items s = items s0 ++ new_items ∧
      Forall (λ it, as_imported user it
                    ∧ (items_id_seq s0 ≤ i_id it)%Z) new_items).

(** A query ran statements of the caller only and, when it answered,
    left the invariant of its loop. *)
Definition ran {B} (user : Z) (I : B → Store → Prop) (s : Store)
    (out : Outcome B * Store) : Prop :=
  rtc (statement user) s out.2 ∧ ∀ b, out.1 = Done b → I b out.2.

(** Every entry of the folder mapping of an import leads to a folder of
    the caller. *)
Definition mapping_owned (user : User) (m : gmap Z Z) (s : Store) : Prop :=
  ∀ k v, m !! k = Some v →
         ∃ g, g ∈ folders s ∧ f_id g = v ∧ f_user_id g = u_id user.

(** The one link a request can carry that its route does not check: the
    parent named by an update of a folder.  The condition asks that it
    be a folder of the caller. *)
Definition links_checked (r : Api.Request) (s : Store) : Prop :=
  match r with
  | Api.UpdateFolder user _ body _ =>
      ∀ p, Folders.or_null (Folders.fd_parentId body) = Some p →
           p ∈ f_id <$> folders s → owns_folder user s p
  | _ => True
  end.
End Observations.

(** ** Sample data

    A caller, a store and a stand-in for the platform on which the routes
    can be run.  The stand-in cipher is the identity with a tag computed
    from the key alone, base64 is the identity on bytes, and the parser
    answers a snapshot fixed in advance; they satisfy the laws asked of
    [Node] and of [CryptoJS] and are used for examples only. *)

Module Demo.
Import Db Backup Encryption.

Definition alice : User :=
  {| u_id := 1; u_email := "alice@example.org"; u_encryptionKey := "3f9a" |}.

Definition folder (id : Z) (name : string) (parent : option Z) : Folder :=
  {| f_id := id; f_name := name; f_parent_id := parent; f_user_id := 1;
     f_created_at := 0; f_updated_at := 0 |}.

Definition item (id : Z) (name type : string) (content : option string)
    (folder : Z) : Item :=
  {| i_id := id; i_name := name; i_type := type;
     i_encrypted_content := content; i_file_path := None; i_file_size := 0;
     i_language := None; i_tags := Some []; i_folder_id := folder;
     i_user_id := 1; i_access_count := 0; i_last_accessed := None;
     i_is_pinned := false; i_created_at := 0; i_updated_at := 0 |}.

(** An account with folders Root and Work (under Root) and no item. *)
Definition store : Store :=
  {| folders := [folder 1 "Root" None; folder 2 "Work" (Some 1%Z)];
     items := []; item_versions := [];
     folders_id_seq := 3; items_id_seq := 1; item_versions_id_seq := 1 |}.

Definition tag_of (key : string) : list Byte.byte :=
  take 16 (String.list_byte_of_string key ++ replicate 16 Byte.x00).

Definition node (parse : string → option Snapshot) : Node.
Proof.
  refine
    {| createCipher_gcm := λ key text, (text, tag_of key);
       createDecipher_gcm := λ key tag text,
         if bool_decide (Byte.to_N <$> tag = Byte.to_N <$> tag_of key)
         then Some text else None;
       base64_encode := String.string_of_list_byte;
       base64_decode := String.list_byte_of_string;
       utf8_encode := String.list_byte_of_string;
       utf8_decode := String.string_of_list_byte;
       JSON_stringify := λ _, "{}";
       JSON_parse := parse |}.
  - intros key text. change (length (tag_of key) = 16). unfold tag_of.
    rewrite length_take, length_app, length_replicate. lia.
  - intros key text. simpl. by rewrite bool_decide_eq_true_2.
  - apply String.list_byte_of_string_of_list_byte.
Defined.

(** Request bodies: a text item filed under Root, and updates that
    supply a content and nothing else. *)
Definition note : Items.CreateItemData :=
  {| Items.cd_name := Some "note"; Items.cd_type := Some "text";
     Items.cd_encryptedContent := Some "U2FsdGVkX18x";
     Items.cd_folderId := Some 1%Z; Items.cd_language := None;
     Items.cd_tags := None |}.

Definition content (c : string) : Items.UpdateItemData :=
  {| Items.ud_name := None; Items.ud_encryptedContent := Some c;
     Items.ud_folderId := None; Items.ud_language := None;
     Items.ud_tags := None |}.

Definition created_note : Item :=
  {| i_id := 1; i_name := "note"; i_type := "text";
     i_encrypted_content := Some "U2FsdGVkX18x"; i_file_path := None;
     i_file_size := 0; i_language := None; i_tags := Some [];
     i_folder_id := 1; i_user_id := 1; i_access_count := 0;
     i_last_accessed := None; i_is_pinned := false;
     i_created_at := 10; i_updated_at := 10 |}.

(** The store after [note] was posted at time 10. *)
Definition store_with_note : Store := (Items.createItem alice note 10 store).2.

(** A snapshot whose second item has a type the schema refuses. *)
Definition broken_snapshot : Snapshot :=
  {| snap_version := "1.0.0"; snap_timestamp := 0;
     snap_user_email := "alice@example.org";
     snap_folders := Some [folder 1 "Root" None; folder 2 "Work" (Some 1%Z)];
     snap_items := Some [item 1 "A" "text" (Some "U2FsdGVkX18x") 1;
                         item 2 "B" "password" (Some "U2FsdGVkX19y") 2] |}.

(** The envelope the export route of the stand-in platform gives for
    the sample account. *)
Definition envelope (n : Node) : BackupData :=
  {| version := "1.0.0"; encrypted := true;
     data := base64_encode
       (encryptedBackup (u_encryptionKey alice)
          (randomBytes 16 (λ _, Byte.x2a))
          (JSON_stringify (Observations.exported_snapshot alice 0 store))) |}.

(** The scan that answers the rows in the order of insertion. *)
Definition insertion_order : Route.Scan.
Proof. by refine {| Route.scan := λ _ rows, rows |}. Defined.

Definition cryptoJS : CryptoJS.
Proof.
  refine
    {| AES_encrypt := λ text key salt,
         if isWellFormed text && isWellFormed key then Some text else None;
       AES_decrypt := λ encryptedText key, Some encryptedText |}.
  - by intros text key salt ->.
  - intros text key salt -> ->. by exists text.
Defined.

Definition folder_of (user id : Z) (name : string) (parent : option Z)
  : Folder :=
  {| f_id := id; f_name := name; f_parent_id := parent; f_user_id := user;
     f_created_at := 0; f_updated_at := 0 |}.

Definition item_of (user id : Z) (name : string) (folder : Z) : Item :=
  {| i_id := id; i_name := name; i_type := "text";
     i_encrypted_content := Some "U2FsdGVkX18x"; i_file_path := None;
     i_file_size := 0; i_language := None; i_tags := Some [];
     i_folder_id := folder; i_user_id := user; i_access_count := 0;
     i_last_accessed := None; i_is_pinned := false; i_created_at := 0;
     i_updated_at := 0 |}.

Definition version_of (id item : Z) : ItemVersion :=
  {| v_id := id; v_item_id := item;
     v_encrypted_content := Some "U2FsdGVkX18x"; v_version_number := 1;
     v_created_at := 0 |}.

Definition two_accounts : Store :=
  {| folders := [folder_of 1 1 "Root" None; folder_of 1 2 "Work" (Some 1%Z);
                 folder_of 2 3 "Root" None; folder_of 2 4 "Docs" (Some 3%Z)];
     items := [item_of 1 1 "note" 2; item_of 2 2 "plan" 4];
     item_versions := [version_of 1 1; version_of 2 2];
     folders_id_seq := 5; items_id_seq := 3; item_versions_id_seq := 3 |}.

(** An upload as multer leaves it, and the disk that holds it. *)
Definition upload : Files.UploadedFile :=
  {| Files.originalname := "hello.txt";
     Files.path := "uploads/5d41402abc4b2a76b9719d911017c592.txt";
     Files.size := 5; Files.mimetype := "text/plain" |}.

Definition hello : list Byte.byte :=
  String.list_byte_of_string "hello".

Definition disk : Files.Disk :=
  {["uploads/5d41402abc4b2a76b9719d911017c592.txt" := hello]}.

(** A snapshot that the schema accepts: Root, Work under it and an item
    in each. *)
Definition snapshot : Snapshot :=
  {| snap_version := "1.0.0"; snap_timestamp := 0;
     snap_user_email := "alice@example.org";
     snap_folders := Some [folder 1 "Root" None; folder 2 "Work" (Some 1%Z)];
     snap_items := Some [item 1 "A" "text" (Some "U2FsdGVkX18x") 1;
                         item 2 "B" "secret" (Some "U2FsdGVkX19y") 2] |}.

Definition import_of (clearExisting : bool) : ImportBody :=
  {| ib_backupData := Some (envelope (node (λ _, Some snapshot)));
     ib_clearExisting := clearExisting |}.

(** A stand-in for the platform of the account routes: the hash is the
    password itself, every token reads the same, and any token is taken
    for the one of the sample registration.  For examples only. *)
Definition platform : Auth.Platform.
Proof.
  refine
    {| Auth.bcrypt_hash := λ password salt, password;
       Auth.bcrypt_compare := λ password passwordHash,
         bool_decide (passwordHash = password);
       Auth.jwt_sign := λ claims now, "eyJhbGciOiJIUzI1NiJ9.e30.c2ln";
       Auth.jwt_verify := λ token now,
         Some {| Auth.userId := 1; Auth.email := "carol@example.org" |};
       Auth.toLowerCase := λ s, s |}.
  intros password salt. by apply bool_decide_eq_true_2.
Defined.

Definition carol : Auth.Credentials :=
  {| Auth.c_email := Some "carol@example.org";
     Auth.c_password := Some "correct horse" |}.

Definition no_accounts : Auth.Server :=
  {| Auth.users := []; Auth.users_id_seq := 1;
     Auth.store := {| folders := []; items := []; item_versions := [];
                      folders_id_seq := 1; items_id_seq := 1;
                      item_versions_id_seq := 1 |} |}.
End Demo.

(** * Properties *)

Import Db Route.

(** Runs the plumbing of a route down to its statements. *)
Ltac run_route :=
  unfold catch, bind, select_folders, select_items, select_item_versions,
    exec, ret.

(** ** Keys *)

Section keys.
Context {A : Type} (key : A → Z).

Lemma key_unique (l : list A) (x y : A) :
  NoDup (key <$> l) → x ∈ l → y ∈ l → key x = key y → x = y.
Proof.
  induction l as [|a l IH]; intros Hnd Hx Hy Hk.
  - by apply elem_of_nil in Hx.
  - rewrite fmap_cons in Hnd. apply NoDup_cons in Hnd as [Ha Hnd].
    apply elem_of_cons in Hx as [->|Hx]; apply elem_of_cons in Hy as [->|Hy];
      try done.
    + exfalso. apply Ha. rewrite Hk. by apply list_elem_of_fmap_2.
    + exfalso. apply Ha. rewrite <- Hk. by apply list_elem_of_fmap_2.
    + by apply IH.
Qed.

Lemma key_unique_filter (P : A → Prop) `{∀ x, Decision (P x)} (l : list A) :
  NoDup (key <$> l) → NoDup (key <$> filter P l).
Proof.
  intros Hnd. eapply sublist_NoDup; [exact Hnd|].
  apply fmap_sublist, sublist_filter.
Qed.

Lemma filter_none (P : A → Prop) `{∀ x, Decision (P x)} (l : list A) :
  (∀ x, x ∈ l → ¬ P x) → filter P l = [].
Proof.
  intros Hno. destruct (filter P l) as [|x rest] eqn:Hf; [done|].
  assert (Hx : x ∈ filter P l) by (rewrite Hf; left).
  apply list_elem_of_filter in Hx as [HP Hx]. by destruct (Hno x Hx).
Qed.
End keys.

(** ** ON DELETE CASCADE: the bounded walk and the relation *)

Section cascade.
Import Observations.
Context (fs : list Folder) (hit : Folder → bool).
Hypothesis primary_key : NoDup (f_id <$> fs).

Lemma filter_key_in p g :
  g ∈ fs → f_id g = p → filter (λ g, f_id g = p) fs = [g].
Proof.
  intros Hg Hp. revert primary_key Hg.
  induction fs as [|a l IH]; intros Hnd Hg; [by apply elem_of_nil in Hg|].
  rewrite fmap_cons in Hnd. apply NoDup_cons in Hnd as [Ha Hnd].
  rewrite filter_cons. apply elem_of_cons in Hg as [<-|Hg].
  - rewrite decide_True by done. f_equal.
    apply filter_none. intros x Hx Hxp. apply Ha. rewrite Hp, <- Hxp.
    by apply list_elem_of_fmap_2.
  - rewrite decide_False.
    + by apply IH.
    + intros Hap. apply Ha. rewrite Hap, <- Hp. by apply list_elem_of_fmap_2.
Qed.

Lemma up_Some f g : up fs f = Some g ↔ g ∈ fs ∧ f_parent_id f = Some (f_id g).
Proof.
  unfold up. destruct (f_parent_id f) as [p|]; simpl;
    [|split; [done|by intros [_ ?]]].
  split.
  - intros Hh. apply head_Some_elem_of in Hh.
    apply list_elem_of_filter in Hh as [Hp Hg]. by rewrite Hp.
  - intros [Hg [= ->]]. by rewrite (filter_key_in (f_id g) g).
Qed.

Lemma existsb_up (q : Folder → bool) f :
  match f_parent_id f with
  | None => false
  | Some p => existsb (λ g, bool_decide (f_id g = p) && q g) fs
  end = from_option q false (up fs f).
Proof.
  unfold up. destruct (f_parent_id f) as [p|]; simpl; [|done].
  destruct (head (filter (λ g, f_id g = p) fs)) as [g|] eqn:Hh; simpl.
  - assert (Hg : g ∈ fs ∧ f_id g = p).
    { apply head_Some_elem_of in Hh.
      apply list_elem_of_filter in Hh as [? ?]. done. }
    destruct Hg as [Hg Hp].
    apply eq_true_iff_eq. rewrite existsb_exists. split.
    + intros (x & Hx & Hq). apply andb_prop in Hq as [Hxp Hq].
      apply bool_decide_eq_true in Hxp.
      assert (x = g) as <-; [|done].
      apply (key_unique f_id fs); [done|by apply list_elem_of_In|done|congruence].
    + intros Hq. exists g. split; [by apply list_elem_of_In|].
      by rewrite bool_decide_eq_true_2.
  - apply not_true_is_false. rewrite existsb_exists.
    intros (x & Hx & Hq). apply andb_prop in Hq as [Hxp Hq].
    apply bool_decide_eq_true in Hxp. apply list_elem_of_In in Hx.
    rewrite (filter_key_in p x) in Hh by done. done.
Qed.

Lemma cascades_step n f :
  cascades (S n) fs hit f
  = hit f || from_option (cascades n fs hit) false (up fs f).
Proof. simpl. by rewrite existsb_up. Qed.

Lemma cascades_reach n f :
  cascades n fs hit f = true ↔ ∃ i, i ≤ n ∧ reach fs hit i f = true.
Proof.
  revert f. induction n as [|n IH]; intros f.
  - simpl. rewrite orb_false_r. split.
    + intros Hf. by exists 0.
    + intros (i & Hi & Hr). by replace i with 0 in Hr by lia.
  - rewrite cascades_step. split.
    + intros [Hf|Hup]%orb_prop.
      * exists 0. split; [lia|done].
      * destruct (up fs f) as [g|] eqn:Hg; [|done]. simpl in Hup.
        apply IH in Hup as (i & Hi & Hr). exists (S i). split; [lia|].
        unfold reach in *. simpl. by rewrite Hg.
    + intros (i & Hi & Hr). destruct i as [|i].
      { unfold reach in Hr. simpl in Hr. by rewrite Hr. }
      unfold reach in Hr. simpl in Hr.
      destruct (up fs f) as [g|] eqn:Hg; [|done]. simpl in *.
      rewrite (proj2 (IH g)); [by rewrite orb_true_r|].
      exists i. split; [lia|done].
Qed.

Lemma doomed_reach f : doomed fs hit f ↔ ∃ i, reach fs hit i f = true.
Proof.
  split.
  - induction 1 as [f Hf|f g Hg Hp _ [i Hi]]; [by exists 0|].
    exists (S i). unfold reach in *. simpl.
    by rewrite (proj2 (up_Some f g)).
  - intros [i Hi]. revert f Hi. induction i as [|i IH]; intros f Hi.
    + by apply doomed_hit.
    + unfold reach in Hi. simpl in Hi.
      destruct (up fs f) as [g|] eqn:Hg; [|done].
      apply up_Some in Hg as [Hg Hp]. eapply doomed_child; [done..|].
      by apply IH.
Qed.

Lemma climb_add a b f : climb fs (a + b) f = climb fs a f ≫= climb fs b.
Proof.
  revert f. induction a as [|a IH]; intros f; [done|]. simpl.
  destruct (up fs f) as [g|]; [|done]. simpl. apply IH.
Qed.

Lemma climb_in j f x : climb fs (S j) f = Some x → x ∈ fs.
Proof.
  revert f. induction j as [|j IH]; intros f; simpl.
  - destruct (up fs f) as [g|] eqn:Hg; [|done]. simpl. intros [= <-].
    by apply up_Some in Hg as [? _].
  - destruct (up fs f) as [g|] eqn:Hg; [|done]. simpl. apply IH.
Qed.

Lemma least_true (p : nat → bool) n :
  p n = true → ∃ m, m ≤ n ∧ p m = true ∧ ∀ k, k < m → p k = false.
Proof.
  assert (Hsearch : ∀ n,
    (∃ m, m ≤ n ∧ p m = true ∧ ∀ k, k < m → p k = false) ∨
    (∀ k, k ≤ n → p k = false)).
  { clear n. induction n as [|n [(m & Hm & Hp & Hl)|Hnone]].
    - destruct (p 0) eqn:H0.
      + left. exists 0. split; [lia|]. split; [done|]. intros k Hk. lia.
      + right. intros k Hk. by replace k with 0 by lia.
    - left. exists m. split; [lia|]. by split.
    - destruct (p (S n)) eqn:HS.
      + left. exists (S n). split; [lia|]. split; [done|]. intros k Hk.
        apply Hnone. lia.
      + right. intros k Hk. destruct (decide (k = S n)) as [->|]; [done|].
        apply Hnone. lia. }
  intros Hn. destruct (Hsearch n) as [?|Hnone]; [done|].
  rewrite Hnone in Hn; [done|lia].
Qed.

(** The first ancestor that is hit is at most as many links up as there
    are rows. *)
Lemma reach_bounded i f :
  reach fs hit i f = true → ∃ m, m ≤ length fs ∧ reach fs hit m f = true.
Proof.
  intros Hi.
  destruct (least_true (λ k, reach fs hit k f) i Hi) as (m & _ & Hm & Hleast).
  exists m. split; [|done].
  assert (Hdef : ∀ j, j ≤ m → is_Some (climb fs j f)).
  { intros j Hj. replace m with (j + (m - j)) in Hm by lia.
    unfold reach in Hm. rewrite climb_add in Hm.
    destruct (climb fs j f); [by eexists|done]. }
  assert (Hnd : NoDup ((λ j, climb fs j f) <$> seq 1 m)).
  { apply NoDup_fmap_2_strong; [|apply NoDup_seq].
    assert (Hlt : ∀ a b, 1 ≤ a → a < b → b ≤ m →
              climb fs a f = climb fs b f → False).
    { intros a b Ha Hab Hb Heq.
      assert (reach fs hit (a + (m - b)) f = true) as Hr.
      { unfold reach. rewrite climb_add, Heq, <- climb_add.
        by replace (b + (m - b)) with m by lia. }
      rewrite Hleast in Hr; [done|lia]. }
    intros a b [Ha Ha']%elem_of_seq [Hb Hb']%elem_of_seq Heq.
    destruct (Nat.lt_trichotomy a b) as [Hab|[->|Hab]]; [|done|].
    - destruct (Hlt a b); [done|done|lia|done].
    - destruct (Hlt b a); [done|done|lia|done]. }
  assert (Hsub : ∀ x, x ∈ (λ j, climb fs j f) <$> seq 1 m → x ∈ Some <$> fs).
  { intros x (j & -> & [Hj1 Hjm]%elem_of_seq)%list_elem_of_fmap.
    destruct (Hdef j) as [y Hy]; [lia|]. rewrite Hy.
    apply list_elem_of_fmap_2. destruct j as [|j]; [lia|].
    by eapply climb_in. }
  pose proof (submseteq_length _ _ (NoDup_submseteq _ _ Hnd Hsub)) as Hlen.
  by rewrite !length_fmap, length_seq in Hlen.
Qed.

(** The bounded walk decides the relation. *)
Theorem cascades_doomed f :
  cascades (length fs) fs hit f = true ↔ doomed fs hit f.
Proof.
  rewrite cascades_reach, doomed_reach. split.
  - intros (i & _ & Hi). by exists i.
  - intros [i Hi]. by apply reach_bounded in Hi.
Qed.

End cascade.

(** What DELETE FROM folders leaves in the table. *)
Corollary delete_folders_doomed (hit : Folder → bool) (s : Store) (f : Folder) :
  NoDup (f_id <$> folders s) →
  f ∈ folders (delete_folders hit s)
  ↔ f ∈ folders s ∧ ¬ doomed (folders s) hit f.
Proof.
  intros Hpk. unfold delete_folders. simpl.
  rewrite list_elem_of_filter, <- (cascades_doomed _ _ Hpk).
  rewrite Is_true_true. split; intros [? ?]; by split.
Qed.


(** ** Root protection *)

Section root_protection.
Import Folders Items Requests.

(** A folder without parent is reached by a cascade only when the
    statement hits it. *)
Lemma cascades_top_level fuel fs hit f :
  f_parent_id f = None → cascades fuel fs hit f = hit f.
Proof. intros Hp. destruct fuel; simpl; [|rewrite Hp]; by rewrite orb_false_r. Qed.

Lemma deleteFolder_folders user id s :
  folders (deleteFolder user id s).2 = folders s ∨
  ∃ row,
    row ∈ folders s ∧ f_id row = id ∧ f_user_id row = u_id user ∧
    f_name row ≠ "Root" ∧
    folders (deleteFolder user id s).2 =
      filter (λ f, ¬ cascades (length (folders s)) (folders s)
                     (λ f, bool_decide (f_id f = id ∧ f_user_id f = u_id user)) f)
             (folders s).
Proof.
  unfold deleteFolder; run_route.
  destruct (filter _ (folders s)) as [|row rest] eqn:Hsel; [by left|].
  assert (Hrow : row ∈ filter (λ f, f_id f = id ∧ f_user_id f = u_id user) (folders s))
    by (rewrite Hsel; left).
  apply list_elem_of_filter in Hrow as [[Hid Hu] Hin].
  case_bool_decide as Hname; [by left|].
  right. exists row. by repeat split.
Qed.

Lemma serve_keeps_root r s f :
  NoDup (f_id <$> folders s) →
  f ∈ folders s → f_name f = "Root" → f_parent_id f = None →
  NoDup (f_id <$> folders (serve r s).2) ∧ f ∈ folders (serve r s).2.
Proof.
  intros Hnd Hin Hname Hparent. destruct r as [user id|user id|user id]; simpl.
  - destruct (deleteFolder_folders user id s)
      as [->|(row & Hrow & Hid & Hu & Hnr & ->)]; [done|].
    split; [by apply key_unique_filter|].
    apply list_elem_of_filter. split; [|done].
    rewrite cascades_top_level by done.
    intros [Hfid Hfu]%bool_decide_unpack.
    apply Hnr. rewrite (key_unique f_id (folders s) row f); try done.
    by rewrite Hid, Hfid.
  - assert (folders (deleteItem user id s).2 = folders s) as ->; [|done].
    unfold deleteItem; run_route.
    by destruct (filter _ (items s)).
  - assert (folders (deleteFile user id s).2 = folders s) as ->; [|done].
    unfold deleteFile; run_route.
    by destruct (filter _ (items s)).
Qed.

(** C9 (root protection).  Under the primary key of [folders]: a delete
    request for a folder named Root is answered with an error, 403 to
    its owner and 404 to any other caller, and leaves the whole store as
    it was; and after any sequence of delete requests (folders, items,
    files; any callers, any ids) a folder named Root without parent is
    still there. *)
Theorem root_folder_never_deleted (s : Store) :
  NoDup (f_id <$> folders s) →
  (∀ (user : User) (f : Folder),
      f ∈ folders s → f_name f = "Root" →
      deleteFolder user (f_id f) s =
        (if bool_decide (f_user_id f = u_id user)
         then Err 403 "Cannot delete root folder"
         else Err 404 "Folder not found", s)) ∧
  (∀ (rs : list DeleteRequest) (f : Folder),
      f ∈ folders s → f_name f = "Root" → f_parent_id f = None →
      f ∈ folders (serve_all rs s)).
Proof.
  intros Hnd. split.
  - intros user f Hin Hname.
    unfold deleteFolder; run_route.
    destruct (filter _ (folders s)) as [|row rest] eqn:Hsel.
    + rewrite bool_decide_eq_false_2; [done|]. intros Hu.
      by eapply filter_nil_not_elem_of; [exact Hsel| |exact Hin].
    + assert (Hrow : row ∈ filter (λ g, f_id g = f_id f ∧ f_user_id g = u_id user)
                           (folders s)) by (rewrite Hsel; left).
      apply list_elem_of_filter in Hrow as [[Hid Hu] Hrow].
      assert (row = f) as -> by by apply (key_unique f_id (folders s)).
      by rewrite !bool_decide_eq_true_2.
  - intros rs. revert s Hnd.
    induction rs as [|r rs IH]; intros s Hnd f Hin Hname Hparent; [done|].
    simpl. destruct (serve_keeps_root r s f) as [Hnd' Hin']; try done.
    by apply IH.
Qed.
End root_protection.

(** ** The update route *)

Section update_frame.
Import Items Observations.

Lemma items_insert_item_version item content number now s :
  items (insert_item_version item content number now s).2 = items s.
Proof.
  unfold insert_item_version, bind, nextval_item_versions. simpl.
  repeat case_match; done.
Qed.

Lemma targetFolderCheck_reads user folderId s :
  ∃ l, targetFolderCheck user folderId s = (Done l, s).
Proof.
  unfold targetFolderCheck. destruct folderId as [fid|]; [|by eexists].
  destruct (truthy_num fid); by eexists.
Qed.

(** The route either leaves [items] alone (with an error answer), or
    applies the UPDATE to it. *)
Lemma updateItem_items user id body now s :
  (items (updateItem user id body now s).2 = items s ∧
   ∃ status error, (updateItem user id body now s).1 = Err status error) ∨
  items (updateItem user id body now s).2 = put_change user id body now <$> items s.
Proof.
  unfold updateItem; run_route.
  destruct (filter _ (items s)) as [|current rest]; [left; eauto|].
  destruct (targetFolderCheck_reads user (ud_folderId body) s) as [l ->].
  destruct (_ && _); simpl; [left; eauto|].
  unfold update_item.
  destruct (forallb _ _); simpl; [|left; eauto].
  match goal with |- context [if ?c then _ else _] => destruct c end; simpl.
  - destruct (insert_item_version _ _ _ _ _) as [[[]|e] s''] eqn:Hins; simpl;
      match type of Hins with
      | insert_item_version ?a ?b ?c ?d ?st = _ =>
          pose proof (items_insert_item_version a b c d st) as Hit;
          rewrite Hins in Hit
      end; by right.
  - by right.
Qed.

Lemma updated_item_frame body now r :
  same_fixed_columns r (updated_item (ud_name body) (ud_encryptedContent body)
    (ud_folderId body) (ud_language body) (ud_tags body) now r) ∧
  unsupplied_columns_kept body r (updated_item (ud_name body)
    (ud_encryptedContent body) (ud_folderId body) (ud_language body)
    (ud_tags body) now r) ∧
  supplied_columns_set body r (updated_item (ud_name body)
    (ud_encryptedContent body) (ud_folderId body) (ud_language body)
    (ud_tags body) now r).
Proof.
  unfold same_fixed_columns, unsupplied_columns_kept, supplied_columns_set.
  simpl. repeat split; try (by intros ->); by intros v ->.
Qed.

(** C10 (frame of the update route).  Row by row, the [items] table
    after an update request relates to the table before it: a row with
    another id is the same row; the row with the requested id keeps
    every column the request cannot name (all but the five and
    updated_at) and each of the five columns for which the request
    supplies no value; and when the request is answered 200 by its
    owner, the supplied columns hold the supplied values. *)
Theorem update_keeps_unsupplied_fields (user : User) (id : Z)
    (body : UpdateItemData) (now : Z) (s : Store) :
  Forall2 (λ r r',
      (i_id r ≠ id → r' = r) ∧
      same_fixed_columns r r' ∧
      unsupplied_columns_kept body r r' ∧
      (i_id r = id → i_user_id r = u_id user →
       (∃ row, (updateItem user id body now s).1 = Ok 200 row) →
       supplied_columns_set body r r' ∧ i_updated_at r' = now))
    (items s) (items (updateItem user id body now s).2).
Proof.
  destruct (updateItem_items user id body now s) as [[-> (st & e & He)]| ->].
  - apply Forall_Forall2_diag, Forall_forall. intros r _.
    split; [done|]. split; [by repeat split|]. split; [by repeat split|].
    intros _ _ [row Hrow]. congruence.
  - apply Forall2_fmap_r, Forall_Forall2_diag, Forall_forall. intros r _.
    unfold put_change, put_target, compose. case_bool_decide as Ht.
    + pose proof (updated_item_frame body now r) as Hframe.
      destruct Hframe as [Hfix [Hkeep Hset]].
      split; [intros Hne; by destruct Ht|].
      split; [done|]. split; [done|]. intros _ _ _. split; [done|]. done.
    + split; [done|]. split; [by repeat split|]. split; [by repeat split|].
      intros Hid Hu. by destruct Ht.
Qed.
End update_frame.

(** ** The version log *)

Section version_log.
Import Items Observations.

Lemma insert_item_Done name type content folder user language tags now s row s' :
  insert_item name type content folder user language tags now s = (Done row, s') →
  (i_id row ∉ (i_id <$> items s)) ∧ i_user_id row = user ∧
  items s' = items s ++ [row] ∧ item_versions s' = item_versions s ∧
  folders s' = folders s.
Proof.
  unfold insert_item, bind, nextval_items. simpl.
  repeat case_match; try done.
  intros [= <- <-]. simpl. repeat split; try done.
  match goal with
  | Hpk : bool_decide _ = false |- _ => by apply bool_decide_eq_false in Hpk
  end.
Qed.

Lemma insert_item_version_Done item content number now s u s' :
  insert_item_version item content number now s = (Done u, s') →
  items s' = items s ∧
  item_versions s' = item_versions s ++
    [{| v_id := item_versions_id_seq s; v_item_id := item;
        v_encrypted_content := content; v_version_number := number;
        v_created_at := now |}].
Proof.
  unfold insert_item_version, bind, nextval_item_versions. simpl.
  repeat case_match; try done. by intros [= <- <-].
Qed.

Lemma update_item_versions name content folder language tags id user now s :
  item_versions (update_item name content folder language tags id user now s).2
  = item_versions s.
Proof. unfold update_item. by case_match. Qed.

Lemma max_version_spec id s :
  match max_version id s with
  | None => numbers_of id s = []
  | Some m => m ∈ numbers_of id s ∧ Forall (λ n, (n ≤ m)%Z) (numbers_of id s)
  end.
Proof.
  unfold max_version, numbers_of.
  induction (filter _ (item_versions s)) as [|v l IH]; [done|].
  simpl. destruct (foldr _ None l) as [m|]; simpl.
  - destruct IH as [Hin Hall]. split.
    + destruct (Z.max_spec (v_version_number v) m) as [[_ ->]|[_ ->]];
        [by right|by left].
    + constructor; [lia|]. eapply Forall_impl; [exact Hall|]. simpl. lia.
  - apply fmap_nil_inv in IH as ->. split; [by left|]. by repeat constructor.
Qed.

Lemma max_version_seqZ id s k :
  numbers_of id s = seqZ 1 (Z.of_nat (S k)) →
  max_version id s = Some (Z.of_nat (S k)).
Proof.
  intros Hn. pose proof (max_version_spec id s) as Hspec.
  destruct (max_version id s) as [m|].
  - destruct Hspec as [Hin Hall]. rewrite Hn in Hin, Hall.
    apply elem_of_seqZ in Hin.
    rewrite Forall_seqZ in Hall. specialize (Hall (Z.of_nat (S k))).
    f_equal. lia.
  - rewrite Hn, seqZ_S in Hspec. by apply app_nil in Hspec as [_ ?].
Qed.

Lemma createItem_log user body now s it s1 :
  (∀ v, v ∈ item_versions s → v_item_id v ∈ i_id <$> items s) →
  createItem user body now s = (Ok 201 it, s1) →
  log_upto user (i_id it) 1 s1.
Proof.
  intros Hfk. unfold createItem.
  destruct (cd_name body) as [name|]; [|done].
  destruct (cd_type body) as [type|]; [|done].
  destruct (cd_folderId body) as [folderId|]; [|done].
  destruct (negb _); [done|]. destruct (negb _); [done|].
  unfold catch, bind, select_folders, ret.
  destruct (filter _ (folders s)); [done|].
  destruct (insert_item _ _ _ _ _ _ _ _ _) as [[row|e] s'] eqn:Hrow; [|done].
  destruct (insert_item_version _ _ _ _ _) as [[u|e] s''] eqn:Hver; [|done].
  intros [= <- <-].
  apply insert_item_Done in Hrow as (Hfresh & Huser & Hitems & Hvers & _).
  apply insert_item_version_Done in Hver as [Hitems' Hvers'].
  split.
  - unfold numbers_of. rewrite Hvers', Hvers, filter_app.
    assert (filter (λ v, v_item_id v = i_id row) (item_versions s) = []) as ->.
    { apply filter_none. intros v Hv Hid.
      apply Hfresh. rewrite <- Hid. by apply Hfk. }
    rewrite filter_cons_True by done. done.
  - exists row. rewrite Hitems', Hitems. split; [|done].
    apply elem_of_app. right. by left.
Qed.

(** What a request answered 200 did to the two tables. *)
Lemma updateItem_Ok user id body now s row s' :
  updateItem user id body now s = (Ok 200 row, s') →
  ∃ current,
    head (filter (λ i, i_id i = id ∧ i_user_id i = u_id user) (items s))
      = Some current ∧
    items s' = put_change user id body now <$> items s ∧
    item_versions s' =
      if truthy_opt truthy_str (ud_encryptedContent body)
         && negb (bool_decide (ud_encryptedContent body
                               = i_encrypted_content current))
      then item_versions s ++
        [{| v_id := item_versions_id_seq s; v_item_id := id;
            v_encrypted_content := ud_encryptedContent body;
            v_version_number :=
              ((if truthy_opt truthy_num (max_version id s)
                then default 0 (max_version id s) else 0) + 1)%Z;
            v_created_at := now |}]
      else item_versions s.
Proof.
  unfold updateItem; run_route.
  destruct (filter _ (items s)) as [|current rest]; [done|].
  destruct (targetFolderCheck_reads user (ud_folderId body) s) as [l ->]. destruct (_ && _); [done|].
  destruct (update_item _ _ _ _ _ _ _ _ _) as [[result|e] s1] eqn:Hupd; [|done].
  assert (Hs1 : s1 = with_items (put_change user id body now <$> items s) s).
  { revert Hupd. unfold update_item. case_match; [|done]. by intros [= _ <-]. }
  subst s1.
  destruct (_ && _) eqn:Hcond.
  - destruct (insert_item_version _ _ _ _ _) as [[[]|e] s2] eqn:Hins; [|done].
    intros [= _ <-]. apply insert_item_version_Done in Hins as [Hit Hver].
    exists current. by rewrite Hcond, Hit, Hver.
  - intros [= _ <-]. exists current. by rewrite Hcond.
Qed.

Lemma updateItem_log user id body now s k c row s' :
  log_upto user id (S k) s →
  ud_encryptedContent body = Some c → c ≠ "" →
  current_content user id s ≠ Some c →
  updateItem user id body now s = (Ok 200 row, s') →
  log_upto user id (S (S k)) s'.
Proof.
  intros [Hnum (r & Hr & Hrid & Hru)] Hc Hne Hcur Hupd.
  apply updateItem_Ok in Hupd as (current & Hhead & Hitems & Hvers).
  unfold current_content in Hcur. rewrite Hhead in Hcur. simpl in Hcur.
  rewrite Hc in Hvers. simpl in Hvers.
  rewrite (bool_decide_eq_false_2 (Some c = _)) in Hvers by congruence.
  unfold truthy_str in Hvers. rewrite bool_decide_eq_false_2 in Hvers by done.
  simpl in Hvers. rewrite (max_version_seqZ id s k Hnum) in Hvers.
  simpl in Hvers. split.
  - unfold numbers_of in *. rewrite Hvers, filter_app, fmap_app, Hnum.
    rewrite filter_cons_True by done. simpl.
    rewrite (seqZ_S 1 (S k)). do 2 f_equal. lia.
  - exists (put_change user id body now r). rewrite Hitems.
    split; [by apply list_elem_of_fmap_2|].
    unfold put_change, put_target. by case_bool_decide.
Qed.

Lemma updateItem_same_content user id body now s c :
  ud_encryptedContent body = Some c →
  current_content user id s = Some c →
  item_versions (updateItem user id body now s).2 = item_versions s.
Proof.
  intros Hc Hcur. unfold current_content in Hcur.
  unfold updateItem; run_route.
  destruct (filter _ (items s)) as [|current rest]; [done|].
  simpl in Hcur.
  destruct (targetFolderCheck_reads user (ud_folderId body) s) as [l ->]. destruct (_ && _); [done|].
  pose proof (update_item_versions (ud_name body) (ud_encryptedContent body)
    (ud_folderId body) (ud_language body) (ud_tags body) id (u_id user) now s)
    as Hkeep.
  destruct (update_item _ _ _ _ _ _ _ _ _) as [[result|e] s1]; [|done].
  rewrite Hc, Hcur, bool_decide_eq_true_2, andb_false_r by done. done.
Qed.

(** *** ORDER BY version_number DESC over such a log *)

Local Instance version_desc_trans : Transitive version_desc.
Proof. unfold version_desc. intros a b c. lia. Qed.
Local Instance version_desc_total : Total version_desc.
Proof. unfold version_desc. intros a b. lia. Qed.

Lemma Sorted_seqZ m n : Sorted Z.le (seqZ m (Z.of_nat n)).
Proof.
  revert m. induction n as [|n IH]; intros m.
  { rewrite seqZ_nil by lia. constructor. }
  rewrite seqZ_cons by lia.
  replace (Z.pred (Z.of_nat (S n))) with (Z.of_nat n) by lia.
  constructor; [apply IH|].
  destruct n; [rewrite seqZ_nil by lia; constructor|].
  rewrite seqZ_cons by lia. constructor. lia.
Qed.

Lemma Sorted_by_number (l : list ItemVersion) :
  Sorted Z.le (v_version_number <$> l) → Sorted (flip version_desc) l.
Proof.
  induction l as [|a l IH]; simpl; [constructor|].
  intros [Hs Hhd]%Sorted_inv. constructor; [by apply IH|].
  destruct l; simpl in *; constructor. by inv Hhd.
Qed.

Lemma merge_sort_log (l : list ItemVersion) k :
  v_version_number <$> l = seqZ 1 (Z.of_nat k) →
  merge_sort version_desc l = reverse l.
Proof.
  intros Hl. apply (StronglySorted_unique_strong version_desc).
  - intros a b Ha Hb Hab Hba.
    apply (key_unique v_version_number l).
    + rewrite Hl. apply NoDup_seqZ.
    + by rewrite <- (merge_sort_Permutation version_desc l).
    + by apply elem_of_reverse.
    + unfold version_desc in *. lia.
  - apply StronglySorted_merge_sort; apply _.
  - apply Sorted_StronglySorted; [apply _|].
    apply (Sorted_reverse (flip version_desc)), Sorted_by_number.
    rewrite Hl. apply Sorted_seqZ.
  - by rewrite merge_sort_Permutation, reverse_Permutation.
Qed.

Lemma getItemVersions_log user id k s :
  log_upto user id k s →
  ∃ rows, (getItemVersions user id s).1 = Ok 200 rows ∧
          v_version_number <$> rows = reverse (seqZ 1 (Z.of_nat k)).
Proof.
  intros [Hnum (r & Hr & Hrid & Hru)].
  unfold getItemVersions; run_route.
  destruct (filter _ (items s)) as [|r0 rest] eqn:Hsel.
  { exfalso. by eapply filter_nil_not_elem_of; [exact Hsel| |exact Hr]. }
  simpl. eexists. split; [done|].
  rewrite (merge_sort_log _ k Hnum), fmap_reverse. by f_equal.
Qed.

Lemma apply_updates_log user id ups s k :
  log_upto user id (S k) s →
  changing_updates user id ups s →
  log_upto user id (S (length ups + k)) (apply_updates user id ups s).
Proof.
  revert s k. induction ups as [|[body now] ups IH]; intros s k Hlog Hups; [done|].
  destruct Hups as ((c & Hc & Hne & Hcur) & [row Hrow] & Hrest). simpl in *.
  destruct (updateItem user id body now s) as [resp s'] eqn:Hupd.
  simpl in *. subst resp.
  replace (S (S (length ups + k))) with (S (length ups + S k)) by lia.
  apply IH; [|done]. by eapply updateItem_log.
Qed.

(** The version log where it is as the design document says.  Under
    referential integrity of [item_versions.item_id]: after an item is
    created through POST /items and then updated by [ups], a run of
    requests each answered 200 and each carrying a non-empty content
    different from the stored one, GET /items/:id/versions answers the
    version numbers [length ups + 1, ..., 2, 1]; and on any store, an
    update whose content equals the stored content leaves
    [item_versions] as it is. *)
Theorem version_log_after_updates (user : User) (body : CreateItemData)
    (now : Z) (s0 s1 : Store) (it : Item) (ups : list (UpdateItemData * Z)) :
  (∀ v, v ∈ item_versions s0 → v_item_id v ∈ i_id <$> items s0) →
  createItem user body now s0 = (Ok 201 it, s1) →
  changing_updates user (i_id it) ups s1 →
  (∃ rows,
      (getItemVersions user (i_id it) (apply_updates user (i_id it) ups s1)).1
        = Ok 200 rows ∧
      v_version_number <$> rows
        = reverse (seqZ 1 (Z.of_nat (length ups + 1)))) ∧
  (∀ (s : Store) (id : Z) (same : UpdateItemData) (now' : Z) (c : string),
      ud_encryptedContent same = Some c →
      current_content user id s = Some c →
      item_versions (updateItem user id same now' s).2 = item_versions s).
Proof.
  intros Hfk Hcreate Hups. split.
  - apply getItemVersions_log.
    replace (length ups + 1) with (S (length ups + 0)) by lia.
    apply apply_updates_log; [|done]. by eapply createItem_log.
  - intros s id same now' c. apply updateItem_same_content.
Qed.

(** The UPDATE of the route keeps the key of every row. *)
Lemma filter_put_change user id body now (l : list Item) :
  filter (λ i, i_id i = id ∧ i_user_id i = u_id user)
    (put_change user id body now <$> l) =
  put_change user id body now <$>
    filter (λ i, i_id i = id ∧ i_user_id i = u_id user) l.
Proof.
  induction l as [|r l IH]; [done|].
  rewrite fmap_cons, !filter_cons, IH.
  assert (i_id (put_change user id body now r) = i_id r
          ∧ i_user_id (put_change user id body now r) = i_user_id r) as [-> ->].
  { unfold put_change. by destruct (put_target user id r). }
  by destruct (decide _).
Qed.

(** C5 (version monotonicity), at the inputs where the code departs
    from it.  An update that carries the empty string as its content,
    on an item whose stored content is something else, and that is
    answered 200: the UPDATE has written the empty string, so the
    stored content has changed, and no row was added to
    [item_versions]; GET /items/:id/versions answers what it answered
    before the update. *)
Theorem empty_content_is_stored_unversioned (user : User) (id : Z)
    (body : UpdateItemData) (now : Z) (s : Store) :
  let s' := (updateItem user id body now s).2 in
  ud_encryptedContent body = Some "" →
  current_content user id s ≠ Some "" →
  (∃ row, (updateItem user id body now s).1 = Ok 200 row) →
  current_content user id s' = Some "" ∧
  current_content user id s' ≠ current_content user id s ∧
  item_versions s' = item_versions s ∧
  (getItemVersions user id s').1 = (getItemVersions user id s).1.
Proof.
  intros s' Hc Hcur [row Hrow].
  assert (updateItem user id body now s = (Ok 200 row, s')) as Hupd.
  { subst s'. by destruct (updateItem user id body now s) as [a s1]; simplify_eq/=. }
  apply updateItem_Ok in Hupd as (current & Hhead & Hitems & Hvers).
  rewrite Hc in Hvers. simpl in Hvers.
  assert (filter (λ i, i_id i = id ∧ i_user_id i = u_id user) (items s')
          = put_change user id body now <$>
              filter (λ i, i_id i = id ∧ i_user_id i = u_id user) (items s))
    as Hsel by (by rewrite Hitems, filter_put_change).
  assert (current_content user id s' = Some "") as Hnew.
  { unfold current_content. rewrite Hsel.
    destruct (filter _ (items s)) as [|r rest] eqn:Hold; [done|].
    injection Hhead as ->.
    assert (current ∈ filter (λ i, i_id i = id ∧ i_user_id i = u_id user)
                        (items s))
      as [Hkey _]%list_elem_of_filter by (rewrite Hold; left).
    simpl. unfold put_change, put_target.
    rewrite bool_decide_eq_true_2 by done. simpl. by rewrite Hc. }
  split_and!; [done|congruence|done|].
  unfold getItemVersions. run_route. rewrite Hsel.
  destruct (filter _ (items s)) as [|r rest]; [done|]. simpl.
  by rewrite Hvers.
Qed.
End version_log.

(** ** The envelope *)

Section envelope.
Import Backup Observations.
Context `{Node}.

Lemma randomBytes_length n entropy : length (randomBytes n entropy) = n.
Proof. unfold randomBytes. by rewrite length_fmap, length_seq. Qed.

Lemma encryptedBackup_parts key iv backupJson :
  encryptedBackup key iv backupJson =
    iv ++ (createCipher_gcm key (utf8_encode backupJson)).2
       ++ (createCipher_gcm key (utf8_encode backupJson)).1.
Proof. unfold encryptedBackup. by destruct (createCipher_gcm _ _). Qed.

(** C8 (wire format).  The export route answers 200 with an object of
    exactly three properties: version, the string 1.0.0; encrypted, the
    boolean true; data, a string, the base64 encoding of a 16-byte
    nonce followed by a 16-byte authentication tag followed by the
    ciphertext, where tag and ciphertext are those the cipher gives for
    the serialized snapshot. *)
Theorem export_envelope (user : User) (now : Z) (entropy : nat → Byte.byte)
    (s : Store) :
  ∃ nonce authTag ciphertext : list Byte.byte,
    exportData user now entropy s =
      (Ok 200 (JObject [("version", JString "1.0.0");
                        ("encrypted", JBool true);
                        ("data", JString
                           (base64_encode (nonce ++ authTag ++ ciphertext)))]),
       s) ∧
    length nonce = 16 ∧ length authTag = 16 ∧
    createCipher_gcm (u_encryptionKey user)
      (utf8_encode (JSON_stringify (exported_snapshot user now s)))
    = (ciphertext, authTag).
Proof.
  exists (randomBytes 16 entropy).
  destruct (createCipher_gcm (u_encryptionKey user)
    (utf8_encode (JSON_stringify (exported_snapshot user now s))))
    as [ciphertext authTag] eqn:Hc.
  exists authTag, ciphertext. split; [|split; [|split]].
  - unfold exportData; run_route.
    fold (exported_snapshot user now s).
    by rewrite encryptedBackup_parts, Hc.
  - apply randomBytes_length.
  - pose proof (getAuthTag_length (u_encryptionKey user)
      (utf8_encode (JSON_stringify (exported_snapshot user now s)))) as Hlen.
    by rewrite Hc in Hlen.
  - done.
Qed.

(** The decipher call of the import route does not depend on the first
    16 bytes of the buffer. *)
Lemma decryptBackup_nonce key (nonce nonce' rest : list Byte.byte) :
  length nonce = 16 → length nonce' = 16 →
  decryptBackup key (nonce' ++ rest) = decryptBackup key (nonce ++ rest).
Proof.
  intros Hn Hn'. unfold decryptBackup.
  rewrite !(drop_app_length' _ _ 16) by done.
  replace 32 with (16 + 16) by done.
  rewrite <- !drop_drop, !(drop_app_length' _ _ 16) by done. done.
Qed.

Lemma decryptBackup_encryptedBackup key iv backupJson :
  length iv = 16 →
  decryptBackup key (encryptedBackup key iv backupJson)
  = Some (utf8_encode backupJson).
Proof.
  intros Hiv. rewrite encryptedBackup_parts. unfold decryptBackup.
  pose proof (getAuthTag_length key (utf8_encode backupJson)) as Htag.
  rewrite (drop_app_length' _ _ 16) by done.
  rewrite (take_app_length' _ _ 16) by done.
  replace 32 with (16 + 16) by done.
  rewrite <- drop_drop, (drop_app_length' _ _ 16) by done.
  rewrite (drop_app_length' _ _ 16) by done.
  apply createDecipher_createCipher.
Qed.

(** C1 (tamper detection), at the input where the code departs from it.
    Take the data string the export route answers for any snapshot,
    decode it, replace any one of the first 16 bytes (the nonce prefix)
    by any byte and encode the result again: on that string the decode
    and decipher steps of the import route succeed, with the serialized
    snapshot as their result. *)
Theorem modified_nonce_is_accepted (key backupJson : string)
    (entropy : nat → Byte.byte) (i : nat) (b : Byte.byte) :
  i < 16 →
  let exported :=
    base64_encode (encryptedBackup key (randomBytes 16 entropy) backupJson) in
  let modified := base64_encode (<[i := b]> (base64_decode exported)) in
  decryptBackup key (base64_decode modified) = Some (utf8_encode backupJson).
Proof.
  intros Hi. simpl. rewrite !base64_decode_encode.
  rewrite <- (decryptBackup_encryptedBackup key (randomBytes 16 entropy))
    by apply randomBytes_length.
  rewrite !encryptedBackup_parts.
  rewrite insert_app_l by (rewrite randomBytes_length; lia).
  apply decryptBackup_nonce.
  - apply randomBytes_length.
  - rewrite length_insert. apply randomBytes_length.
Qed.
End envelope.

(** ** The replay of a snapshot *)

Section scanned_rows.
Import Backup.
Context `{Scan}.

Lemma elem_of_scan s rows g : g ∈ scan s rows ↔ g ∈ rows.
Proof. by rewrite (scan_Permutation s rows). Qed.

Lemma scan_nil_iff s rows : scan s rows = [] ↔ rows = [].
Proof.
  pose proof (scan_Permutation s rows) as Hperm.
  split; intros Hnil.
  - rewrite Hnil in Hperm. symmetry. by apply Permutation_nil_l.
  - subst rows. by apply Permutation_nil_r.
Qed.

Lemma scan_singleton s g : scan s [g] = [g].
Proof. apply Permutation_singleton_r, scan_Permutation. Qed.

(** The loop body with clearExisting false, after its query. *)
Lemma importFolder_keep user now folder acc s :
  importFolder user false now folder acc s =
    match
      (if bool_decide (f_name folder = "Root")
       then scan s (filter (λ f, f_name f = "Root" ∧ f_parent_id f = None
                                 ∧ f_user_id f = u_id user) (folders s))
       else [])
    with
    | root :: _ =>
        (Done {| folderMapping :=
                   <[f_id folder := f_id root]> (folderMapping acc);
                 events := events acc ++
                   [MappedOntoRoot (f_id folder) (f_id root)] |}, s)
    | [] =>
        let parentId :=
          if truthy_opt truthy_num (f_parent_id folder)
          then f_parent_id folder ≫= (λ p, folderMapping acc !! p)
          else None in
        bind (insert_folder_on_conflict_do_nothing (f_name folder) parentId
                (u_id user) now)
          (λ result,
             match result with
             | new_id :: _ =>
                 ret {| folderMapping :=
                          <[f_id folder := new_id]> (folderMapping acc);
                        events := events acc ++
                          [Inserted (f_id folder) new_id parentId] |}
             | [] =>
                 ret {| folderMapping := folderMapping acc;
                        events := events acc ++
                          [NothingInserted (f_id folder)] |}
             end) s
    end.
Proof.
  unfold importFolder. unfold bind at 1. rewrite andb_true_r.
  destruct (bool_decide (f_name folder = "Root"));
    unfold select_folders_as_scanned, ret;
    [by destruct (scan s _)|done].
Qed.
End scanned_rows.

Section replay.
Import Backup Observations.
Context `{Scan}.

(** The INSERT of the folder loop, case by case. *)
Lemma insert_folder_cases name parent user now s :
  let out := insert_folder_on_conflict_do_nothing name parent user now s in
  (∃ e, out.1 = Thrown e) ∨
  (out.1 = Done [] ∧ folders out.2 = folders s) ∨
  (out.1 = Done [folders_id_seq s] ∧
   folders out.2 = folders s ++
     [{| f_id := folders_id_seq s; f_name := name; f_parent_id := parent;
         f_user_id := user; f_created_at := now; f_updated_at := now |}]).
Proof.
  unfold insert_folder_on_conflict_do_nothing, bind, nextval_folders. simpl.
  repeat case_match; simpl; eauto.
Qed.

Lemma insert_folder_fresh name parent user now s :
  varchar 255 name = true →
  from_option (λ p, bool_decide (p ∈ f_id <$> folders s)) true parent = true →
  existsb (folder_conflict (folders_id_seq s) name parent user) (folders s)
    = false →
  insert_folder_on_conflict_do_nothing name parent user now s =
    (Done [folders_id_seq s],
     {| folders := folders s ++
          [{| f_id := folders_id_seq s; f_name := name;
              f_parent_id := parent; f_user_id := user;
              f_created_at := now; f_updated_at := now |}];
        items := items s; item_versions := item_versions s;
        folders_id_seq := folders_id_seq s + 1;
        items_id_seq := items_id_seq s;
        item_versions_id_seq := item_versions_id_seq s |}).
Proof.
  intros Hname Hparent Hconflict.
  unfold insert_folder_on_conflict_do_nothing, bind, nextval_folders. simpl.
  by rewrite Hname, Hparent, Hconflict.
Qed.

(** Without parent there is no conflict but on the primary key. *)
Lemma no_conflict_at_top_level id name user fs :
  id ∉ f_id <$> fs → existsb (folder_conflict id name None user) fs = false.
Proof.
  intros Hid. induction fs as [|g fs IH]; [done|]. simpl.
  rewrite fmap_cons, not_elem_of_cons in Hid. destruct Hid as [Hg Hfs].
  rewrite IH by done. unfold folder_conflict.
  rewrite bool_decide_eq_false_2 by congruence. done.
Qed.

(** C3 (folders whose parent does not resolve), at the inputs where the
    code departs from it.  When the parent reference of a bundle folder
    has no entry in the mapping built so far and the folder is not taken
    for the root, the loop body does not skip it: it inserts a row for it
    with a NULL parent and adds the mapping entry for its id. *)
Theorem unresolved_parent_is_inserted (user : User) (clearExisting : bool)
    (now : Z) (folder : Folder) (acc : Replay) (s : Store) (p : Z) :
  f_parent_id folder = Some p →
  folderMapping acc !! p = None →
  clearExisting = true ∨ f_name folder ≠ "Root" →
  varchar 255 (f_name folder) = true →
  folders_id_seq s ∉ f_id <$> folders s →
  ∃ s',
    importFolder user clearExisting now folder acc s =
      (Done {| folderMapping :=
                 <[f_id folder := folders_id_seq s]> (folderMapping acc);
               events := events acc ++
                 [Inserted (f_id folder) (folders_id_seq s) None] |}, s') ∧
    folders s' = folders s ++
      [{| f_id := folders_id_seq s; f_name := f_name folder;
          f_parent_id := None; f_user_id := u_id user;
          f_created_at := now; f_updated_at := now |}].
Proof.
  intros Hp Hunres Hnoroot Hname Hfresh.
  unfold importFolder, bind.
  assert ((bool_decide (f_name folder = "Root") && negb clearExisting) = false)
    as ->.
  { destruct Hnoroot as [->|Hn]; [by rewrite andb_false_r|].
    by rewrite bool_decide_eq_false_2. }
  unfold ret at 1. rewrite Hp. simpl. rewrite Hunres.
  assert ((if truthy_num p then None else None) = @None Z) as ->
    by by destruct (truthy_num p).
  rewrite insert_folder_fresh;
    [|done|done|by apply no_conflict_at_top_level].
  unfold ret. eexists. split; [done|done].
Qed.

(** The loop body took the folder for the root, or it went on to the
    INSERT; in the second case its outcome is not that of a folder
    mapped onto the root. *)
Lemma importFolder_insert_not_mapped user now folder acc s parentId :
  ¬ mapped_onto_root user folder acc s
      (bind (insert_folder_on_conflict_do_nothing (f_name folder) parentId
               (u_id user) now)
         (λ result,
            match result with
            | new_id :: _ =>
                ret {| folderMapping :=
                         <[f_id folder := new_id]> (folderMapping acc);
                       events := events acc ++
                         [Inserted (f_id folder) new_id parentId] |}
            | [] =>
                ret {| folderMapping := folderMapping acc;
                       events := events acc ++
                         [NothingInserted (f_id folder)] |}
            end) s).
Proof.
  intros (g & _ & Hout). revert Hout. unfold bind.
  destruct (insert_folder_on_conflict_do_nothing _ _ _ _ _)
    as [[[|new_id rest]|e] s']; unfold ret; intros [=];
    match goal with
    | Hev : _ ++ [_] = _ ++ [_] |- _ =>
        apply app_inj_tail in Hev; destruct Hev as [_ Hev]; discriminate
    end.
Qed.

(** C6 (the Root special case), at the inputs where the code departs
    from it.  With clearExisting false, the loop body maps a bundle
    folder onto the id of an existing root of the caller, leaving the
    store as it is, exactly when the bundle folder is named Root and the
    caller has a folder named Root without parent.  The parent
    reference of the bundle folder plays no part: a bundle folder named
    Root that has a parent is mapped onto the existing root as one
    without parent is, and no row is inserted for it.  The root it is
    mapped onto is the row that comes first in the answer of the query,
    and each of the caller's folders named Root without parent comes
    first under some scan. *)
Theorem root_mapping_by_name (user : User) (now : Z) (folder : Folder)
    (acc : Replay) (s : Store) :
  let roots :=
    filter (λ f, f_name f = "Root" ∧ f_parent_id f = None
                 ∧ f_user_id f = u_id user) (folders s) in
  (mapped_onto_root user folder acc s
     (importFolder user false now folder acc s)
   ↔ f_name folder = "Root" ∧ ∃ g, existing_root user s g) ∧
  (∀ p, f_parent_id folder = Some p →
        f_name folder = "Root" → (∃ g, existing_root user s g) →
        mapped_onto_root user folder acc s
          (importFolder user false now folder acc s)) ∧
  (∀ r s',
     importFolder user false now folder acc s = (Done r, s') →
     f_name folder = "Root" → (∃ g, existing_root user s g) →
     ∃ root, head (scan s roots) = Some root ∧ existing_root user s root ∧
             folderMapping r !! f_id folder = Some (f_id root)) ∧
  (f_name folder = "Root" →
   ∀ g, existing_root user s g →
        @importFolder (scan_first (f_id g)) user false now folder acc s =
          (Done {| folderMapping :=
                     <[f_id folder := f_id g]> (folderMapping acc);
                   events := events acc ++
                     [MappedOntoRoot (f_id folder) (f_id g)] |}, s)).
Proof.
  intros roots.
  assert (∀ g, g ∈ roots ↔ existing_root user s g) as Hroots.
  { intros g. unfold roots, existing_root. rewrite list_elem_of_filter. tauto. }
  assert (mapped_onto_root user folder acc s
            (importFolder user false now folder acc s)
          ↔ f_name folder = "Root" ∧ ∃ g, existing_root user s g) as Hiff.
  { rewrite importFolder_keep. fold roots.
    destruct (decide (f_name folder = "Root")) as [Hname|Hname].
    - rewrite (bool_decide_eq_true_2 _ Hname).
      destruct (scan s roots) as [|root rest] eqn:Hsel.
      + split.
        * intros Hm. by apply importFolder_insert_not_mapped in Hm.
        * intros [_ [g Hg]]. apply scan_nil_iff in Hsel.
          apply Hroots in Hg. rewrite Hsel in Hg. by apply elem_of_nil in Hg.
      + assert (existing_root user s root) as Hroot.
        { apply Hroots, (elem_of_scan s). rewrite Hsel. left. }
        split; [eauto|]. intros _. by exists root.
    - rewrite (bool_decide_eq_false_2 _ Hname).
      split; [|by intros [? _]].
      intros Hm. by apply importFolder_insert_not_mapped in Hm. }
  split_and!.
  - exact Hiff.
  - intros p _ Hname Hroot. by apply Hiff.
  - intros r s'. rewrite importFolder_keep. fold roots.
    intros Hrun Hname [g Hg]. rewrite (bool_decide_eq_true_2 _ Hname) in Hrun.
    destruct (scan s roots) as [|root rest] eqn:Hsel.
    + apply scan_nil_iff in Hsel. apply Hroots in Hg. rewrite Hsel in Hg.
      by apply elem_of_nil in Hg.
    + injection Hrun as <- <-. exists root. split_and!; [done| |].
      * apply Hroots, (elem_of_scan s). rewrite Hsel. left.
      * simpl. apply lookup_insert_eq.
  - intros Hname g Hg. rewrite (@importFolder_keep (scan_first (f_id g))).
    rewrite (bool_decide_eq_true_2 _ Hname). fold roots. simpl.
    apply Hroots in Hg.
    assert (g ∈ filter (λ f, f_id f = f_id g) roots) as Hin
      by (by apply list_elem_of_filter).
    destruct (filter (λ f, f_id f = f_id g) roots) as [|root rest] eqn:Hsel;
      [by apply elem_of_nil in Hin|].
    assert (root ∈ filter (λ f, f_id f = f_id g) roots)
      as [Hid _]%list_elem_of_filter by (rewrite Hsel; left).
    simpl. by rewrite Hid.
Qed.
End replay.

(** ** Counting over the two loops *)

Section counting.
Import Backup Observations.
Context `{Scan}.

Lemma for_of_count {A B} (I : nat → B → Store → Prop)
    (body : A → B → Query B) (xs : list A) :
  (∀ n x acc s acc' s',
      I n acc s → body x acc s = (Done acc', s') → I (S n) acc' s') →
  ∀ n acc s acc' s',
    I n acc s → for_of xs body acc s = (Done acc', s') →
    I (length xs + n) acc' s'.
Proof.
  intros Hstep. induction xs as [|x xs IH]; intros n acc s acc' s' HI Hrun.
  - simpl in *. unfold ret in Hrun. by simplify_eq.
  - simpl in Hrun. unfold bind in Hrun.
    destruct (body x acc s) as [[acc1|e] s1] eqn:Hbody; [|done].
    replace (length (x :: xs) + n) with (length xs + S n) by (simpl; lia).
    eapply IH; [|exact Hrun]. by eapply Hstep.
Qed.

Lemma events_partition (evs : list FolderEvent) :
  length evs = rows_inserted evs + folders_mapped evs + folders_left_out evs.
Proof.
  unfold rows_inserted, folders_mapped, folders_left_out.
  induction evs as [|e evs IH]; [done|].
  rewrite !filter_cons. destruct e; simpl; lia.
Qed.

Lemma rows_inserted_snoc evs e :
  rows_inserted (evs ++ [e]) = rows_inserted evs + (if is_inserted e then 1 else 0).
Proof.
  unfold rows_inserted. rewrite filter_app, length_app, filter_cons, filter_nil.
  by destruct e.
Qed.

(** One turn of the folder loop adds one entry to the record, and a row
    to [folders] exactly when that entry is an insertion; [items] is not
    touched. *)
Lemma importFolder_step user clearExisting now folder acc s acc' s' :
  importFolder user clearExisting now folder acc s = (Done acc', s') →
  ∃ e, events acc' = events acc ++ [e] ∧
       length (folders s') =
         length (folders s) + (if is_inserted e then 1 else 0) ∧
       items s' = items s.
Proof.
  unfold importFolder. unfold bind at 1.
  set (sel := if _ && _ then _ else _).
  assert (Hsel : ∃ l, sel s = (Done l, s)).
  { unfold sel. destruct (_ && _); by eexists. }
  destruct Hsel as [l ->]. destruct l as [|root rest].
  - unfold bind.
    pose proof (insert_folder_cases (f_name folder)
      (if truthy_opt truthy_num (f_parent_id folder)
       then f_parent_id folder ≫= (λ p, folderMapping acc !! p) else None)
      (u_id user) now s) as Hins.
    assert (Hitems : items (insert_folder_on_conflict_do_nothing (f_name folder)
      (if truthy_opt truthy_num (f_parent_id folder)
       then f_parent_id folder ≫= (λ p, folderMapping acc !! p) else None)
      (u_id user) now s).2 = items s).
    { unfold insert_folder_on_conflict_do_nothing, bind, nextval_folders.
      simpl. by repeat case_match. }
    destruct (insert_folder_on_conflict_do_nothing _ _ _ _ _) as [o s1].
    simpl in Hins, Hitems.
    destruct Hins as [[e ->]|[[-> Hf]|[-> Hf]]]; [done| |]; unfold ret;
      intros [= <- <-]; eexists; (split; [done|]); simpl;
      rewrite Hf, ?length_app; simpl; split; (lia || done).
  - unfold ret. intros [= <- <-]. eexists. split; [done|]. simpl.
    split; [lia|done].
Qed.

Lemma importItem_step user now mapping item n s m s' :
  importItem user now mapping item n s = (Done m, s') →
  length (items s') + n = length (items s) + m.
Proof.
  unfold importItem. destruct (bool_decide _); [by intros [= <- <-]|].
  destruct (negb _); [by intros [= <- <-]|].
  unfold bind.
  destruct (insert_item _ _ _ _ _ _ _ _ _) as [[row|e] s1] eqn:Hins; [|done].
  unfold ret. intros [= <- <-].
  apply insert_item_Done in Hins as (_ & _ & -> & _ & _).
  rewrite length_app. simpl. lia.
Qed.

(** A replay that ran to its end went through its three stages. *)
Lemma replay_stages user clearExisting now fs its s imp r s' :
  replay user clearExisting now fs its s = (Done (imp, r), s') →
  ∃ s1,
    importFolders user clearExisting now fs (cleared user clearExisting s)
      = (Done r, s1) ∧
    for_of its (importItem user now (folderMapping r)) 0 s1
      = (Done (imported_items imp), s') ∧
    imported_folders imp = length fs.
Proof.
  unfold replay, cleared. unfold bind at 1.
  assert (Hclear : (if clearExisting then clearExistingData user else ret ()) s
    = (Done (), if clearExisting then (clearExistingData user s).2 else s)).
  { by destruct clearExisting. }
  rewrite Hclear. clear Hclear.
  set (s0 := if clearExisting then _ else s).
  unfold bind at 1.
  destruct (importFolders _ _ _ _ s0) as [[r1|e] s1] eqn:Hfold; [|done].
  unfold bind.
  destruct (for_of its _ 0 s1) as [[n|e] s2] eqn:Hitems; [|done].
  unfold ret. intros [= <- <- <-]. by exists s1.
Qed.

(** The accounts of a replay that ran to its end: one entry of the
    record per bundle folder, and as many rows added to [items] as the
    answer says. *)
Lemma replay_counts user clearExisting now fs its s imp r s' :
  replay user clearExisting now fs its s = (Done (imp, r), s') →
  imported_folders imp = length fs ∧
  length (events r) = length fs ∧
  length (items s') =
    length (items (cleared user clearExisting s)) + imported_items imp.
Proof.
  intros (s1 & Hfold & Hitems & Hlen)%replay_stages.
  split; [done|].
  apply (for_of_count (λ k acc st,
           length (events acc) = k
           ∧ items st = items (cleared user clearExisting s)))
    with (n := 0) in Hfold as [Hev Hit].
  - apply (for_of_count (λ _ m st, length (items st) = length (items s1) + m))
      with (n := 0) in Hitems.
    + rewrite Hitems, Hit. rewrite Nat.add_0_r in Hev. done.
    + intros k item m st m' st' Hinv Hstep.
      apply importItem_step in Hstep. lia.
    + lia.
  - intros k folder acc st acc' st' [Hlen' Hsame] Hstep.
    apply importFolder_step in Hstep as (e & -> & _ & ->).
    rewrite length_app. simpl. split; [lia|done].
  - done.
Qed.

(** The [folders] table grows by the insertions of the record. *)
Lemma replay_rows_inserted user clearExisting now fs its s imp r s' :
  replay user clearExisting now fs its s = (Done (imp, r), s') →
  length (folders s') =
    length (folders (cleared user clearExisting s)) + rows_inserted (events r).
Proof.
  intros (s1 & Hfold & Hitems & _)%replay_stages.
  apply (for_of_count (λ _ acc st,
           length (folders st) =
             length (folders (cleared user clearExisting s))
             + rows_inserted (events acc)))
    with (n := 0) in Hfold.
  - apply (for_of_count (λ _ (m : nat) st, folders st = folders s1))
      with (n := 0) in Hitems; [by rewrite Hitems| |done].
    intros k item m st m' st' Hinv. unfold importItem.
    destruct (bool_decide _); [by intros [= <- <-]|].
    destruct (negb _); [by intros [= <- <-]|].
    unfold bind.
    destruct (insert_item _ _ _ _ _ _ _ _ _) as [[row|e] s3] eqn:Hins; [|done].
    unfold ret. intros [= <- <-].
    apply insert_item_Done in Hins as (_ & _ & _ & _ & ->). done.
  - intros k folder acc st acc' st' Hinv Hstep.
    apply importFolder_step in Hstep as (e & -> & Hlen & _).
    rewrite rows_inserted_snoc. lia.
  - unfold rows_inserted. simpl. lia.
Qed.
End counting.

(** ** The import route *)

Section import_route.
Import Backup Observations.
Context `{Node}.
Context `{Scan}.

Lemma rollback_same_tables s s' : same_tables s (rollback s s').
Proof. done. Qed.

(** An import answered with an error has left the three tables alone. *)
Lemma importData_Err user body now s status error s' :
  importData user body now s = (Err status error, s') → same_tables s s'.
Proof.
  assert (Hearly : ∀ st e, (Err st e, s) = (@Err Imported status error, s') →
                          same_tables s s').
  { by intros st e [= _ _ <-]. }
  unfold importData.
  destruct (ib_backupData body) as [bundle|]; [|apply Hearly].
  destruct (negb _); [apply Hearly|].
  destruct (decryptBackup _ _) as [decrypted|]; [|apply Hearly].
  destruct (JSON_parse _) as [backup|]; [|apply Hearly].
  destruct (snap_folders backup) as [fs|]; [|apply Hearly].
  destruct (snap_items backup) as [its|]; [|apply Hearly].
  unfold catch, bind, transaction, ret.
  destruct (replay _ _ _ _ _ _) as [[r|e] s'']; [done|].
  intros [= _ _ <-]. apply rollback_same_tables.
Qed.

(** An import answered without error has decrypted and parsed a
    snapshot and replayed its two collections to the end. *)
Lemma importData_Ok user body now s status imp s' :
  importData user body now s = (Ok status imp, s') →
  ∃ bundle decrypted backup fs its r,
    ib_backupData body = Some bundle ∧
    decryptBackup (u_encryptionKey user) (base64_decode (data bundle))
      = Some decrypted ∧
    JSON_parse (utf8_decode decrypted) = Some backup ∧
    snap_folders backup = Some fs ∧ snap_items backup = Some its ∧
    replay user (ib_clearExisting body) now fs its s = (Done (imp, r), s').
Proof.
  unfold importData.
  destruct (ib_backupData body) as [bundle|] eqn:Hbundle; [|done].
  destruct (negb _); [done|].
  destruct (decryptBackup _ _) as [decrypted|] eqn:Hdec; [|done].
  destruct (JSON_parse _) as [backup|] eqn:Hparse; [|done].
  destruct (snap_folders backup) as [fs|] eqn:Hfs; [|done].
  destruct (snap_items backup) as [its|] eqn:Hits; [|done].
  unfold catch, bind, transaction, ret.
  destruct (replay _ _ _ _ _ _) as [[[imp' r]|e] s''] eqn:Hreplay; [|done].
  intros [= _ <- <-]. exists bundle, decrypted, backup, fs, its, r.
  by repeat split.
Qed.

(** C7 (failure semantics).  When the decipher step fails, when the
    decrypted text does not parse, or when the parsed snapshot lacks
    the folder or the item collection, the import route answers with an
    error and the store is the one it was given, whatever clearExisting
    says; and whenever the route answers with an error, also one thrown
    between BEGIN and COMMIT after deletes and inserts, the folders,
    items and item_versions tables are what they were before the
    call. *)
Theorem failed_import_leaves_tables (user : User) (body : ImportBody)
    (now : Z) (s : Store) :
  (∀ bundle,
      ib_backupData body = Some bundle →
      decryptBackup (u_encryptionKey user) (base64_decode (data bundle))
        = None →
      ∃ status error, importData user body now s = (Err status error, s)) ∧
  (∀ bundle decrypted,
      ib_backupData body = Some bundle →
      decryptBackup (u_encryptionKey user) (base64_decode (data bundle))
        = Some decrypted →
      (JSON_parse (utf8_decode decrypted) = None ∨
       ∃ backup, JSON_parse (utf8_decode decrypted) = Some backup ∧
                 (snap_folders backup = None ∨ snap_items backup = None)) →
      ∃ status error, importData user body now s = (Err status error, s)) ∧
  (∀ status error s',
      importData user body now s = (Err status error, s') →
      same_tables s s').
Proof.
  split; [|split].
  - intros bundle Hb Hdec. unfold importData. rewrite Hb, Hdec.
    destruct (negb _); eauto.
  - intros bundle decrypted Hb Hdec Hbad. unfold importData.
    rewrite Hb, Hdec. destruct (negb _); [by eauto|].
    destruct Hbad as [->|(backup & -> & [Hfs|Hits])]; [by eauto| |].
    + rewrite Hfs. eauto.
    + rewrite Hits. destruct (snap_folders backup); eauto.
  - apply importData_Err.
Qed.

(** C2 (returned counts), at the input where the code departs from it.
    For an accepted import, the items count is the number of rows added
    to [items], while the folders count is the number of rows added to
    [folders] plus the number of bundle folders mapped onto the existing
    root plus the number of bundle folders for which the INSERT met a
    conflict and nothing was inserted or mapped.  Replaying the snapshot
    of the sample account (Root, Work under Root, one item in each) into
    that same account with clearExisting false answers 2 folders and
    1 item: Root was mapped, Work was left out, [folders] is as before
    and only the item filed under Root was inserted. *)
Theorem imported_folders_counts_bundle_entries :
  (∀ user body now s status imp s',
      importData user body now s = (Ok status imp, s') →
      ∃ r : Replay,
        imported_folders imp =
          rows_inserted (events r) + folders_mapped (events r)
          + folders_left_out (events r) ∧
        length (folders s') =
          length (folders (cleared user (ib_clearExisting body) s))
          + rows_inserted (events r) ∧
        length (items s') =
          length (items (cleared user (ib_clearExisting body) s))
          + imported_items imp) ∧
  (let out :=
     replay Demo.alice false 5
       [Demo.folder 1 "Root" None; Demo.folder 2 "Work" (Some 1%Z)]
       [Demo.item 1 "A" "text" (Some "U2FsdGVkX18x") 1;
        Demo.item 2 "B" "secret" (Some "U2FsdGVkX19y") 2]
       Demo.store in
   out.1 = Done ({| imported_folders := 2; imported_items := 1 |},
                 {| folderMapping := {[1%Z := 1%Z]};
                    events := [MappedOntoRoot 1 1; NothingInserted 2] |}) ∧
   folders out.2 = folders Demo.store ∧
   i_name <$> items out.2 = ["A"]).
Proof.
  split.
  - intros user body now s status imp s' Hok.
    apply importData_Ok in Hok
      as (bundle & decrypted & backup & fs & its & r & _ & _ & _ & _ & _ & Hr).
    exists r.
    destruct (replay_counts _ _ _ _ _ _ _ _ _ Hr) as (Hfolders & Hevents & Hitems).
    split; [|split].
    + by rewrite Hfolders, <- Hevents, events_partition.
    + by eapply replay_rows_inserted.
    + done.
  - match goal with order : Scan |- _ => generalize order end.
    intros [rows_of Hperm].
    assert (∀ st g, rows_of st [g] = [g]) as Hone
      by (intros st g; apply Permutation_singleton_r, Hperm).
    vm_compute. rewrite !Hone. vm_compute. done.
Qed.
End import_route.

(** ** The client-side cipher *)

Section encryption_service.
Import Encryption.

(** C4 (round trip), as the code has it.  For every key and every
    plaintext that are well-formed strings, the plaintext not being the
    empty string, encrypt answers a ciphertext and decrypt with the same
    key answers the plaintext, without error; for the empty string
    decrypt throws; and for a plaintext or a key with a lone surrogate
    encrypt throws. *)
Theorem decrypt_encrypt_nonempty `{CryptoJS} (key text : Utf16)
    (salt : list Byte.byte) :
  (isWellFormed key = true → isWellFormed text = true → text ≠ [] →
   ∃ encryptedText,
     encrypt key salt text = Done encryptedText ∧
     decrypt key encryptedText = Done text) ∧
  (isWellFormed key = true → text = [] →
   ∃ encryptedText,
     encrypt key salt text = Done encryptedText ∧
     decrypt key encryptedText = Thrown "Failed to decrypt data") ∧
  (isWellFormed key = false ∨ isWellFormed text = false →
   encrypt key salt text = Thrown "Failed to encrypt data").
Proof.
  unfold encrypt, decrypt. split_and!.
  - intros Hkey Htext Hne.
    destruct (AES_decrypt_encrypt text key salt Htext Hkey) as (e & -> & Hdec).
    exists e. split; [done|]. rewrite Hdec.
    by rewrite bool_decide_eq_false_2.
  - intros Hkey ->.
    destruct (AES_decrypt_encrypt [] key salt eq_refl Hkey) as (e & -> & Hdec).
    exists e. split; [done|]. by rewrite Hdec.
  - intros Hbad. rewrite AES_encrypt_malformed; [done|].
    apply andb_false_iff. by destruct Hbad; [right|left].
Qed.
End encryption_service.

(** ** The other routes *)

Section list_lemmas.
Context {A : Type}.


End list_lemmas.

Section pin_toggle.
Import Items Observations.




End pin_toggle.

Section key_lemmas.
Context {A : Type}.

Lemma filter_unique (key : A → Z) (P : A → Prop) `{∀ x, Decision (P x)}
    (l : list A) (x : A) :
  NoDup (key <$> l) → x ∈ l → P x → (∀ y, y ∈ l → P y → key y = key x) →
  filter P l = [x].
Proof.
  intros Hnd Hx HP Hkey. induction l as [|y l IH]; [by apply elem_of_nil in Hx|].
  rewrite fmap_cons in Hnd. apply NoDup_cons in Hnd as [Hy Hnd].
  rewrite filter_cons. apply elem_of_cons in Hx as [->|Hx].
  - rewrite decide_True by done. f_equal. apply filter_none.
    intros z Hz HPz. apply Hy. rewrite <- (Hkey z) by (by (right) || done).
    apply list_elem_of_fmap. by exists z.
  - destruct (decide (P y)) as [HPy|HPy].
    + exfalso. apply Hy. rewrite (Hkey y) by (by (left) || done).
      apply list_elem_of_fmap. by exists x.
    + apply IH; [done..|]. intros z Hz. apply Hkey. by right.
Qed.
End key_lemmas.

Section item_reads.
Import Items Observations.

Lemma getItem_run user id now s row :
  NoDup (i_id <$> items s) →
  row ∈ items s → i_id row = id → i_user_id row = u_id user →
  i_folder_id row ∈ f_id <$> folders s →
  (i_access_count row < INTEGER_max)%Z →
  ∃ folder_name,
    getItem user id now s =
      (Ok 200 (row, folder_name),
       with_items ((λ r, if bool_decide (i_id r = id) then accessed_item now r
                         else r) <$> items s) s).
Proof.
  intros Hnd Hrow Hid Huser Hfolder Hcount.
  unfold getItem, update_access, select_items_join_folders. run_route.
  rewrite (filter_unique i_id _ (items s) row); [|done..|by intros y _ [-> _]].
  apply list_elem_of_fmap in Hfolder as (g & Hg & Hgin).
  assert (g ∈ filter (λ f, f_id f = i_folder_id row) (folders s)) as Hin
    by (by apply list_elem_of_filter).
  simpl. destruct (filter _ (folders s)) as [|g' l]; [by apply elem_of_nil in Hin|].
  simpl. exists (f_name g').
  assert (filter (λ r, bool_decide (i_id r = id)) (items s) = [row]) as ->.
  { apply (filter_unique i_id); [done..|by apply bool_decide_pack|].
    intros y _ Hy%bool_decide_unpack. congruence. }
  simpl. rewrite bool_decide_eq_true_2 by lia. done.
Qed.

(** X2 (access counter).  Every read of an item is answered with the
    row as it was before the read and raises the stored counter by one:
    after [k] reads the counter stands [k] higher, the next read still
    reports the counter of the read before, and the row it leaves
    carries the time of that read.  The counter is an INTEGER, so the
    reads must stay below 2^31 - 1. *)
Theorem reads_are_counted (user : User) (id : Z) (nows : list Z) (now : Z)
    (s : Store) (row : Item) :
  NoDup (i_id <$> items s) →
  row ∈ items s → i_id row = id → i_user_id row = u_id user →
  i_folder_id row ∈ f_id <$> folders s →
  (i_access_count row + Z.of_nat (length nows) < INTEGER_max)%Z →
  ∃ answered folder_name,
    getItem user id now (read_item user id nows s) =
      (Ok 200 (answered, folder_name), read_item user id (nows ++ [now]) s) ∧
    i_access_count answered = (i_access_count row + Z.of_nat (length nows))%Z ∧
    accessed_item now answered ∈ items (read_item user id (nows ++ [now]) s) ∧
    folders (read_item user id (nows ++ [now]) s) = folders s ∧
    item_versions (read_item user id (nows ++ [now]) s) = item_versions s.
Proof.
  revert s row. induction nows as [|n nows IH]; intros s row Hnd Hrow Hid Huser Hfolder Hcount.
  - simpl in *. destruct (getItem_run user id now s row) as (fname & Hget);
      [done..|lia|].
    exists row, fname. unfold read_item. simpl. rewrite Hget. simpl.
    split_and!; [done|lia| |done..].
    apply list_elem_of_fmap. exists row. by rewrite bool_decide_eq_true_2.
  - destruct (getItem_run user id n s row) as (fname & Hget);
      [done..|simpl in Hcount; lia|].
    unfold read_item in *. simpl. rewrite Hget. simpl.
    set (s1 := with_items _ s).
    destruct (IH s1 (accessed_item n row)) as (answered & fname' & H1 & H2 & H3 & H4 & H5).
    + unfold s1. simpl. rewrite <- list_fmap_compose.
      erewrite list_fmap_ext; [exact Hnd|]. intros _ r _. simpl.
      by case_bool_decide.
    + unfold s1. simpl. apply list_elem_of_fmap. exists row.
      by rewrite bool_decide_eq_true_2.
    + done.
    + done.
    + done.
    + simpl in *. lia.
    + exists answered, fname'. split_and!; [done| |done..].
      rewrite H2. simpl. lia.
Qed.
End item_reads.

Section frequent_items.
Import Items Observations.

Local Instance frequent_first_total : Total frequent_first.
Proof.
  intros a b. unfold frequent_first.
  destruct (i_is_pinned a.1), (i_is_pinned b.1); simpl;
    repeat (destruct (decide _); try done); try congruence; try lia; eauto.
  all: destruct (i_last_accessed a.1), (i_last_accessed b.1); try lia; eauto.
Qed.

Local Instance frequent_first_trans : Transitive frequent_first.
Proof.
  intros a b c. unfold frequent_first.
  destruct (i_is_pinned a.1), (i_is_pinned b.1), (i_is_pinned c.1); simpl;
    repeat (destruct (decide _); try done); try congruence; try lia.
  all: destruct (i_last_accessed a.1), (i_last_accessed b.1),
         (i_last_accessed c.1); try done; try lia.
Qed.

Lemma elem_of_take_elem {A} (x : A) n (l : list A) : x ∈ take n l → x ∈ l.
Proof. intros (i & Hi & _)%elem_of_take. by eapply list_elem_of_lookup_2. Qed.

Lemma StronglySorted_take {A} (R : relation A) n (l : list A) :
  StronglySorted R l → StronglySorted R (take n l).
Proof.
  intros Hl. revert n. induction Hl as [|x l Hl IH Hx]; intros [|n]; simpl;
    try constructor; [apply IH|].
  apply Forall_forall. intros y Hy. rewrite Forall_forall in Hx. apply Hx.
  by eapply elem_of_take_elem.
Qed.

(** X3 (frequent items).  The route answers 200 with at most 20 rows
    and leaves the store alone; the rows are in the order of the query
    (pinned before unpinned, then by falling access count, then by
    falling time of the last access with NULL first), so no unpinned
    row comes before a pinned one; and every row is an item of the
    caller that is pinned or was read, with the name of its folder. *)
Theorem frequent_view (user : User) (s : Store) :
  ∃ rows,
    getFrequentItems user s = (Ok 200 rows, s) ∧
    length rows ≤ 20 ∧
    StronglySorted frequent_first rows ∧
    (∀ before row after,
        rows = before ++ row :: after → i_is_pinned row.1 = true →
        ∀ r, r ∈ before → i_is_pinned r.1 = true) ∧
    (∀ row, row ∈ rows →
        row.1 ∈ items s ∧ i_user_id row.1 = u_id user ∧
        ((0 < i_access_count row.1)%Z ∨ i_is_pinned row.1 = true) ∧
        ∃ g, g ∈ folders s ∧ f_id g = i_folder_id row.1 ∧ f_name g = row.2).
Proof.
  unfold getFrequentItems, select_items_join_folders. run_route.
  eexists. split; [done|].
  set (joined := filter _ (items s) ≫= _).
  assert (StronglySorted frequent_first (take 20 (merge_sort frequent_first joined)))
    as Hsorted.
  { apply StronglySorted_take, StronglySorted_merge_sort; apply _. }
  split_and!.
  - rewrite length_take. lia.
  - done.
  - intros before row after Heq Hpin r Hr. rewrite Heq in Hsorted.
    assert (frequent_first r row) as Hfirst.
    { eapply StronglySorted_app_1_elem_of; [done..|left]. }
    unfold frequent_first in Hfirst. destruct (decide _) as [He|]; [|done].
    congruence.
  - intros row Hrow. apply elem_of_take_elem in Hrow.
    rewrite merge_sort_Permutation in Hrow. unfold joined in Hrow.
    apply list_elem_of_bind in Hrow as (i & Hrow & Hi).
    apply list_elem_of_filter in Hi as [[Hu Hq] Hi].
    apply list_elem_of_fmap in Hrow as (g & -> & Hg).
    apply list_elem_of_filter in Hg as [Hg Hgin]. simpl.
    split_and!; [done..|]. by exists g.
Qed.
End frequent_items.

Section folder_routes.
Import Folders Observations.


Lemma or_null_Some parentId p : or_null parentId = Some p → parentId = Some p ∧ p ≠ 0%Z.
Proof.
  unfold or_null, truthy_opt, truthy_num. destruct parentId as [q|]; [|done].
  case_bool_decide; simpl; [done|]. by intros [= ->].
Qed.

Lemma or_null_None parentId :
  or_null parentId = None → truthy_opt truthy_num parentId = false.
Proof.
  unfold or_null. by destruct (truthy_opt truthy_num parentId) eqn:Ht; [intros ->|].
Qed.

Lemma varchar_true n name : String.length name ≤ n → varchar n name = true.
Proof. intros. unfold varchar. by apply bool_decide_eq_true_2. Qed.

Lemma serial_fresh_folder s : serial_ids s → folders_id_seq s ∉ f_id <$> folders s.
Proof.
  intros (Hf & _) (g & Hg & Hin)%list_elem_of_fmap. apply Hf in Hin. lia.
Qed.

Lemma insert_folder_Done user name parent now s :
  serial_ids s → String.length name ≤ 255 →
  (∀ p, parent = Some p →
        p ∈ f_id <$> folders s ∧ ∀ d, ¬ sibling_named user s name p d) →
  insert_folder name parent (u_id user) now s =
    (Done (created_folder user name parent now s),
     with_created_folder (created_folder user name parent now s) s).
Proof.
  intros Hserial Hlen Hparent. unfold insert_folder, bind, nextval_folders.
  rewrite varchar_true by done. simpl.
  assert (existsb (folder_conflict (folders_id_seq s) name parent (u_id user))
            (folders s) = false) as ->.
  { apply not_true_is_false. intros (g & Hg & Hc)%existsb_exists.
    apply list_elem_of_In in Hg.
    unfold folder_conflict in Hc. apply orb_true_iff in Hc as [Hc|Hc].
    - apply bool_decide_eq_true in Hc. apply (serial_fresh_folder s Hserial).
      rewrite <- Hc. apply list_elem_of_fmap. by exists g.
    - destruct parent as [p|]; [|done]. apply bool_decide_eq_true in Hc.
      destruct (Hparent p eq_refl) as [_ Hno]. apply (Hno g).
      by destruct Hc as (? & ? & ?). }
  assert (from_option (λ p, bool_decide (p ∈ f_id <$> folders s)) true parent
          = true) as ->.
  { destruct parent as [p|]; [|done]. simpl. apply bool_decide_eq_true_2.
    by apply Hparent. }
  done.
Qed.

(** The create route on a request that passes both checks. *)
Lemma createFolder_created (user : User) (name : string)
    (parentId : option Z) (now : Z) (s : Store) :
  serial_ids s → name ≠ "" → String.length name ≤ 255 →
  (∀ p, or_null parentId = Some p →
        owns_folder user s p ∧ ∀ d, ¬ sibling_named user s name p d) →
  let row := created_folder user name (or_null parentId) now s in
  createFolder user {| fd_name := Some name; fd_parentId := parentId |} now s =
    (Ok 201 row, with_created_folder row s).
Proof.
  intros Hserial Hname Hlen Hok row.
  assert (truthy_str name = true) as Htruthy.
  { unfold truthy_str. by rewrite bool_decide_eq_false_2. }
  assert (∀ p, or_null parentId = Some p →
            parentCheck user parentId s =
              (Done (filter (λ f, f_id f = p ∧ f_user_id f = u_id user) (folders s)), s)
            ∧ truthy_opt truthy_num parentId = true) as Hcheck.
  { intros p [-> Hp]%or_null_Some. unfold parentCheck, truthy_opt, truthy_num.
    by rewrite bool_decide_eq_false_2. }
  assert (or_null parentId = None →
            parentCheck user parentId s = (Done [], s)) as Hnocheck.
  { intros Hnone%or_null_None. unfold parentCheck. destruct parentId as [q|]; [|done].
    simpl in Hnone. by rewrite Hnone. }
  unfold createFolder. simpl. rewrite Htruthy. simpl. unfold catch, bind.
  assert (filter (λ f, f_name f = name
            ∧ sql_eq (f_parent_id f) (or_null parentId)
            ∧ f_user_id f = u_id user) (folders s) = []) as Hnodup.
  { apply filter_none. intros d Hd (Hdn & (p & Hdp & Hp) & Hdu).
    destruct (Hok p Hp) as [_ Hno]. by apply (Hno d). }
  assert (insert_folder name (or_null parentId) (u_id user) now s =
            (Done row, with_created_folder row s)) as Hins.
  { apply insert_folder_Done; [done..|]. intros p Hp.
    destruct (Hok p Hp) as [(g & Hg & Hgid & _) Hno]. split; [|done].
    apply list_elem_of_fmap. by exists g. }
  destruct (or_null parentId) as [p|] eqn:Hp.
  - destruct (Hcheck p eq_refl) as [Hc Ht]. rewrite Hc, Ht.
    destruct (Hok p eq_refl) as [(g & Hg & Hgid & Hgu) _].
    assert (g ∈ filter (λ f, f_id f = p ∧ f_user_id f = u_id user) (folders s))
      as Hin by (by apply list_elem_of_filter).
    destruct (filter (λ f, f_id f = p ∧ _) (folders s)) as [|g' l];
      [by apply elem_of_nil in Hin|].
    rewrite bool_decide_eq_false_2 by done. simpl. unfold select_folders.
    rewrite Hnodup, Hins. done.
  - rewrite (Hnocheck eq_refl), (or_null_None _ Hp). simpl.
    unfold select_folders. rewrite Hnodup, Hins. done.
Qed.
End folder_routes.

Section folder_update.
Import Folders Observations.

Lemma update_folder_run user id name parent now s :
  update_folder name parent id (u_id user) now s =
    if forallb (folder_row_ok s (folder_target user id))
         (folder_change user id name parent now <$>
            filter (λ r, folder_target user id r) (folders s))
    then (Done (folder_change user id name parent now <$>
                  filter (λ r, folder_target user id r) (folders s)),
          with_folders (folder_change user id name parent now <$> folders s) s)
    else (Thrown "UPDATE folders: constraint violated", s).
Proof. done. Qed.




End folder_update.

Section folder_consequences.
Import Folders Observations.

Lemma deleteFolder_run user id s g :
  NoDup (f_id <$> folders s) → g ∈ folders s → f_id g = id →
  f_user_id g = u_id user → f_name g ≠ "Root" →
  deleteFolder user id s =
    (Ok 200 "Folder deleted successfully",
     delete_folders (λ f, bool_decide (f_id f = id ∧ f_user_id f = u_id user)) s).
Proof.
  intros Hnd Hg Hid Hu Hname. unfold deleteFolder. run_route.
  rewrite (filter_unique f_id _ (folders s) g); [|done..|by intros y _ [-> _]].
  by rewrite bool_decide_eq_false_2.
Qed.

Lemma folder_change_id user id name parent now r :
  f_id (folder_change user id name parent now r) = f_id r.
Proof. unfold folder_change. by destruct (folder_target user id r). Qed.

Lemma folder_change_ids user id name parent now (fs : list Folder) :
  f_id <$> (folder_change user id name parent now <$> fs) = f_id <$> fs.
Proof.
  rewrite <- list_fmap_compose. apply list_fmap_ext. intros _ r _.
  apply folder_change_id.
Qed.




(** X5 (duplicates at the top level).  A second folder of a name that a
    top-level folder of the caller already has is accepted at the top
    level: the check for duplicates compares [parent_id] with NULL and
    finds nothing, and neither does the UNIQUE constraint.  So an
    account can come to hold two parentless folders called Root. *)
Theorem top_level_names_are_not_unique (user : User) (now : Z) (s : Store)
    (f : Folder) :
  serial_ids s →
  f ∈ folders s → f_parent_id f = None → f_user_id f = u_id user →
  f_name f ≠ "" → String.length (f_name f) ≤ 255 →
  ∃ row s',
    createFolder user {| fd_name := Some (f_name f); fd_parentId := None |}
      now s = (Ok 201 row, s') ∧
    f ∈ folders s' ∧ row ∈ folders s' ∧ row ≠ f ∧
    f_name row = f_name f ∧ f_parent_id row = None ∧
    f_user_id row = f_user_id f.
Proof.
  intros Hserial Hf Hparent Hu Hname Hlen.
  pose proof (createFolder_created user (f_name f) None now s Hserial Hname Hlen)
    as Hok.
  cbv zeta in Hok.
  rewrite Hok by (intros p Hp; by cbv in Hp).
  eexists _, _. split; [done|]. simpl. split_and!; try done.
  - apply elem_of_app. by left.
  - apply elem_of_app. right. left.
  - intros Heq. apply (serial_fresh_folder s Hserial).
    apply list_elem_of_fmap. exists f. split; [by rewrite <- Heq|done].
Qed.



End folder_consequences.

Section statement_lemmas.
Import Observations.

Lemma filter_fmap_frame {A} (P : A → Prop) `{∀ x, Decision (P x)} (f : A → A)
    (l : list A) :
  (∀ x, x ∈ l → (P (f x) ↔ P x) ∧ (P x → f x = x)) →
  filter P (f <$> l) = filter P l.
Proof.
  induction l as [|x l IH]; intros Hf; [done|].
  rewrite fmap_cons, !filter_cons.
  destruct (Hf x) as [Hiff Hsame]; [by left|].
  rewrite IH by (intros y Hy; apply Hf; by right).
  destruct (decide (P x)) as [Hx|Hx].
  - rewrite decide_True by (by apply Hiff). by rewrite Hsame.
  - by rewrite decide_False by (by rewrite Hiff).
Qed.

Lemma filter_filter_frame {A} (P Q : A → Prop) `{∀ x, Decision (P x)}
    `{∀ x, Decision (Q x)} (l : list A) :
  (∀ x, x ∈ l → P x → Q x) → filter P (filter Q l) = filter P l.
Proof.
  induction l as [|x l IH]; intros Hf; [done|].
  rewrite !filter_cons.
  assert (filter P (filter Q l) = filter P l) as IH'
    by (apply IH; intros y Hy; apply Hf; by right).
  clear IH; rename IH' into IH.
  destruct (decide (Q x)) as [Hq|Hq].
  - rewrite filter_cons. destruct (decide (P x)); by rewrite IH.
  - rewrite IH. rewrite decide_False; [done|].
    intros Hp. apply Hq, Hf; [by left|done].
Qed.

Lemma filter_snoc_out {A} (P : A → Prop) `{∀ x, Decision (P x)} (l : list A) x :
  ¬ P x → filter P (l ++ [x]) = filter P l.
Proof.
  intros Hx. rewrite filter_app, filter_cons, decide_False by done.
  by rewrite filter_nil, app_nil_r.
Qed.

Lemma statement_sequences_le user s s' : statement user s s' → sequences_le s s'.
Proof.
  destruct 1 as [| | | | |hit -> _|hit -> _]; try done;
    unfold sequences_le; simpl; lia.
Qed.

Lemma sequences_le_trans s1 s2 s3 :
  sequences_le s1 s2 → sequences_le s2 s3 → sequences_le s1 s3.
Proof. unfold sequences_le. lia. Qed.

Lemma statements_sequences_le user s s' :
  rtc (statement user) s s' → sequences_le s s'.
Proof.
  induction 1 as [|s1 s2 s3 H12 _ IH]; [unfold sequences_le; lia|].
  eapply sequences_le_trans; [by eapply statement_sequences_le|done].
Qed.

(** Membership in the tables after DELETE FROM items / folders *)
Lemma delete_items_items hit s i :
  i ∈ items (delete_items hit s) ↔ i ∈ items s ∧ hit i = false.
Proof.
  unfold delete_items. simpl. rewrite list_elem_of_filter.
  destruct (hit i); simpl.
  - split; [by intros [[] _]|by intros [_ ?]].
  - split; intros [? ?]; (split; [|done]); [done|by intros []].
Qed.

Lemma delete_items_versions hit s v :
  NoDup (i_id <$> items s) →
  (∀ v, v ∈ item_versions s → v_item_id v ∈ i_id <$> items s) →
  v ∈ item_versions (delete_items hit s) ↔
  v ∈ item_versions s ∧
  ∃ i, i ∈ items (delete_items hit s) ∧ i_id i = v_item_id v.
Proof.
  intros Hnd Hfk. unfold delete_items at 1. simpl. rewrite list_elem_of_filter.
  split.
  - intros [Hdead Hv]. split; [done|].
    apply Hfk in Hv as Hi. apply list_elem_of_fmap in Hi as (i & Hid & Hi).
    exists i. split; [|done]. apply delete_items_items. split; [done|].
    apply not_true_is_false. intros Hhit. apply Hdead. rewrite Hid.
    apply list_elem_of_fmap. exists i. split; [done|].
    apply list_elem_of_filter. split; [by apply Is_true_true|done].
  - intros (Hv & i & Hi & Hid). split; [|done].
    apply delete_items_items in Hi as [Hi Hhit].
    intros (j & Hjid & Hj)%list_elem_of_fmap.
    apply list_elem_of_filter in Hj as [Hjhit Hj].
    assert (j = i) as -> by (apply (key_unique i_id (items s)); [done..|congruence]).
    apply Is_true_true in Hjhit. congruence.
Qed.

Lemma delete_items_folders hit s : folders (delete_items hit s) = folders s.
Proof. done. Qed.

Lemma delete_folders_items hit s i :
  NoDup (f_id <$> folders s) →
  (∀ i, i ∈ items s → i_folder_id i ∈ f_id <$> folders s) →
  i ∈ items (delete_folders hit s) ↔
  i ∈ items s ∧
  ∃ g, g ∈ folders (delete_folders hit s) ∧ f_id g = i_folder_id i.
Proof.
  intros Hnd Hfk. split.
  - intros Hi. unfold delete_folders in Hi. apply delete_items_items in Hi as [Hi Hhit].
    simpl in Hi. split; [done|]. apply Hfk in Hi as Hg.
    apply list_elem_of_fmap in Hg as (g & Hid & Hg). exists g. split; [|done].
    apply delete_folders_doomed; [done|]. split; [done|].
    intros Hdoomed%cascades_doomed; [|done].
    apply bool_decide_eq_false in Hhit. apply Hhit. rewrite Hid.
    apply list_elem_of_fmap. exists g. split; [done|].
    apply list_elem_of_filter. split; [by apply Is_true_true|done].
  - intros (Hi & g & Hg & Hid). unfold delete_folders.
    apply delete_items_items. split; [done|].
    apply bool_decide_eq_false_2. intros (g' & Hid' & Hg')%list_elem_of_fmap.
    apply list_elem_of_filter in Hg' as [Hgone Hg'].
    apply delete_folders_doomed in Hg as [Hg Hnot]; [|done].
    assert (g' = g) as -> by (apply (key_unique f_id (folders s)); [done..|congruence]).
    apply Hnot, cascades_doomed; [done|]. by apply Is_true_true.
Qed.

Lemma delete_folders_sublist hit s :
  (∀ f, f ∈ folders (delete_folders hit s) → f ∈ folders s) ∧
  (∀ i, i ∈ items (delete_folders hit s) → i ∈ items s) ∧
  (∀ v, v ∈ item_versions (delete_folders hit s) → v ∈ item_versions s).
Proof.
  unfold delete_folders, delete_items. simpl.
  split_and!; intros x Hx; by apply list_elem_of_filter in Hx as [_ Hx].
Qed.

Lemma doomed_owned user hit fs f :
  NoDup (f_id <$> fs) →
  (∀ f g, f ∈ fs → g ∈ fs → f_parent_id f = Some (f_id g) →
          f_user_id g = f_user_id f) →
  (∀ f, f ∈ fs → hit f = true → f_user_id f = user) →
  f ∈ fs → doomed fs hit f → f_user_id f = user.
Proof.
  intros Hnd Hlinks Hhit Hf Hdoomed.
  induction Hdoomed as [f Hh|f g Hg Hparent _ IH]; [by apply Hhit|].
  rewrite <- (Hlinks f g) by done. by apply IH.
Qed.

End statement_lemmas.

Section statement_invariants.
Import Observations.

Lemma NoDup_snoc_key {A} (key : A → Z) (l : list A) (x : A) :
  NoDup (key <$> l) → key x ∉ key <$> l → NoDup (key <$> (l ++ [x])).
Proof.
  intros Hnd Hx. rewrite fmap_app. apply NoDup_app. split_and!; [done| |].
  - intros y Hy [->|[]%elem_of_nil]%elem_of_cons. done.
  - simpl. apply NoDup_singleton.
Qed.

Lemma NoDup_filter_key {A} (key : A → Z) (P : A → Prop) `{∀ x, Decision (P x)}
    (l : list A) :
  NoDup (key <$> l) → NoDup (key <$> filter P l).
Proof. apply key_unique_filter. Qed.

Lemma statement_consistent user s s' :
  statement user s s' → consistent s → consistent s'.
Proof.
  intros Hst ((Hpf & Hpi & Hpv) & (Hff & Hfi & Hfv) & (Hsf & Hsi & Hsv & H1 & H2 & H3)).
  destruct Hst as
    [(Hf & Hi & Hv) Hle
    |row Hf Hi Hv Hle Hid Hfresh Hu Hparent
    |row Hf Hi Hv Hle Hid Hfresh Hu Hfolder
    |row Hf Hi Hv Hle Hid Hfresh Hitem
    |change Hf Hi Hv Hle Hchange
    |hit -> Hhit
    |hit -> Hhit].
  - (* reads *)
    destruct Hle as (L1 & L2 & L3).
    unfold consistent, primary_keys, foreign_keys, serial_ids.
    rewrite Hf, Hi, Hv. split_and!; try done; try lia.
    + intros f Hin. apply Hsf in Hin. lia.
    + intros i Hin. apply Hsi in Hin. lia.
    + intros v Hin. apply Hsv in Hin. lia.
  - (* a folder row *)
    destruct Hle as (L1 & L2 & L3).
    unfold consistent, primary_keys, foreign_keys, serial_ids.
    rewrite Hf, Hi, Hv. split_and!; try done; try lia.
    + by apply NoDup_snoc_key.
    + intros f p [Hin|Hin]%elem_of_app Hp; rewrite fmap_app; apply elem_of_app; left.
      * by apply (Hff f).
      * apply list_elem_of_singleton in Hin as ->.
        destruct (Hparent p Hp) as (g & Hg & Hgid & _).
        apply list_elem_of_fmap. by exists g.
    + intros i Hin. rewrite fmap_app. apply elem_of_app. left. by apply Hfi.
    + intros f [Hin|Hin]%elem_of_app.
      * apply Hsf in Hin. lia.
      * apply list_elem_of_singleton in Hin as ->. lia.
    + intros i Hin. apply Hsi in Hin. lia.
    + intros v Hin. apply Hsv in Hin. lia.
  - (* an item row *)
    destruct Hle as (L1 & L2 & L3).
    unfold consistent, primary_keys, foreign_keys, serial_ids.
    rewrite Hf, Hi, Hv. split_and!; try done; try lia.
    + by apply NoDup_snoc_key.
    + intros i [Hin|Hin]%elem_of_app; [by apply Hfi|].
      apply list_elem_of_singleton in Hin as ->.
      destruct Hfolder as (g & Hg & Hgid & _).
      apply list_elem_of_fmap. by exists g.
    + intros v Hin. rewrite fmap_app. apply elem_of_app. left. by apply Hfv.
    + intros f Hin. apply Hsf in Hin. lia.
    + intros i [Hin|Hin]%elem_of_app.
      * apply Hsi in Hin. lia.
      * apply list_elem_of_singleton in Hin as ->. lia.
    + intros v Hin. apply Hsv in Hin. lia.
  - (* a version row *)
    destruct Hle as (L1 & L2 & L3).
    unfold consistent, primary_keys, foreign_keys, serial_ids.
    rewrite Hf, Hi, Hv. split_and!; try done; try lia.
    + by apply NoDup_snoc_key.
    + intros v [Hin|Hin]%elem_of_app; [by apply Hfv|].
      apply list_elem_of_singleton in Hin as ->.
      destruct Hitem as (i & Hi' & Hiid & _).
      apply list_elem_of_fmap. by exists i.
    + intros f Hin. apply Hsf in Hin. lia.
    + intros i Hin. apply Hsi in Hin. lia.
    + intros v [Hin|Hin]%elem_of_app.
      * apply Hsv in Hin. lia.
      * apply list_elem_of_singleton in Hin as ->. lia.
  - (* changed item rows *)
    destruct Hle as (L1 & L2 & L3).
    assert (i_id <$> (change <$> items s) = i_id <$> items s) as Hids.
    { rewrite <- list_fmap_compose. apply list_fmap_ext. intros k r Hr.
      simpl. apply Hchange. by eapply list_elem_of_lookup_2. }
    unfold consistent, primary_keys, foreign_keys, serial_ids.
    rewrite Hf, Hi, Hv, Hids. split_and!; try done; try lia.
    + intros i' (r & -> & Hr)%list_elem_of_fmap.
      destruct (Hchange r Hr) as (_ & _ & [->|(_ & [->|(g & Hg & Hgid & _)])]).
      * by apply Hfi.
      * by apply Hfi.
      * apply list_elem_of_fmap. by exists g.
    + intros f Hin. apply Hsf in Hin. lia.
    + intros i' (r & -> & Hr)%list_elem_of_fmap.
      destruct (Hchange r Hr) as (-> & _). apply Hsi in Hr. lia.
    + intros v Hin. apply Hsv in Hin. lia.
  - (* deleted items *)
    unfold consistent, primary_keys, foreign_keys, serial_ids.
    split_and!; try done.
    + unfold delete_items; simpl. by apply NoDup_filter_key.
    + unfold delete_items; simpl. by apply NoDup_filter_key.
    + intros i [Hin _]%delete_items_items. by apply Hfi.
    + intros v (Hv & i & Hi & Hid)%delete_items_versions; [|done..].
      apply list_elem_of_fmap. by exists i.
    + intros i [Hin _]%delete_items_items. by apply Hsi.
    + intros v (Hv & _)%delete_items_versions; [|done..]. by apply Hsv.
  - (* deleted folders *)
    destruct (delete_folders_sublist hit s) as (Subf & Subi & Subv).
    unfold consistent, primary_keys, foreign_keys, serial_ids.
    split_and!; try done.
    + unfold delete_folders, delete_items; simpl. by apply NoDup_filter_key.
    + unfold delete_folders, delete_items; simpl. by apply NoDup_filter_key.
    + unfold delete_folders, delete_items; simpl. by apply NoDup_filter_key.
    + intros f p Hin Hp.
      apply delete_folders_doomed in Hin as [Hin Hnot]; [|done].
      pose proof (Hff f p Hin Hp) as (g & Hgid & Hg)%list_elem_of_fmap.
      apply list_elem_of_fmap. exists g. split; [done|].
      apply delete_folders_doomed; [done|]. split; [done|].
      intros Hdoomed. apply Hnot. apply (doomed_child _ _ f g); [done|congruence|done].
    + intros i (Hin & g & Hg & Hgid)%delete_folders_items; [|done..].
      apply list_elem_of_fmap. by exists g.
    + intros v Hin. unfold delete_folders in Hin.
      apply delete_items_versions in Hin as (Hv & i & Hi & Hid); [|done..].
      apply list_elem_of_fmap. by exists i.
    + intros f Hin. by apply Hsf, Subf.
    + intros i Hin. by apply Hsi, Subi.
    + intros v Hin. by apply Hsv, Subv.
Qed.

End statement_invariants.

Section statement_accounts.
Import Observations.

Lemma statement_owned_links user s s' :
  statement user s s' → consistent s → owned_links s → owned_links s'.
Proof.
  intros Hst ((Hpf & Hpi & Hpv) & (Hff & Hfi & Hfv) & _) [Lf Li].
  destruct Hst as
    [(Hf & Hi & Hv) Hle
    |row Hf Hi Hv Hle Hid Hfresh Hu Hparent
    |row Hf Hi Hv Hle Hid Hfresh Hu Hfolder
    |row Hf Hi Hv Hle Hid Hfresh Hitem
    |change Hf Hi Hv Hle Hchange
    |hit -> Hhit
    |hit -> Hhit].
  - unfold owned_links. by rewrite Hf, Hi.
  - unfold owned_links. rewrite Hf, Hi. split.
    + intros f g [Hfin|Hfin]%elem_of_app [Hgin|Hgin]%elem_of_app Hp.
      * by apply Lf.
      * apply list_elem_of_singleton in Hgin as ->. destruct Hfresh.
        by apply (Hff f).
      * apply list_elem_of_singleton in Hfin as ->.
        destruct (Hparent _ Hp) as (g' & Hg' & Hgid & Hgu).
        assert (g' = g) as -> by (by apply (key_unique f_id (folders s))).
        congruence.
      * apply list_elem_of_singleton in Hfin as ->.
        apply list_elem_of_singleton in Hgin as ->.
        destruct (Hparent _ Hp) as (g' & Hg' & Hgid & Hgu). destruct Hfresh.
        apply list_elem_of_fmap. by exists g'.
    + intros i g Hiin [Hgin|Hgin]%elem_of_app Hfolder; [by apply Li|].
      apply list_elem_of_singleton in Hgin as ->. destruct Hfresh.
      rewrite <- Hfolder. by apply Hfi.
  - unfold owned_links. rewrite Hf, Hi. split; [done|].
    intros i g [Hiin|Hiin]%elem_of_app Hgin Hfo; [by apply Li|].
    apply list_elem_of_singleton in Hiin as ->.
    destruct Hfolder as (g' & Hg' & Hgid & Hgu).
    assert (g' = g) as -> by (apply (key_unique f_id (folders s)); [done..|congruence]).
    congruence.
  - unfold owned_links. by rewrite Hf, Hi.
  - unfold owned_links. rewrite Hf, Hi. split; [done|].
    intros i' g (r & -> & Hr)%list_elem_of_fmap Hgin Hfo.
    destruct (Hchange r Hr) as (_ & Hu & [Hsame|(Hru & [Hsame|(g' & Hg' & Hgid & Hgu)])]).
    + rewrite Hsame in *. by apply Li.
    + rewrite Hu. apply Li; [done..|congruence].
    + assert (g' = g) as ->
        by (apply (key_unique f_id (folders s)); [done..|congruence]).
      congruence.
  - unfold owned_links. rewrite delete_items_folders. split; [done|].
    intros i g [Hiin _]%delete_items_items Hg. by apply Li.
  - destruct (delete_folders_sublist hit s) as (Subf & Subi & _). split.
    + intros f g Hfin Hgin. apply Lf; by apply Subf.
    + intros i g Hiin Hgin. apply Li; [by apply Subi|by apply Subf].
Qed.

Lemma versions_of_frame user s s' :
  items_of user s' = items_of user s → item_versions s' = item_versions s →
  versions_of user s' = versions_of user s.
Proof. unfold versions_of. by intros -> ->. Qed.

Lemma statement_other_rows user other s s' :
  statement user s s' → consistent s → owned_links s → user ≠ other →
  folders_of other s' = folders_of other s ∧
  items_of other s' = items_of other s ∧
  versions_of other s' = versions_of other s.
Proof.
  intros Hst ((Hpf & Hpi & Hpv) & (Hff & Hfi & Hfv) & _) [Lf Li] Hne.
  destruct Hst as
    [(Hf & Hi & Hv) Hle
    |row Hf Hi Hv Hle Hid Hfresh Hu Hparent
    |row Hf Hi Hv Hle Hid Hfresh Hu Hfolder
    |row Hf Hi Hv Hle Hid Hfresh Hitem
    |change Hf Hi Hv Hle Hchange
    |hit -> Hhit
    |hit -> Hhit].
  - unfold folders_of, items_of, versions_of, items_of. by rewrite Hf, Hi, Hv.
  - assert (items_of other s' = items_of other s) as Hio
      by (unfold items_of; by rewrite Hi).
    split_and!; [|done|by apply versions_of_frame].
    unfold folders_of. rewrite Hf. apply filter_snoc_out. congruence.
  - assert (items_of other s' = items_of other s) as Hio.
    { unfold items_of. rewrite Hi. apply filter_snoc_out. congruence. }
    split_and!; [|done|by apply versions_of_frame].
    unfold folders_of. by rewrite Hf.
  - assert (items_of other s' = items_of other s) as Hio
      by (unfold items_of; by rewrite Hi).
    split_and!; [unfold folders_of; by rewrite Hf|done|].
    unfold versions_of. rewrite Hio, Hv. apply filter_snoc_out.
    intros (j & Hjid & Hj)%list_elem_of_fmap.
    apply list_elem_of_filter in Hj as [Hju Hj].
    destruct Hitem as (i & Hi' & Hiid & Hiu).
    assert (j = i) as -> by (apply (key_unique i_id (items s)); [done..|congruence]).
    congruence.
  - assert (items_of other s' = items_of other s) as Hio.
    { unfold items_of. rewrite Hi. apply filter_fmap_frame. intros r Hr.
      destruct (Hchange r Hr) as (_ & Hu & [Hsame|(Hru & _)]).
      - rewrite Hsame. done.
      - rewrite Hu. split; [done|]. congruence. }
    split_and!; [unfold folders_of; by rewrite Hf|done|by apply versions_of_frame].
  - assert (items_of other (delete_items hit s) = items_of other s) as Hio.
    { unfold items_of, delete_items. simpl. apply filter_filter_frame.
      intros i Hi Hu Hh. apply Is_true_true in Hh. apply Hhit in Hh; [|done].
      congruence. }
    split_and!; [done..|].
    unfold versions_of. rewrite Hio. unfold delete_items. simpl.
    apply filter_filter_frame.
    intros v Hv (j & Hjid & Hj)%list_elem_of_fmap (i & Hiid & Hi)%list_elem_of_fmap.
    apply list_elem_of_filter in Hj as [Hju Hj].
    apply list_elem_of_filter in Hi as [Hih Hi].
    assert (j = i) as -> by (apply (key_unique i_id (items s)); [done..|congruence]).
    apply Is_true_true in Hih. apply Hhit in Hih; [|done]. congruence.
  - set (gone := cascades (length (folders s)) (folders s) hit).
    assert (∀ f, f ∈ folders s → gone f = true → f_user_id f = user) as Hgone.
    { intros f Hf Hg. apply (doomed_owned user hit (folders s)); [done..|].
      by apply cascades_doomed. }
    assert (∀ i, i ∈ items s →
              i_folder_id i ∈ f_id <$> filter (λ f, gone f) (folders s) →
              i_user_id i = user) as Hdead.
    { intros i Hi (g & Hgid & Hg)%list_elem_of_fmap.
      apply list_elem_of_filter in Hg as [Hgg Hg].
      rewrite <- (Li i g) by done. apply Hgone; [done|]. by apply Is_true_true. }
    assert (items_of other (delete_folders hit s) = items_of other s) as Hio.
    { unfold items_of, delete_folders, delete_items. simpl.
      apply filter_filter_frame.
      intros i Hi Hu Hh%Is_true_true%bool_decide_eq_true.
      apply Hdead in Hh; [|done]. congruence. }
    split_and!; [|done|].
    + unfold folders_of, delete_folders, delete_items. simpl.
      apply filter_filter_frame. intros f Hf Hu Hg%Is_true_true.
      apply Hgone in Hg; [|done]. congruence.
    + unfold versions_of. rewrite Hio. unfold delete_folders, delete_items. simpl.
      apply filter_filter_frame.
      intros v Hv (j & Hjid & Hj)%list_elem_of_fmap (i & Hiid & Hi)%list_elem_of_fmap.
      apply list_elem_of_filter in Hj as [Hju Hj].
      apply list_elem_of_filter in Hi as [Hih Hi].
      assert (j = i) as -> by (apply (key_unique i_id (items s)); [done..|congruence]).
      apply Is_true_true, bool_decide_eq_true in Hih.
      apply Hdead in Hih; [|done]. congruence.
Qed.

(** Runs of statements *)
Lemma statements_invariants user s s' :
  rtc (statement user) s s' → consistent s → owned_links s →
  consistent s' ∧ owned_links s' ∧
  ∀ other, user ≠ other →
    folders_of other s' = folders_of other s ∧
    items_of other s' = items_of other s ∧
    versions_of other s' = versions_of other s.
Proof.
  induction 1 as [s|s1 s2 s3 H12 _ IH]; intros Hc Hl; [done|].
  pose proof (statement_consistent _ _ _ H12 Hc) as Hc2.
  pose proof (statement_owned_links _ _ _ H12 Hc Hl) as Hl2.
  destruct (IH Hc2 Hl2) as (Hc3 & Hl3 & Ho3). split_and!; [done..|].
  intros other Hne.
  destruct (statement_other_rows _ other _ _ H12 Hc Hl Hne) as (E1 & E2 & E3).
  destruct (Ho3 other Hne) as (F1 & F2 & F3).
  split_and!; congruence.
Qed.

Lemma statements_consistent user s s' :
  rtc (statement user) s s' → consistent s → consistent s'.
Proof.
  induction 1 as [s|s1 s2 s3 H12 _ IH]; intros Hc; [done|].
  by apply IH, (statement_consistent _ _ _ H12).
Qed.
End statement_accounts.

Section statements_of_routes.
Import Observations.

Lemma reads_refl user s : statement user s s.
Proof. apply statement_reads; [done|]. unfold sequences_le. lia. Qed.

Ltac bumped :=
  apply statement_reads; [done|unfold sequences_le; simpl; lia].

Lemma conflict_free_id id name parent user (fs : list Folder) :
  existsb (folder_conflict id name parent user) fs = false →
  id ∉ f_id <$> fs.
Proof.
  intros Hno (g & -> & Hg)%list_elem_of_fmap.
  apply not_true_iff_false in Hno. apply Hno. apply existsb_exists.
  exists g. split; [by apply list_elem_of_In|].
  unfold folder_conflict. by rewrite bool_decide_eq_true_2.
Qed.

Lemma insert_folder_statement user name parent now s :
  (∀ p, parent = Some p →
        ∃ g, g ∈ folders s ∧ f_id g = p ∧ f_user_id g = user) →
  statement user s (insert_folder name parent user now s).2.
Proof.
  intros Hparent. unfold insert_folder, bind, nextval_folders.
  destruct (negb (varchar 255 name)); [bumped|]. simpl.
  destruct (existsb _ (folders s)) eqn:Hc; [bumped|]. simpl.
  destruct (negb (from_option _ true parent)); [bumped|].
  eapply statement_inserts_folder; try done; simpl;
    [unfold sequences_le; simpl; lia|lia|by eapply conflict_free_id].
Qed.

Lemma insert_folder_on_conflict_statement user name parent now s :
  (∀ p, parent = Some p →
        ∃ g, g ∈ folders s ∧ f_id g = p ∧ f_user_id g = user) →
  statement user s
    (insert_folder_on_conflict_do_nothing name parent user now s).2.
Proof.
  intros Hparent. unfold insert_folder_on_conflict_do_nothing, bind, nextval_folders.
  destruct (negb (varchar 255 name)); [bumped|]. simpl.
  destruct (negb (from_option _ true parent)); [bumped|].
  destruct (existsb _ (folders s)) eqn:Hc; [bumped|]. simpl.
  eapply statement_inserts_folder; try done; simpl;
    [unfold sequences_le; simpl; lia|lia|by eapply conflict_free_id].
Qed.

Lemma insert_item_statement user name type content folder language tags now s :
  (∃ g, g ∈ folders s ∧ f_id g = folder ∧ f_user_id g = user) →
  statement user s
    (insert_item name type content folder user language tags now s).2.
Proof.
  intros Hfolder. unfold insert_item, bind, nextval_items.
  repeat (match goal with
          | |- context [if ?b then _ else _] =>
              destruct b eqn:?; [bumped|]
          end).
  eapply statement_inserts_item; try done; simpl;
    [unfold sequences_le; simpl; lia|lia|].
  intros Hin.
  match goal with
  | H : bool_decide (_ ∈ _) = false |- _ =>
      apply bool_decide_eq_false in H; by apply H
  end.
Qed.

Lemma insert_file_item_statement user name content path size folder now s :
  (∃ g, g ∈ folders s ∧ f_id g = folder ∧ f_user_id g = user) →
  statement user s
    (insert_file_item name content path size folder user now s).2.
Proof.
  intros Hfolder. unfold insert_file_item, bind, nextval_items.
  repeat (match goal with
          | |- context [if ?b then _ else _] =>
              destruct b eqn:?; [bumped|]
          end).
  eapply statement_inserts_item; try done; simpl;
    [unfold sequences_le; simpl; lia|lia|].
  intros Hin.
  match goal with
  | H : bool_decide (_ ∈ _) = false |- _ =>
      apply bool_decide_eq_false in H; by apply H
  end.
Qed.

Lemma insert_item_version_statement user item content number now s :
  (∃ i, i ∈ items s ∧ i_id i = item ∧ i_user_id i = user) →
  statement user s (insert_item_version item content number now s).2.
Proof.
  intros Hitem. unfold insert_item_version, bind, nextval_item_versions.
  repeat (match goal with
          | |- context [if ?b then _ else _] =>
              destruct b eqn:?; [bumped|]
          end).
  eapply statement_inserts_version; try done; simpl;
    [unfold sequences_le; simpl; lia|lia|].
  intros Hin.
  match goal with
  | H : bool_decide (_ ∈ _) = false |- _ =>
      apply bool_decide_eq_false in H; by apply H
  end.
Qed.

Lemma update_item_statement user name content folder language tags id now s :
  (∀ f, folder = Some f →
        (∃ g, g ∈ folders s ∧ f_id g = f ∧ f_user_id g = user)
        ∨ f ∉ f_id <$> folders s) →
  statement user s
    (update_item name content folder language tags id user now s).2.
Proof.
  intros Hfolder. unfold update_item.
  destruct (forallb _ _) eqn:Hok; [|apply reads_refl]. simpl.
  eapply statement_updates_items; simpl; try done;
    try (unfold sequences_le; simpl; lia).
  intros r Hr. simpl. case_bool_decide as Ht; [|by split_and!; [..|left]].
  simpl. split_and!; [done..|]. right. destruct Ht as [Hid Hu]. split; [done|].
  destruct folder as [f|]; [|by left]. simpl.
  rewrite forallb_forall in Hok.
  specialize (Hok (updated_item name content (Some f) language tags now r)).
  unfold item_row_ok in Hok. simpl in Hok.
  assert (f ∈ f_id <$> folders s) as Hin.
  { assert (varchar 255 (COALESCE name (i_name r)) &&
            from_option (varchar 50) true (COALESCE_null language (i_language r)) &&
            bool_decide (f ∈ f_id <$> folders s) = true) as Hrow.
    { apply Hok. apply list_elem_of_In, list_elem_of_fmap. exists r.
      split; [by rewrite bool_decide_eq_true_2|].
      apply list_elem_of_filter. split; [|done].
      apply Is_true_true. by apply bool_decide_eq_true_2. }
    apply andb_true_iff in Hrow as [_ Hrow]. by apply bool_decide_eq_true in Hrow. }
  destruct (Hfolder f eq_refl) as [Hg|Hnot]; [by right|done].
Qed.

Lemma update_access_statement user id now s :
  (∀ r, r ∈ items s → i_id r = id → i_user_id r = user) →
  statement user s (update_access id now s).2.
Proof.
  intros Hown. unfold update_access.
  destruct (forallb _ _); [|apply reads_refl]. simpl.
  eapply statement_updates_items; simpl; try done;
    try (unfold sequences_le; simpl; lia).
  intros r Hr. simpl. case_bool_decide as Ht; [|by split_and!; [..|left]].
  simpl. split_and!; [done..|]. right. split; [by apply Hown|by left].
Qed.

Lemma update_pin_statement user id s :
  statement user s (update_pin id user s).2.
Proof.
  unfold update_pin. simpl.
  eapply statement_updates_items; simpl; try done;
    try (unfold sequences_le; simpl; lia).
  intros r Hr. simpl. case_bool_decide as Ht; [|by split_and!; [..|left]].
  simpl. split_and!; [done..|]. right. destruct Ht. split; [done|by left].
Qed.

Lemma delete_items_statement user (hit : Item → bool) s :
  (∀ i, hit i = true → i_user_id i = user) →
  statement user s (delete_items hit s).
Proof. intros Hhit. eapply statement_deletes_items; [done|]. intros i _. apply Hhit. Qed.

Lemma delete_folders_statement user (hit : Folder → bool) s :
  (∀ f, hit f = true → f_user_id f = user) →
  statement user s (delete_folders hit s).
Proof. intros Hhit. eapply statement_deletes_folders; [done|]. intros f _. apply Hhit. Qed.

End statements_of_routes.

Section routes_as_statements.
Import Observations.

Lemma catch_store {A} error (q : Query (Response A)) s :
  (catch error q s).2 = (q s).2.
Proof. unfold catch. by destruct (q s) as [[r|e] s']. Qed.

Lemma bind_statements user {A B} (q : Query A) (k : A → Query B) s :
  rtc (statement user) s (q s).2 →
  (∀ a s', q s = (Done a, s') → rtc (statement user) s' (k a s').2) →
  rtc (statement user) s (bind q k s).2.
Proof.
  intros Hq Hk. unfold bind. destruct (q s) as [[a|e] s'] eqn:Hqs; [|done].
  simpl in Hq. etrans; [done|]. by apply Hk.
Qed.

Lemma select_folders_run (P : Folder → Prop) `{∀ f, Decision (P f)} s :
  select_folders P s = (Done (filter P (folders s)), s).
Proof. done. Qed.

Lemma select_items_run (P : Item → Prop) `{∀ f, Decision (P f)} s :
  select_items P s = (Done (filter P (items s)), s).
Proof. done. Qed.

Lemma head_filter_owned {A} (P : A → Prop) `{∀ x, Decision (P x)} (l : list A)
    x rest :
  filter P l = x :: rest → x ∈ l ∧ P x.
Proof.
  intros Hf. assert (x ∈ filter P l) as Hin by (rewrite Hf; left).
  apply list_elem_of_filter in Hin. tauto.
Qed.

Lemma createFolder_statements user body now s :
  rtc (statement (u_id user)) s (Folders.createFolder user body now s).2.
Proof.
  unfold Folders.createFolder. destruct (Folders.fd_name body) as [name|]; [|done].
  destruct (negb (truthy_str name)); [done|]. rewrite catch_store.
  unfold Folders.parentCheck, Folders.or_null.
  destruct (Folders.fd_parentId body) as [p|]; simpl;
    [destruct (truthy_num p) eqn:Hp; simpl|].
  - apply bind_statements; [done|]. intros l s' [= <- <-].
    destruct (filter _ (folders s)) as [|g rest] eqn:Hg; simpl; [done|].
    apply head_filter_owned in Hg as (Hg & Hgid & Hgu).
    apply bind_statements; [done|]. intros l s' [= <- <-].
    destruct (filter _ (folders s)); [|done].
    apply bind_statements; [|by intros a s' _].
    apply rtc_once, insert_folder_statement. intros q [= <-]. by exists g.
  - apply bind_statements; [done|]. intros l s' [= <- <-]. simpl.
    apply bind_statements; [done|]. intros l s' [= <- <-].
    destruct (filter _ (folders s)); [|done].
    apply bind_statements; [|by intros a s' _].
    by apply rtc_once, insert_folder_statement.
  - apply bind_statements; [done|]. intros l s' [= <- <-]. simpl.
    apply bind_statements; [done|]. intros l s' [= <- <-].
    destruct (filter _ (folders s)); [|done].
    apply bind_statements; [|by intros a s' _].
    by apply rtc_once, insert_folder_statement.
Qed.

Lemma insert_item_row name type content folder user language tags now s row s' :
  insert_item name type content folder user language tags now s = (Done row, s') →
  row ∈ items s' ∧ i_user_id row = user.
Proof.
  intros Hins. apply insert_item_Done in Hins as (_ & Hu & Hi & _).
  split; [|done]. rewrite Hi. apply elem_of_app. right. left.
Qed.

Lemma createItem_statements user body now s :
  rtc (statement (u_id user)) s (Items.createItem user body now s).2.
Proof.
  unfold Items.createItem.
  destruct (Items.cd_name body) as [name|]; [|done].
  destruct (Items.cd_type body) as [type|]; [|done].
  destruct (Items.cd_folderId body) as [folderId|]; [|done].
  destruct (negb _); [done|]. destruct (negb _); [done|].
  rewrite catch_store.
  apply bind_statements; [done|]. intros l s' [= <- <-].
  destruct (filter _ (folders s)) as [|g rest] eqn:Hg; simpl; [done|].
  apply head_filter_owned in Hg as (Hg & Hgid & Hgu).
  apply bind_statements.
  { apply rtc_once, insert_item_statement. by exists g. }
  intros row s1 Hrow. apply insert_item_row in Hrow as [Hrow Hu].
  apply bind_statements; [|by intros a s' _].
  apply rtc_once, insert_item_version_statement. by exists row.
Qed.

Lemma getItem_statements user id now s :
  NoDup (i_id <$> items s) →
  rtc (statement (u_id user)) s (Items.getItem user id now s).2.
Proof.
  intros Hnd. unfold Items.getItem. rewrite catch_store.
  apply bind_statements; [done|]. intros l s' [= <- <-].
  destruct (filter _ (items s) ≫= _) as [|row rest] eqn:Hrow; [done|].
  assert (row ∈ filter (λ i, i_id i = id ∧ i_user_id i = u_id user) (items s) ≫=
            λ i, (λ f, (i, f_name f)) <$>
                   filter (λ f, f_id f = i_folder_id i) (folders s)) as Hin
    by (rewrite Hrow; left).
  apply list_elem_of_bind in Hin as (i & _ & Hi).
  apply list_elem_of_filter in Hi as [[Hid Hu] Hi].
  apply bind_statements; [|by intros a s' _].
  apply rtc_once, update_access_statement. intros r Hr Hrid.
  assert (r = i) as -> by (apply (key_unique i_id (items s)); [done..|congruence]).
  done.
Qed.

Lemma updateItem_statements user id body now s :
  (∀ f, f ∈ folders s → f_id f ≠ 0%Z) →
  rtc (statement (u_id user)) s (Items.updateItem user id body now s).2.
Proof.
  intros Hserial. unfold Items.updateItem. rewrite catch_store.
  apply bind_statements; [done|]. intros l s' [= <- <-].
  destruct (filter _ (items s)) as [|current rest] eqn:Hcur; [done|].
  apply head_filter_owned in Hcur as (Hcur & Hcid & Hcu).
  assert (∃ l, Items.targetFolderCheck user (Items.ud_folderId body) s = (Done l, s) ∧
            ((truthy_opt truthy_num (Items.ud_folderId body)
               && bool_decide (l = []) = false) →
             ∀ f, Items.ud_folderId body = Some f →
                  (∃ g, g ∈ folders s ∧ f_id g = f ∧ f_user_id g = u_id user)
                  ∨ f ∉ f_id <$> folders s)) as (l & Hl & Hfolder).
  { unfold Items.targetFolderCheck.
    destruct (Items.ud_folderId body) as [f|]; simpl;
      [destruct (truthy_num f) eqn:Hf; simpl|].
    - eexists. split; [done|]. intros Hne q [= <-]. left.
      apply bool_decide_eq_false in Hne.
      destruct (filter _ (folders s)) as [|g rest'] eqn:Hg; [done|].
      apply head_filter_owned in Hg as (Hg & Hgid & Hgu). by exists g.
    - exists []. split; [done|]. intros _ q [= <-]. right.
      unfold truthy_num in Hf. apply negb_false_iff, bool_decide_eq_true in Hf.
      subst. intros (g & Hgid & Hg)%list_elem_of_fmap. by apply (Hserial g).
    - by exists []. }
  apply bind_statements; [by rewrite Hl|]. intros l' s' Heq.
  rewrite Hl in Heq. injection Heq as <- <-.
  destruct (_ && _) eqn:Hcheck; [done|].
  apply bind_statements; [done|]. intros versionResult s' [= <- <-].
  apply bind_statements.
  { apply rtc_once, update_item_statement. by apply Hfolder. }
  intros result s1 Hupd.
  assert (∃ i, i ∈ items s1 ∧ i_id i = id ∧ i_user_id i = u_id user) as Hitem.
  { unfold update_item in Hupd. destruct (forallb _ _); [|done].
    injection Hupd as <- <-. simpl.
    eexists. split; [apply list_elem_of_fmap; by exists current|].
    rewrite bool_decide_eq_true_2 by done. done. }
  apply bind_statements; [|by intros a s' _].
  destruct (truthy_opt truthy_str _ && _); [|done].
  by apply rtc_once, insert_item_version_statement.
Qed.

Lemma togglePin_statements user id s :
  rtc (statement (u_id user)) s (Items.togglePin user id s).2.
Proof.
  unfold Items.togglePin. rewrite catch_store.
  apply bind_statements; [|intros l s' _; by destruct l].
  apply rtc_once, update_pin_statement.
Qed.

Lemma serve_statements r s :
  rtc (statement (u_id (Api.caller (Api.Delete r)))) s (Requests.serve r s).2.
Proof.
  destruct r as [user id|user id|user id]; simpl.
  - unfold Folders.deleteFolder. rewrite catch_store.
    apply bind_statements; [done|]. intros l s' [= <- <-].
    destruct (filter _ (folders s)) as [|row rest]; [done|].
    destruct (bool_decide _); [done|].
    apply bind_statements; [|by intros a s' _].
    apply rtc_once, delete_folders_statement.
    by intros f [_ ?]%bool_decide_eq_true.
  - unfold Items.deleteItem. rewrite catch_store.
    apply bind_statements; [done|]. intros l s' [= <- <-].
    apply bind_statements; [|intros a s' _; by destruct (filter _ (items s))].
    apply rtc_once, delete_items_statement.
    by intros f [_ ?]%bool_decide_eq_true.
  - unfold Folders.deleteFile. rewrite catch_store.
    apply bind_statements; [done|]. intros l s' [= <- <-].
    destruct (filter _ (items s)) as [|row rest]; [done|].
    apply bind_statements; [|by intros a s' _].
    apply rtc_once, delete_items_statement.
    by intros f [_ ?]%bool_decide_eq_true.
Qed.

Lemma uploadFile_statements `{Backup.Node} user file folderId encrypt now
    entropy disk s :
  rtc (statement (u_id user)) s
    (Files.uploadFile user file folderId encrypt now entropy disk s).2.
Proof.
  unfold Files.uploadFile. destruct file as [file|]; [|done].
  destruct (filter _ (folders s)) as [|g rest] eqn:Hg; [done|].
  apply head_filter_owned in Hg as (Hg & Hgid & Hgu).
  assert (∀ content,
            rtc (statement (u_id user)) s
              (insert_file_item (Files.originalname file) content
                 (Files.path file) (Files.size file) folderId (u_id user) now s).2)
    as Hins.
  { intros content. apply rtc_once, insert_file_item_statement. by exists g. }
  destruct (bool_decide (encrypt = "true")).
  - destruct (disk !! Files.path file); [|done].
    specialize (Hins (Some "encrypted")).
    by destruct (insert_file_item _ _ _ _ _ _ _ _) as [[row|e] s'].
  - specialize (Hins None).
    by destruct (insert_file_item _ _ _ _ _ _ _ _) as [[row|e] s'].
Qed.

Lemma downloadFile_statements `{Backup.Node} user id now disk s :
  NoDup (i_id <$> items s) →
  rtc (statement (u_id user)) s (Files.downloadFile user id now disk s).2.
Proof.
  intros Hnd. unfold Files.downloadFile. rewrite catch_store.
  apply bind_statements; [done|]. intros l s' [= <- <-].
  destruct (filter _ (items s)) as [|item rest] eqn:Hitem; [done|].
  apply head_filter_owned in Hitem as (Hitem & Hid & Hu & _).
  destruct (if truthy_opt _ _ then _ else _); [|done].
  destruct (if bool_decide _ then _ else _); [|done].
  apply bind_statements; [|by intros a s' _].
  apply rtc_once, update_access_statement. intros r Hr Hrid.
  assert (r = item) as ->
    by (apply (key_unique i_id (items s)); [done..|congruence]).
  done.
Qed.
End routes_as_statements.

Section import_as_statements.
Import Observations Backup.
Context `{Scan}.

Lemma for_of_ran user {A B} (I : B → Store → Prop)
    (body : A → B → Query B) (xs : list A) :
  (∀ x acc s, I acc s → ran user I s (body x acc s)) →
  ∀ acc s, I acc s → ran user I s (for_of xs body acc s).
Proof.
  intros Hbody. induction xs as [|x xs IH]; intros acc s HI.
  - simpl. split; [done|]. by intros b [= <-].
  - simpl. destruct (Hbody x acc s HI) as [Hrtc Hnext]. unfold bind.
    destruct (body x acc s) as [[acc1|e] s1] eqn:Hb; simpl in *; [|by split].
    destruct (IH acc1 s1 (Hnext acc1 eq_refl)) as [Hrtc' Hnext'].
    split; [by etrans|done].
Qed.

Lemma importFolder_ran user clearExisting now folder acc s :
  mapping_owned user (folderMapping acc) s →
  ran (u_id user) (λ acc s, mapping_owned user (folderMapping acc) s) s
    (importFolder user clearExisting now folder acc s).
Proof.
  intros Hmap. unfold importFolder.
  set (existingRoot := if _ && _ then _ else _).
  assert (∃ l, existingRoot s = (Done l, s) ∧
               ∀ root, root ∈ l → root ∈ folders s ∧ f_user_id root = u_id user)
    as (l & Hl & Hroot).
  { unfold existingRoot. destruct (_ && _).
    - eexists. split; [done|]. intros root Hin. apply elem_of_scan in Hin.
      apply list_elem_of_filter in Hin as [(_ & _ & Hu) Hin]. done.
    - exists []. split; [done|]. by intros root ?%elem_of_nil. }
  unfold bind at 1. rewrite Hl. destruct l as [|root rest].
  - set (parentId := if truthy_opt _ _ then _ else _).
    assert (∀ p, parentId = Some p →
              ∃ g, g ∈ folders s ∧ f_id g = p ∧ f_user_id g = u_id user) as Hparent.
    { intros p Hp. unfold parentId in Hp. destruct (truthy_opt _ _); [|done].
      destruct (f_parent_id folder) as [q|]; [|done]. simpl in Hp.
      by apply (Hmap q). }
    pose proof (insert_folder_on_conflict_statement (u_id user) (f_name folder)
                  parentId now s Hparent) as Hst.
    pose proof (insert_folder_cases (f_name folder) parentId (u_id user) now s)
      as Hcases. simpl in Hcases. unfold bind.
    destruct (insert_folder_on_conflict_do_nothing _ _ _ _ s) as [[ids|e] s1];
      simpl in *; [|split; [by apply rtc_once|done]].
    destruct Hcases as [[e [=]]|[[[= ->] Hsame]|[[= ->] Hnew]]].
    + simpl. split; [by apply rtc_once|]. intros acc' [= <-]. simpl.
      intros k v Hk. rewrite Hsame. by apply (Hmap k).
    + simpl. split; [by apply rtc_once|]. intros acc' [= <-]. simpl.
      intros k v Hk. rewrite Hnew.
      destruct (decide (k = f_id folder)) as [->|Hne].
      * rewrite lookup_insert_eq in Hk. injection Hk as <-.
        eexists. split; [apply elem_of_app; right; left|]. done.
      * rewrite lookup_insert_ne in Hk by done.
        destruct (Hmap k v Hk) as (g & Hg & Hgid & Hgu).
        exists g. split; [apply elem_of_app; by left|done].
  - simpl. split; [done|]. intros acc' [= <-]. simpl.
    intros k v Hk. destruct (decide (k = f_id folder)) as [->|Hne].
    + rewrite lookup_insert_eq in Hk. injection Hk as <-.
      exists root. destruct (Hroot root) as [? ?]; [left|]. done.
    + rewrite lookup_insert_ne in Hk by done. by apply (Hmap k).
Qed.

Lemma importItem_ran user now m item n s :
  mapping_owned user m s →
  ran (u_id user) (λ _ s, mapping_owned user m s) s
    (importItem user now m item n s).
Proof.
  intros Hmap. unfold importItem.
  destruct (bool_decide (i_type item = "file")); [by split|].
  destruct (m !! i_folder_id item) as [v|] eqn:Hv; simpl;
    [destruct (truthy_num v); simpl|]; [|by split..].
  destruct (Hmap _ _ Hv) as (g & Hg & Hgid & Hgu).
  pose proof (insert_item_statement (u_id user) (i_name item) (i_type item)
    (i_encrypted_content item) v (i_language item) (default [] (i_tags item))
    now s) as Hst.
  unfold bind.
  destruct (insert_item _ _ _ _ _ _ _ _ s) as [[row|e] s1] eqn:Hins; simpl in *.
  - split; [apply rtc_once, Hst; by exists g|].
    intros n' _. apply insert_item_Done in Hins as (_ & _ & _ & _ & Hf).
    intros k w Hk. simpl. rewrite Hf. by apply (Hmap k).
  - split; [apply rtc_once, Hst; by exists g|done].
Qed.

Lemma clearExistingData_statements user s :
  rtc (statement (u_id user)) s (clearExistingData user s).2.
Proof.
  unfold clearExistingData. apply bind_statements.
  - apply rtc_once, delete_items_statement. by intros i ?%bool_decide_eq_true.
  - intros a s' _. apply rtc_once, delete_folders_statement.
    by intros i ?%bool_decide_eq_true.
Qed.

Lemma replay_statements user clearExisting now fs its s :
  rtc (statement (u_id user)) s (replay user clearExisting now fs its s).2.
Proof.
  unfold replay. apply bind_statements.
  { destruct clearExisting; [apply clearExistingData_statements|done]. }
  intros [] s1 _.
  destruct (for_of_ran (u_id user)
              (λ acc s, mapping_owned user (folderMapping acc) s)
              (importFolder user clearExisting now) fs
              (importFolder_ran user clearExisting now)
              {| folderMapping := ∅; events := [] |} s1) as [Hrtc Hmap].
  { by intros k v Hk. }
  apply bind_statements; [done|]. intros r s2 Hr.
  unfold importFolders in Hr. rewrite Hr in Hmap.
  destruct (for_of_ran (u_id user)
              (λ _ s, mapping_owned user (folderMapping r) s)
              (importItem user now (folderMapping r)) its
              (importItem_ran user now (folderMapping r))
              0 s2 (Hmap r eq_refl)) as [Hrtc' _].
  apply bind_statements; [done|]. by intros n s3 _.
Qed.

Lemma importData_statements `{Node} user body now s :
  rtc (statement (u_id user)) s (importData user body now s).2.
Proof.
  unfold importData. destruct (ib_backupData body) as [bundle|]; [|done].
  destruct (negb _); [done|].
  destruct (decryptBackup _ _) as [decrypted|]; [|done].
  destruct (JSON_parse _) as [backup|]; [|done].
  destruct (snap_folders backup) as [fs|]; [|done].
  destruct (snap_items backup) as [its|]; [|done].
  rewrite catch_store.
  apply bind_statements; [|by intros a s' _].
  pose proof (replay_statements user (ib_clearExisting body) now fs its s) as Hrtc.
  unfold transaction.
  destruct (replay _ _ _ _ _ s) as [[r|e] s'] eqn:Hreplay; simpl in *; [done|].
  apply rtc_once, statement_reads.
  - apply rollback_same_tables.
  - apply statements_sequences_le in Hrtc. done.
Qed.
End import_as_statements.

Section all_requests.
Import Observations.
Context `{Backup.Node}.
Context `{Scan}.

Lemma updateFolder_store user id body now s :
  (Folders.updateFolder user id body now s).2 = s ∨
  ∃ name,
    forallb (folder_row_ok s (folder_target user id))
      (folder_change user id name (Folders.or_null (Folders.fd_parentId body)) now
         <$> filter (λ r, folder_target user id r) (folders s)) = true ∧
    (Folders.updateFolder user id body now s).2 =
      with_folders
        (folder_change user id name (Folders.or_null (Folders.fd_parentId body))
           now <$> folders s) s.
Proof.
  unfold Folders.updateFolder. destruct (Folders.fd_name body) as [name|]; [|by left].
  destruct (negb _); [by left|]. rewrite catch_store. unfold bind, select_folders.
  destruct (filter _ (folders s)) as [|g rest]; [by left|].
  destruct (filter _ (folders s)) as [|d rest']; [|by left].
  rewrite update_folder_run.
  destruct (forallb _ _) eqn:Hok; [|by left]. right. by exists name.
Qed.

Lemma changed_folder_ok user id name parent now s f :
  forallb (folder_row_ok s (folder_target user id))
    (folder_change user id name parent now
       <$> filter (λ r, folder_target user id r) (folders s)) = true →
  f ∈ folders s → folder_target user id f = true →
  ∀ p, parent = Some p → p ∈ f_id <$> folders s.
Proof.
  intros Hok Hf Ht p ->. rewrite forallb_forall in Hok.
  specialize (Hok (folder_change user id name (Some p) now f)).
  assert (folder_row_ok s (folder_target user id)
            (folder_change user id name (Some p) now f) = true) as Hrow.
  { apply Hok, list_elem_of_In, list_elem_of_fmap. exists f. split; [done|].
    apply list_elem_of_filter. split; [by apply Is_true_true|done]. }
  unfold folder_change in Hrow. rewrite Ht in Hrow. unfold folder_row_ok in Hrow.
  simpl in Hrow. apply andb_true_iff in Hrow as [_ Hrow].
  by apply bool_decide_eq_true in Hrow.
Qed.

Lemma folder_change_user user id name parent now r :
  f_user_id (folder_change user id name parent now r) = f_user_id r.
Proof. unfold folder_change. by destruct (folder_target user id r). Qed.

Lemma folder_change_parent user id name parent now r :
  f_parent_id (folder_change user id name parent now r) =
    if folder_target user id r then parent else f_parent_id r.
Proof. unfold folder_change. by destruct (folder_target user id r). Qed.

Lemma updateFolder_consistent user id body now s :
  consistent s → consistent (Folders.updateFolder user id body now s).2.
Proof.
  intros Hc. destruct (updateFolder_store user id body now s)
    as [->|(name & Hok & ->)]; [done|].
  destruct Hc as ((Hpf & Hpi & Hpv) & (Hff & Hfi & Hfv)
                   & (Hsf & Hsi & Hsv & H1 & H2 & H3)).
  unfold consistent, primary_keys, foreign_keys, serial_ids. simpl.
  rewrite folder_change_ids. split_and!; try done.
  - intros f' p (f & -> & Hf)%list_elem_of_fmap. rewrite folder_change_parent.
    destruct (folder_target user id f) eqn:Ht; [|by apply Hff].
    by apply (changed_folder_ok user id name _ now s f).
  - intros f' (f & -> & Hf)%list_elem_of_fmap. rewrite folder_change_id.
    by apply Hsf.
Qed.

Lemma updateFolder_other_rows user id body now s other :
  u_id user ≠ other →
  folders_of other (Folders.updateFolder user id body now s).2 = folders_of other s ∧
  items_of other (Folders.updateFolder user id body now s).2 = items_of other s ∧
  versions_of other (Folders.updateFolder user id body now s).2 = versions_of other s.
Proof.
  intros Hne. destruct (updateFolder_store user id body now s)
    as [->|(name & Hok & ->)]; [done|].
  split_and!; [|done..]. unfold folders_of. simpl.
  apply filter_fmap_frame. intros f Hf. rewrite folder_change_user.
  split; [done|]. intros Hu. unfold folder_change, folder_target.
  rewrite bool_decide_eq_false_2; [done|]. intros [_ ?]. congruence.
Qed.

Lemma updateFolder_owned_links user id body now s :
  consistent s → owned_links s →
  links_checked (Api.UpdateFolder user id body now) s →
  owned_links (Folders.updateFolder user id body now s).2.
Proof.
  intros ((Hpf & _) & _) [Lf Li] Hchecked.
  destruct (updateFolder_store user id body now s)
    as [->|(name & Hok & ->)]; [done|].
  simpl in Hchecked. split; simpl.
  - intros f' g' (f & -> & Hf)%list_elem_of_fmap (g & -> & Hg)%list_elem_of_fmap.
    rewrite folder_change_parent, folder_change_id, !folder_change_user.
    destruct (folder_target user id f) eqn:Ht; [|by apply Lf].
    intros Hp.
    destruct (Hchecked (f_id g) Hp) as (g0 & Hg0 & Hgid & Hgu).
    { apply list_elem_of_fmap. by exists g. }
    assert (g0 = g) as -> by (by apply (key_unique f_id (folders s))).
    apply bool_decide_eq_true in Ht as [_ Hfu]. congruence.
  - intros i g' Hi (g & -> & Hg)%list_elem_of_fmap.
    rewrite folder_change_id, folder_change_user. by apply Li.
Qed.

Lemma handle_statements r s :
  consistent s →
  (∃ user id body now, r = Api.UpdateFolder user id body now) ∨
  rtc (statement (u_id (Api.caller r))) s (Api.handle r s).
Proof.
  intros ((Hpf & Hpi & Hpv) & _ & (Hsf & _)).
  destruct r as [user body now|user id body now|user body now|user id now
                |user id body now|user id|request|user file folderId encrypt now entropy disk
                |user id now disk|user body now]; simpl;
    [right|left; by eauto|right..].
  - apply createFolder_statements.
  - apply createItem_statements.
  - by apply getItem_statements.
  - apply updateItem_statements. intros f Hf. apply Hsf in Hf. lia.
  - apply togglePin_statements.
  - apply serve_statements.
  - apply uploadFile_statements.
  - by apply downloadFile_statements.
  - apply importData_statements.
Qed.

(** X12 (constraints of the schema).  Every request leaves the
    constraints of the schema in force: ids stay unique and below their
    sequences, and no folder, item or version is left pointing at a row
    that is gone. *)
Theorem requests_keep_the_schema (r : Api.Request) (s : Store) :
  consistent s → consistent (Api.handle r s).
Proof.
  intros Hc.
  destruct (handle_statements r s Hc) as [(user & id & body & now & ->)|Hrtc].
  - by apply updateFolder_consistent.
  - by eapply statements_consistent.
Qed.

(** X13 (isolation of accounts).  A request changes no row of another
    account: the folders and items of every other user and the versions
    of their items are the same before and after, as long as no link
    crosses between accounts. *)
Theorem requests_leave_other_accounts (r : Api.Request) (s : Store)
    (other : Z) :
  consistent s → owned_links s → u_id (Api.caller r) ≠ other →
  folders_of other (Api.handle r s) = folders_of other s ∧
  items_of other (Api.handle r s) = items_of other s ∧
  versions_of other (Api.handle r s) = versions_of other s.
Proof.
  intros Hc Hl Hne.
  destruct (handle_statements r s Hc) as [(user & id & body & now & ->)|Hrtc].
  - by apply updateFolder_other_rows.
  - destruct (statements_invariants _ _ _ Hrtc Hc Hl) as (_ & _ & Hother).
    by apply Hother.
Qed.

(** X14 (links stay inside an account).  After a request every folder
    still has the owner of its parent and every item the owner of its
    folder, provided that an update of a folder names a parent of the
    caller's own, the one link that no route checks. *)
Theorem requests_keep_links_owned (r : Api.Request) (s : Store) :
  consistent s → owned_links s → links_checked r s →
  owned_links (Api.handle r s).
Proof.
  intros Hc Hl Hchecked.
  destruct (handle_statements r s Hc) as [(user & id & body & now & ->)|Hrtc].
  - by apply updateFolder_owned_links.
  - by destruct (statements_invariants _ _ _ Hrtc Hc Hl) as (_ & ? & _).
Qed.
End all_requests.

Section file_routes.
Import Observations Backup Files.
Context `{Node}.

Lemma decryptedBuffer_encryptedBuffer key iv fileBuffer :
  length iv = 16 →
  decryptedBuffer key (encryptedBuffer key iv fileBuffer) = Some fileBuffer.
Proof.
  intros Hiv. unfold encryptedBuffer, decryptedBuffer.
  pose proof (getAuthTag_length key fileBuffer) as Htag.
  pose proof (createDecipher_createCipher key fileBuffer) as Hround.
  destruct (createCipher_gcm key fileBuffer) as [encrypted authTag].
  simpl in *.
  rewrite (drop_app_length' _ _ 16) by done.
  rewrite (take_app_length' _ _ 16) by done.
  replace 32 with (16 + 16) by done.
  rewrite <- drop_drop, (drop_app_length' _ _ 16) by done.
  by rewrite (drop_app_length' _ _ 16) by done.
Qed.

Lemma insert_file_item_Done user name content path size folder now s :
  String.length name ≤ 255 → String.length path ≤ 500 →
  (- BIGINT_max - 1 ≤ size ≤ BIGINT_max)%Z →
  items_id_seq s ∉ i_id <$> items s → folder ∈ f_id <$> folders s →
  ∃ row s',
    insert_file_item name content path size folder user now s = (Done row, s') ∧
    items s' = items s ++ [row] ∧ folders s' = folders s ∧
    i_id row = items_id_seq s ∧ i_name row = name ∧ i_type row = "file" ∧
    i_encrypted_content row = content ∧ i_file_path row = Some path ∧
    i_user_id row = user ∧ i_access_count row = 0%Z.
Proof.
  intros Hname Hpath Hsize Hfresh Hfolder.
  unfold insert_file_item, bind, nextval_items.
  rewrite !varchar_true by done. simpl.
  rewrite (bool_decide_eq_true_2 (_ ≤ size ≤ _)%Z) by done. simpl.
  rewrite (bool_decide_eq_false_2 (items_id_seq s ∈ _)) by done.
  rewrite (bool_decide_eq_true_2 (folder ∈ _)) by done. simpl.
  eexists _, _. split; [done|]. by split_and!.
Qed.

(** X16 (upload and download).  What was uploaded comes back: a file
    that the upload route accepted, stored as it came or encrypted under
    the key of the caller, is answered by the download route byte for
    byte under its original name.  With [encrypt] set to the string
    true the bytes on disk are the 16 random bytes, the tag and the
    ciphertext; with any other value the disk keeps the upload as it
    is. *)
Theorem download_returns_upload (user : User) (file : UploadedFile)
    (folderId : Z) (encrypt : string) (now now' : Z)
    (entropy : nat → Byte.byte) (disk : Disk) (s : Store)
    (content : list Byte.byte) :
  NoDup (i_id <$> items s) → items_id_seq s ∉ i_id <$> items s →
  owns_folder user s folderId →
  disk !! path file = Some content → path file ≠ "" →
  String.length (originalname file) ≤ 255 → String.length (path file) ≤ 500 →
  (- BIGINT_max - 1 ≤ size file ≤ BIGINT_max)%Z →
  ∃ row disk' s',
    uploadFile user (Some file) folderId encrypt now entropy disk s
      = (Ok 201 (row, file), disk', s') ∧
    i_type row = "file" ∧ i_file_path row = Some (path file) ∧
    disk' !! path file =
      Some (if bool_decide (encrypt = "true")
            then encryptedBuffer (u_encryptionKey user)
                   (randomBytes 16 entropy) content
            else content) ∧
    (downloadFile user (i_id row) now' disk' s').1
      = Ok 200 (originalname file, content).
Proof.
  intros Hnd Hfresh (g & Hg & Hgid & Hgu) Hdisk Hpath Hname Hlen Hsize.
  unfold uploadFile.
  assert (g ∈ filter (λ f, f_id f = folderId ∧ f_user_id f = u_id user) (folders s))
    as Hin by (by apply list_elem_of_filter).
  destruct (filter _ (folders s)) as [|g' rest]; [by apply elem_of_nil in Hin|].
  clear Hin.
  set (content' := if bool_decide (encrypt = "true")
                   then encryptedBuffer (u_encryptionKey user)
                          (randomBytes 16 entropy) content
                   else content).
  set (flag := if bool_decide (encrypt = "true") then Some "encrypted" else None).
  destruct (insert_file_item_Done (u_id user) (originalname file) flag (path file)
              (size file) folderId now s)
    as (row & s' & Hins & Hitems & Hfolders & Hid & Hrname & Htype & Hcontent
        & Hfile & Hu & Hcount); [done..|apply list_elem_of_fmap; by exists g|].
  exists row, (if bool_decide (encrypt = "true")
               then <[path file := content']> disk else disk), s'.
  assert (NoDup (i_id <$> items s')) as Hnd'.
  { rewrite Hitems. apply NoDup_snoc_key; [done|]. by rewrite Hid. }
  assert (row ∈ items s') as Hrow
    by (rewrite Hitems; apply elem_of_app; right; left).
  split_and!; [|done..| |].
  - unfold content', flag in *. case_bool_decide.
    + rewrite Hdisk. by rewrite Hins.
    + by rewrite Hins.
  - unfold content'. case_bool_decide; [apply lookup_insert_eq|done].
  - unfold downloadFile. run_route.
    rewrite (filter_unique i_id _ (items s') row); [|done..|by intros y _ [-> _]].
    rewrite Hfile. simpl.
    assert (truthy_str (path file) = true) as ->.
    { unfold truthy_str. by rewrite bool_decide_eq_false_2. }
    assert ((if bool_decide (encrypt = "true")
             then <[path file := content']> disk else disk) !! path file
            = Some content') as ->.
    { unfold content'. case_bool_decide; [apply lookup_insert_eq|done]. }
    rewrite Hcontent. unfold flag, content'.
    assert ((if bool_decide
                  ((if bool_decide (encrypt = "true")
                    then Some "encrypted" else None) = Some "encrypted")
             then decryptedBuffer (u_encryptionKey user)
                    (if bool_decide (encrypt = "true")
                     then encryptedBuffer (u_encryptionKey user)
                            (randomBytes 16 entropy) content
                     else content)
             else Some (if bool_decide (encrypt = "true")
                        then encryptedBuffer (u_encryptionKey user)
                               (randomBytes 16 entropy) content
                        else content)) = Some content) as ->.
    { destruct (bool_decide (encrypt = "true")).
      - rewrite bool_decide_eq_true_2 by done.
        apply decryptedBuffer_encryptedBuffer, randomBytes_length.
      - by rewrite bool_decide_eq_false_2. }
    unfold update_access.
    rewrite (filter_unique i_id _ (items s') row); [|done..| |].
    + simpl. rewrite Hcount. simpl. by rewrite Hrname.
    + by apply bool_decide_pack.
    + intros y _ Hy%bool_decide_unpack. congruence.
Qed.
End file_routes.

Section backup_contents.
Import Observations Backup.
Context `{Node}.

Local Instance item_by_id_total : Total item_by_id.
Proof. intros a b. unfold item_by_id. lia. Qed.
Local Instance folder_by_id_total : Total folder_by_id.
Proof. intros a b. unfold folder_by_id. lia. Qed.

(** X17 (contents of a bundle).  What a bundle holds: the folders and
    the items of the caller and of nobody else, each in the order of
    their ids, and for an item of type file a fixed text in the place of
    the path on the server.  The store is left alone. *)
Theorem export_holds_the_callers_rows (user : User) (now : Z)
    (entropy : nat → Byte.byte) (s : Store) :
  ∃ (fs : list Folder) (its : list Item),
    exportData user now entropy s =
      (Ok 200 (JObject [("version", JString "1.0.0");
                        ("encrypted", JBool true);
                        ("data", JString (base64_encode
                           (encryptedBackup (u_encryptionKey user)
                              (randomBytes 16 entropy)
                              (JSON_stringify
                                 {| snap_version := "1.0.0";
                                    snap_timestamp := now;
                                    snap_user_email := u_email user;
                                    snap_folders := Some fs;
                                    snap_items := Some (mask_file_path <$> its)
                                 |}))))]),
       s) ∧
    fs ≡ₚ folders_of (u_id user) s ∧ Sorted folder_by_id fs ∧
    its ≡ₚ items_of (u_id user) s ∧ Sorted item_by_id its ∧
    ∀ it, it ∈ mask_file_path <$> its →
          i_user_id it = u_id user ∧
          (i_type it = "file" → i_file_path it = Some "[FILE_DATA_NOT_INCLUDED]").
Proof.
  eexists _, _. split; [done|]. split_and!.
  - apply merge_sort_Permutation.
  - apply Sorted_merge_sort, _.
  - apply merge_sort_Permutation.
  - apply Sorted_merge_sort, _.
  - intros it' (it & -> & Hit)%list_elem_of_fmap.
    rewrite merge_sort_Permutation in Hit.
    apply list_elem_of_filter in Hit as [Hu _]. split; [done|].
    simpl. intros Htype. by rewrite bool_decide_eq_true_2.
Qed.
End backup_contents.

Section import_rows.
Import Observations Backup.
Context `{Scan}.

Lemma insert_folder_on_conflict_store name parent user now s :
  let out := insert_folder_on_conflict_do_nothing name parent user now s in
  items out.2 = items s ∧ item_versions out.2 = item_versions s ∧
  sequences_le s out.2 ∧
  (folders out.2 = folders s ∨
   ∃ row, folders out.2 = folders s ++ [row] ∧ f_id row = folders_id_seq s
          ∧ f_user_id row = user).
Proof.
  unfold insert_folder_on_conflict_do_nothing, bind, nextval_folders, sequences_le.
  repeat (match goal with
          | |- context [if ?b then _ else _] =>
              destruct b; [simpl; split_and!; try done; try lia; by left|]
          end).
  simpl. split_and!; try done; try lia. right. by eexists.
Qed.

Lemma insert_item_store name type content folder user language tags now s :
  let out := insert_item name type content folder user language tags now s in
  folders out.2 = folders s ∧ item_versions out.2 = item_versions s ∧
  sequences_le s out.2 ∧
  match out.1 with
  | Done row =>
      items out.2 = items s ++ [row] ∧ i_id row = items_id_seq s ∧
      i_type row = type ∧ i_user_id row = user ∧ i_file_path row = None ∧
      i_file_size row = 0%Z ∧ i_access_count row = 0%Z ∧
      i_last_accessed row = None ∧ i_is_pinned row = false
  | Thrown _ => items out.2 = items s
  end.
Proof.
  unfold insert_item, bind, nextval_items, sequences_le.
  repeat (match goal with
          | |- context [if ?b then _ else _] =>
              destruct b; [simpl; split_and!; try done; lia|]
          end).
  simpl. split_and!; try done; lia.
Qed.

Lemma added_refl user s : added user s s.
Proof.
  split_and!; [unfold sequences_le; lia|done|..];
    exists []; by rewrite app_nil_r.
Qed.

Lemma importFolder_added user clearExisting now folder acc s0 s acc' s' :
  added user s0 s →
  importFolder user clearExisting now folder acc s = (Done acc', s') →
  added user s0 s'.
Proof.
  intros (Hle & Hv & (nf & Hf & Hnf) & Hi) Hrun. unfold importFolder in Hrun.
  unfold bind at 1 in Hrun.
  destruct (if _ && _ then _ else _) as [[l|e] s1] eqn:Hroot.
  2:{ destruct (_ && _); done. }
  assert (s1 = s) as ->.
  { destruct (_ && _); unfold select_folders_as_scanned, ret in Hroot;
      by simplify_eq. }
  destruct l as [|root rest].
  - set (parentId := if truthy_opt _ _ then _ else _) in Hrun.
    pose proof (insert_folder_on_conflict_store (f_name folder) parentId
                  (u_id user) now s) as (Hi' & Hv' & Hle' & Hf').
    unfold bind in Hrun.
    destruct (insert_folder_on_conflict_do_nothing _ _ _ _ s) as [[ids|e] s2];
      [|done].
    simpl in *.
    assert (s' = s2) as -> by (destruct ids; unfold ret in Hrun; by simplify_eq).
    split_and!.
    + by eapply sequences_le_trans.
    + congruence.
    + destruct Hf' as [->|(row & -> & Hid & Hu)]; [by exists nf|].
      exists (nf ++ [row]). rewrite Hf, app_assoc. split; [done|].
      apply Forall_app. split; [done|]. apply Forall_singleton.
      split; [done|]. destruct Hle as (? & _). lia.
    + by rewrite Hi'.
  - unfold ret in Hrun. simplify_eq. split_and!; [done..|by exists nf|done].
Qed.

Lemma importItem_added user now m item n s0 s n' s' :
  added user s0 s →
  importItem user now m item n s = (Done n', s') →
  added user s0 s' ∧
  length (items s') + n = length (items s) + n'.
Proof.
  intros (Hle & Hv & Hf & (ni & Hi & Hni)) Hrun.
  split; [|by eapply importItem_step].
  unfold importItem in Hrun.
  case_bool_decide as Htype.
  { unfold ret in Hrun. simplify_eq. by split_and!; [..|exists ni]. }
  destruct (negb _).
  { unfold ret in Hrun. simplify_eq. by split_and!; [..|exists ni]. }
  unfold bind in Hrun.
  pose proof (insert_item_store (i_name item) (i_type item)
    (i_encrypted_content item) (default 0%Z (m !! i_folder_id item)) (u_id user)
    (i_language item) (default [] (i_tags item)) now s) as (Hf' & Hv' & Hle' & Hrow).
  destruct (insert_item _ _ _ _ _ _ _ _ s) as [[row|e] s1]; [|done].
  simpl in *. unfold ret in Hrun. simplify_eq.
  destruct Hrow as (Hi' & Hid & Hty & Hu & Hp & Hs & Hc & Hl & Hpin).
  split_and!.
  - by eapply sequences_le_trans.
  - congruence.
  - by rewrite Hf'.
  - exists (ni ++ [row]). rewrite Hi', Hi, app_assoc. split; [done|].
    apply Forall_app. split; [done|]. apply Forall_singleton.
    split; [unfold as_imported; split_and!; congruence|].
    destruct Hle as (_ & ? & _). lia.
Qed.

Lemma replay_added user clearExisting now fs its s imp r s' :
  replay user clearExisting now fs its s = (Done (imp, r), s') →
  added user (cleared user clearExisting s) s'.
Proof.
  intros (s1 & Hfolders & Hitems & _)%replay_stages.
  set (s0 := cleared user clearExisting s) in *.
  assert (added user s0 s1) as H1.
  { unfold importFolders in Hfolders.
    refine (for_of_count (λ _ _ s, added user s0 s)
              (importFolder user clearExisting now) fs _ 0 _ s0 r s1
              (added_refl _ _) Hfolders).
    intros n x acc s2 acc' s3 Hadd Hrun. by eapply importFolder_added. }
  refine (for_of_count (λ _ _ s, added user s0 s)
            (importItem user now (folderMapping r)) its _ 0 _ s1 _ s' H1 Hitems).
  intros n x acc s2 acc' s3 Hadd Hrun.
  by eapply importItem_added.
Qed.

Context `{Node}.

(** X18 (import without clearing).  An import that does not clear the
    account only adds to it: every folder, item and version that was
    there is there afterwards, in place and unchanged.  The item rows it
    adds are the caller's, as many as the answer counts; none is a file,
    and they carry the defaults of a new row (no access count, no pin)
    and no version. *)
Theorem merging_import_only_adds (user : User) (body : ImportBody) (now : Z)
    (s s' : Store) (status : nat) (imp : Imported) :
  ib_clearExisting body = false →
  importData user body now s = (Ok status imp, s') →
  ∃ new_folders new_items,
    folders s' = folders s ++ new_folders ∧
    items s' = items s ++ new_items ∧
    item_versions s' = item_versions s ∧
    length new_items = imported_items imp ∧
    Forall (λ f, f_user_id f = u_id user) new_folders ∧
    Forall (as_imported user) new_items.
Proof.
  intros Hkeep Hok.
  apply importData_Ok in Hok
    as (bundle & decrypted & backup & fs & its & r & _ & _ & _ & _ & _ & Hr).
  rewrite Hkeep in Hr.
  pose proof (replay_added _ _ _ _ _ _ _ _ _ Hr)
    as (_ & Hv & (nf & Hf & Hnf) & (ni & Hi & Hni)).
  destruct (replay_counts _ _ _ _ _ _ _ _ _ Hr) as (_ & _ & Hcount).
  simpl in *. exists nf, ni. split_and!; [done..| | |].
  - rewrite Hi, length_app in Hcount. lia.
  - eapply Forall_impl; [done|]. by intros f [? _].
  - eapply Forall_impl; [done|]. by intros f [? _].
Qed.

Lemma cleared_rows user s :
  (∀ f, f ∈ folders (clearExistingData user s).2 → f_user_id f ≠ u_id user) ∧
  (∀ i, i ∈ items (clearExistingData user s).2 → i_user_id i ≠ u_id user) ∧
  (∀ v, v ∈ item_versions (clearExistingData user s).2 →
        v ∈ item_versions s ∧ v_item_id v ∉ i_id <$> items_of (u_id user) s).
Proof.
  unfold clearExistingData, bind, exec. simpl.
  set (s1 := delete_items (λ i, bool_decide (i_user_id i = u_id user)) s).
  destruct (delete_folders_sublist
              (λ f, bool_decide (f_user_id f = u_id user)) s1) as (Sf & Si & Sv).
  split_and!.
  - intros f Hf Hu. unfold delete_folders, delete_items in Hf. simpl in Hf.
    apply list_elem_of_filter in Hf as [Hgone Hf]. apply Hgone.
    apply Is_true_true. destruct (length (folders s)); simpl;
      by rewrite bool_decide_eq_true_2.
  - intros i Hi%Si. apply delete_items_items in Hi as [_ Hi].
    by apply bool_decide_eq_false in Hi.
  - intros v Hv%Sv. unfold s1, delete_items in Hv. simpl in Hv.
    apply list_elem_of_filter in Hv as [Hdead Hv]. split; [done|].
    intros Hin. apply Hdead. unfold items_of in Hin.
    apply list_elem_of_fmap in Hin as (i & -> & Hi).
    apply list_elem_of_fmap. exists i. split; [done|].
    apply list_elem_of_filter in Hi as [Hu Hi].
    apply list_elem_of_filter. split; [|done].
    apply Is_true_true. by apply bool_decide_eq_true_2.
Qed.

Lemma cleared_sequences user s : sequences_le s (clearExistingData user s).2.
Proof. unfold sequences_le. simpl. lia. Qed.

(** X19 (import with clearing).  An import that clears the account
    replaces it: no folder and no item that the caller had before is
    left, the root folder included, and no version of such an item.
    What the caller has afterwards was inserted by this import. *)
Theorem clearing_import_replaces_the_account (user : User) (body : ImportBody)
    (now : Z) (s s' : Store) (status : nat) (imp : Imported) :
  ib_clearExisting body = true →
  importData user body now s = (Ok status imp, s') →
  (∀ f, f ∈ folders s' → f_user_id f = u_id user →
        (folders_id_seq s ≤ f_id f)%Z) ∧
  (∀ i, i ∈ items s' → i_user_id i = u_id user →
        (items_id_seq s ≤ i_id i)%Z ∧ as_imported user i) ∧
  (∀ v, v ∈ item_versions s' →
        v ∈ item_versions s ∧ v_item_id v ∉ i_id <$> items_of (u_id user) s).
Proof.
  intros Hclear Hok.
  apply importData_Ok in Hok
    as (bundle & decrypted & backup & fs & its & r & _ & _ & _ & _ & _ & Hr).
  rewrite Hclear in Hr.
  pose proof (replay_added _ _ _ _ _ _ _ _ _ Hr)
    as (_ & Hv & (nf & Hf & Hnf) & (ni & Hi & Hni)).
  simpl in *.
  destruct (cleared_rows user s) as (Cf & Ci & Cv).
  destruct (cleared_sequences user s) as (Lf & Li & _).
  split_and!.
  - intros f Hin Hu. rewrite Hf in Hin.
    apply elem_of_app in Hin as [Hin|Hin]; [by destruct (Cf f)|].
    rewrite Forall_forall in Hnf. destruct (Hnf f Hin) as [_ Hid]. lia.
  - intros i Hin Hu. rewrite Hi in Hin.
    apply elem_of_app in Hin as [Hin|Hin]; [by destruct (Ci i)|].
    rewrite Forall_forall in Hni. destruct (Hni i Hin) as [Hshape Hid].
    split; [lia|done].
  - intros v Hin. rewrite Hv in Hin. by apply Cv.
Qed.
End import_rows.

Section deletions.
Import Observations.



Lemma delete_folders_versions hit s v :
  NoDup (i_id <$> items s) →
  (∀ v, v ∈ item_versions s → v_item_id v ∈ i_id <$> items s) →
  v ∈ item_versions (delete_folders hit s) ↔
  v ∈ item_versions s ∧
  ∃ i, i ∈ items (delete_folders hit s) ∧ i_id i = v_item_id v.
Proof.
  intros Hnd Hfk. unfold delete_folders.
  by apply (delete_items_versions _ (with_folders _ s)).
Qed.


(** X10 (deleting a folder).  Deleting a folder removes the folder and
    what hangs below it, and nothing else: the folders that go are the
    one named and, from parent to child, every folder whose parent goes;
    the items that stay are those whose folder stays, and the versions
    that stay are those whose item stays. *)
Theorem deleteFolder_removes_the_subtree (user : User) (id : Z) (s : Store)
    (g : Folder) :
  consistent s →
  g ∈ folders s → f_id g = id → f_user_id g = u_id user → f_name g ≠ "Root" →
  let hit := λ f, bool_decide (f_id f = id ∧ f_user_id f = u_id user) in
  let out := Folders.deleteFolder user id s in
  out.1 = Ok 200 "Folder deleted successfully" ∧
  (∀ f, f ∈ folders out.2 ↔ f ∈ folders s ∧ ¬ doomed (folders s) hit f) ∧
  (∀ i, i ∈ items out.2 ↔
        i ∈ items s ∧ ∃ f, f ∈ folders out.2 ∧ f_id f = i_folder_id i) ∧
  (∀ v, v ∈ item_versions out.2 ↔
        v ∈ item_versions s ∧ ∃ i, i ∈ items out.2 ∧ i_id i = v_item_id v).
Proof.
  intros ((Hpf & Hpi & Hpv) & (Hff & Hfi & Hfv) & _) Hg Hid Hu Hname hit out.
  subst out. rewrite (deleteFolder_run user id s g) by done. simpl.
  split_and!; [done|..].
  - intros f. by apply delete_folders_doomed.
  - intros i. by apply delete_folders_items.
  - intros v. by apply delete_folders_versions.
Qed.

End deletions.

Section route_answers.
Import Observations Items.
Context `{Backup.Node}.

(** X15 (answers).  No route that answers with a row answers with the
    row of another account: the item of a read, of an update and of a
    download is an item of the caller with the id of the request, and a
    version history is that of such an item. *)
Theorem answers_show_own_rows (user : User) (id : Z) (s : Store) :
  (∀ now status row folder_name,
      (getItem user id now s).1 = Ok status (row, folder_name) →
      row ∈ items s ∧ i_id row = id ∧ i_user_id row = u_id user ∧
      ∃ g, g ∈ folders s ∧ f_id g = i_folder_id row ∧ f_name g = folder_name) ∧
  (∀ status rows,
      (getItemVersions user id s).1 = Ok status rows →
      (∃ it, it ∈ items s ∧ i_id it = id ∧ i_user_id it = u_id user) ∧
      ∀ v, v ∈ rows → v ∈ item_versions s ∧ v_item_id v = id) ∧
  (∀ body now status row,
      (updateItem user id body now s).1 = Ok status (Some row) →
      i_id row = id ∧ i_user_id row = u_id user) ∧
  (∀ now disk status name bytes,
      (Files.downloadFile user id now disk s).1 = Ok status (name, bytes) →
      ∃ it, it ∈ items s ∧ i_id it = id ∧ i_user_id it = u_id user ∧
            i_type it = "file" ∧ i_name it = name).
Proof.
  split_and!.
  - intros now status row folder_name. unfold getItem, select_items_join_folders.
    run_route.
    destruct (filter _ (items s) ≫= _) as [|[r n] rest] eqn:Hjoin; [done|].
    assert ((r, n) ∈ filter (λ i, i_id i = id ∧ i_user_id i = u_id user) (items s) ≫=
              λ i, (λ f, (i, f_name f)) <$>
                     filter (λ f, f_id f = i_folder_id i) (folders s)) as Hin
      by (rewrite Hjoin; left).
    apply list_elem_of_bind in Hin as (i & Hrow & Hi).
    apply list_elem_of_filter in Hi as [[Hid Hu] Hi].
    apply list_elem_of_fmap in Hrow as (g & [= -> ->] & Hg).
    apply list_elem_of_filter in Hg as [Hgid Hg].
    destruct (update_access id now s) as [[[]|e] s1]; [|done].
    intros [= _ <- <-]. split_and!; [done..|]. by exists g.
  - intros status rows. unfold getItemVersions. run_route.
    destruct (filter _ (items s)) as [|it rest] eqn:Hit; [done|].
    apply head_filter_owned in Hit as (Hit & Hid & Hu).
    intros [= _ <-]. split; [by exists it|].
    intros v Hv. rewrite merge_sort_Permutation in Hv.
    by apply list_elem_of_filter in Hv as [? ?].
  - intros body now status row. unfold updateItem. run_route.
    destruct (filter _ (items s)) as [|c rest]; [done|].
    destruct (targetFolderCheck_reads user (ud_folderId body) s) as (l & ->).
    destruct (truthy_opt truthy_num _ && _); [done|].
    unfold update_item. destruct (forallb _ _); [|done]. simpl.
    set (rows := _ <$> filter _ (items s)).
    assert (∀ r, head rows = Some r → i_id r = id ∧ i_user_id r = u_id user)
      as Hhead.
    { intros r Hr%head_Some_elem_of. unfold rows in Hr.
      apply list_elem_of_fmap in Hr as (r0 & -> & Hr0).
      apply list_elem_of_filter in Hr0 as [Ht _].
      apply Is_true_true in Ht. rewrite Ht. simpl.
      by apply bool_decide_eq_true in Ht. }
    destruct (truthy_opt truthy_str _ && _).
    + destruct (insert_item_version _ _ _ _ _) as [[[]|e] s2]; [|done].
      intros [= _ Hr]. by apply Hhead.
    + intros [= _ Hr]. by apply Hhead.
  - intros now disk status name bytes. unfold Files.downloadFile. run_route.
    destruct (filter _ (items s)) as [|it rest] eqn:Hit; [done|].
    apply head_filter_owned in Hit as (Hit & Hid & Hu & Htype).
    destruct (if truthy_opt _ _ then _ else _); [|done].
    destruct (if bool_decide _ then _ else _); [|done].
    destruct (update_access id now s) as [[[]|e] s1]; [|done].
    intros [= _ <- _]. by exists it.
Qed.
End route_answers.

Section account_routes.
Import Auth.
Context `{Platform}.

Lemma hex_length bytes : String.length (hex bytes) = 2 * length bytes.
Proof. induction bytes as [|b bytes IH]; simpl; lia. Qed.

Lemma hex_digit_digit n :
  (n < 16)%N →
  hex_digit n ∈ String.list_ascii_of_string "0123456789abcdef".
Proof.
  intros Hn. unfold hex_digit.
  destruct (String.list_ascii_of_string "0123456789abcdef" !! N.to_nat n)
    as [c|] eqn:Hc.
  - simpl. by eapply list_elem_of_lookup_2.
  - apply lookup_ge_None in Hc. simpl in Hc. lia.
Qed.

Lemma hex_digits bytes c :
  c ∈ String.list_ascii_of_string (hex bytes) →
  c ∈ String.list_ascii_of_string "0123456789abcdef".
Proof.
  induction bytes as [|b bytes IH]; simpl; [by intros ?%elem_of_nil|].
  pose proof (Byte.to_N_bounded b) as Hb.
  intros [->|[->|Hc]%elem_of_cons]%elem_of_cons; [| |by apply IH].
  - apply hex_digit_digit. apply N.Div0.div_lt_upper_bound. lia.
  - apply hex_digit_digit. by apply N.mod_lt.
Qed.

Lemma split_no_separator separator s :
  separator ∉ String.list_ascii_of_string s → split separator s = [s].
Proof.
  induction s as [|c s IH]; [done|]. simpl. intros Hno.
  rewrite bool_decide_eq_false_2.
  - rewrite IH; [done|]. intros Hin. apply Hno. by right.
  - intros ->. apply Hno. left.
Qed.

Lemma split_authorization_header token :
  " "%char ∉ String.list_ascii_of_string token →
  split " " (authorization_header token) !! 1 = Some token.
Proof.
  intros Hno. unfold authorization_header. simpl.
  by rewrite split_no_separator.
Qed.

Lemma filter_snoc_only {A} (P : A → Prop) `{∀ x, Decision (P x)} (l : list A) x :
  filter P l = [] → P x → filter P (l ++ [x]) = [x].
Proof.
  intros Hl Hx. by rewrite filter_app, Hl, filter_cons, decide_True.
Qed.

(** What a registration that is answered 201 did. *)
Lemma register_Ok body now entropy salt srv session srv' :
  register body now entropy salt srv = (Ok 201 session, srv') →
  ∃ address password row root,
    c_email body = Some address ∧ c_password body = Some password ∧
    address ≠ "" ∧ password ≠ "" ∧ 8 ≤ String.length password ∧
    filter (λ a, a_email a = toLowerCase address) (users srv) = [] ∧
    row = {| a_id := users_id_seq srv; a_email := toLowerCase address;
             a_password_hash := bcrypt_hash password salt;
             a_encryption_key := hex (Backup.randomBytes 32 entropy) |} ∧
    (a_id row ∉ a_id <$> users srv) ∧
    users srv' = users srv ++ [row] ∧
    users_id_seq srv' = (users_id_seq srv + 1)%Z ∧
    insert_folder "Root" None (a_id row) now (store srv) = (Done root, store srv') ∧
    session = {| session_id := a_id row; session_email := a_email row;
                 session_token :=
                   jwt_sign {| userId := a_id row; email := a_email row |} now;
                 session_encryptionKey := a_encryption_key row |}.
Proof.
  unfold register.
  destruct (c_email body) as [address|]; [|done].
  destruct (c_password body) as [password|]; [|done].
  destruct (truthy_str address) eqn:Ha; [|done].
  destruct (truthy_str password) eqn:Hp; [|done]. simpl.
  case_bool_decide as Hlen; [done|].
  destruct (filter _ (users srv)) as [|a rest] eqn:Hnone; [|done].
  unfold insert_user.
  destruct (negb _); [done|].
  case_bool_decide as Hpk; [done|].
  case_bool_decide as Huq; [done|].
  destruct (insert_folder _ _ _ _ _) as [[root|e] st] eqn:Hroot; [|done].
  intros [= <- <-]. simpl in *.
  eexists address, password, _, root. split_and!; try done.
  - unfold truthy_str in Ha. apply negb_true_iff in Ha.
    by apply bool_decide_eq_false in Ha.
  - unfold truthy_str in Hp. apply negb_true_iff in Hp.
    by apply bool_decide_eq_false in Hp.
  - lia.
Qed.

(** X20 (registration and login).  After a registration that was
    answered 201, a login with the same password and the same address,
    in whatever letter case, is answered 200 with the id, the address
    and the encryption key of the registration. *)
Theorem register_then_login (body body' : Credentials) (now now' : Z)
    (entropy : nat → Byte.byte) (salt : list Byte.byte) (srv srv' : Server)
    (session : Session) (address address' : string) :
  register body now entropy salt srv = (Ok 201 session, srv') →
  c_email body = Some address → c_email body' = Some address' →
  address' ≠ "" → toLowerCase address' = toLowerCase address →
  c_password body' = c_password body →
  login body' now' srv' =
    Ok 200 {| session_id := session_id session;
              session_email := session_email session;
              session_token :=
                jwt_sign {| userId := session_id session;
                            email := session_email session |} now';
              session_encryptionKey := session_encryptionKey session |}.
Proof.
  intros Hreg Haddr Haddr' Hne Hlower Hpass.
  apply register_Ok in Hreg
    as (a & password & row & root & Ha & Hp & _ & Hpne & _ & Hnone & -> & _ & Husers
        & _ & _ & ->).
  rewrite Haddr in Ha. injection Ha as <-.
  unfold login. rewrite Haddr', Hpass, Hp.
  assert (truthy_str address' = true) as ->
    by (unfold truthy_str; by rewrite bool_decide_eq_false_2).
  assert (truthy_str password = true) as ->
    by (unfold truthy_str; by rewrite bool_decide_eq_false_2).
  simpl. rewrite Husers, Hlower.
  rewrite filter_snoc_only; [|done..]. simpl.
  by rewrite bcrypt_compare_hash.
Qed.

(** X21 (a new account).  A registration that is answered 201 appends
    one row to [users]: its id is the value of the sequence, which no
    earlier row has, its address is the lower-cased address of the
    request, its hash is that of the password and its key is the one
    handed out.  It leaves the new account with a folder named Root
    without parent and no item, and the encryption key it hands out is
    64 hexadecimal digits written from 32 random bytes. *)
Theorem register_creates_root_and_key (body : Credentials) (now : Z)
    (entropy : nat → Byte.byte) (salt : list Byte.byte) (srv srv' : Server)
    (session : Session) :
  register body now entropy salt srv = (Ok 201 session, srv') →
  session_encryptionKey session = hex (Backup.randomBytes 32 entropy) ∧
  String.length (session_encryptionKey session) = 64 ∧
  (∀ c, c ∈ String.list_ascii_of_string (session_encryptionKey session) →
        c ∈ String.list_ascii_of_string "0123456789abcdef") ∧
  (∃ root,
      folders (store srv') = folders (store srv) ++ [root] ∧
      f_name root = "Root" ∧ f_parent_id root = None ∧
      f_user_id root = session_id session) ∧
  items (store srv') = items (store srv) ∧
  item_versions (store srv') = item_versions (store srv) ∧
  (session_id session ∉ a_id <$> users srv) ∧
  (∃ address password,
      c_email body = Some address ∧ c_password body = Some password ∧
      users srv' = users srv ++
        [{| a_id := session_id session;
            a_email := toLowerCase address;
            a_password_hash := bcrypt_hash password salt;
            a_encryption_key := session_encryptionKey session |}] ∧
      session_id session = users_id_seq srv ∧
      session_email session = toLowerCase address ∧
      users_id_seq srv' = (users_id_seq srv + 1)%Z).
Proof.
  intros Hreg.
  apply register_Ok in Hreg
    as (a & password & row & root & Ha & Hpw & _ & _ & _ & _ & -> & Hfresh
        & Husers & Hseq & Hroot & ->).
  assert (∃ row',
            store srv' = with_folders (folders (store srv) ++ [row'])
                           (nextval_folders (store srv)).2 ∧
            root = row' ∧ f_name row' = "Root" ∧ f_parent_id row' = None ∧
            f_user_id row' = users_id_seq srv) as (row' & Hst & _ & Hn & Hp & Hu).
  { unfold insert_folder, bind in Hroot. cbn [nextval_folders] in Hroot.
    cbn [a_id] in Hroot.
    destruct (negb (varchar 255 "Root")); [done|].
    destruct (existsb _ _); [done|].
    destruct (negb _); [done|].
    injection Hroot as <- Hst. eexists. by split_and!. }
  split_and!; [done| | | | | |done|].
  - change (String.length (hex (Backup.randomBytes 32 entropy)) = 64).
    by rewrite hex_length, randomBytes_length.
  - intros c Hc. by apply (hex_digits (Backup.randomBytes 32 entropy)).
  - exists row'. rewrite Hst. done.
  - by rewrite Hst.
  - by rewrite Hst.
  - exists a, password. by split_and!.
Qed.

(** X22 (the caller of a request).  The token of a registration
    identifies the account: when [jwt.verify] accepts it with the claims
    it was signed with, as it does for seven days, the middleware turns
    the Authorization header that the client builds from it into a
    [req.user] with the id, the address and the encryption key of the
    registration.  (A token in compact form is non-empty and has no
    space.) *)
Theorem token_identifies_the_account (body : Credentials) (now now' : Z)
    (entropy : nat → Byte.byte) (salt : list Byte.byte) (srv srv' : Server)
    (session : Session) :
  register body now entropy salt srv = (Ok 201 session, srv') →
  session_token session ≠ "" →
  " "%char ∉ String.list_ascii_of_string (session_token session) →
  jwt_verify (session_token session) now' =
    Some {| userId := session_id session; email := session_email session |} →
  authenticateToken (Some (authorization_header (session_token session)))
    now' srv' =
    inr {| u_id := session_id session; u_email := session_email session;
           u_encryptionKey := session_encryptionKey session |}.
Proof.
  intros Hreg Hne Hcompact Hverify.
  apply register_Ok in Hreg
    as (a & password & row & root & _ & _ & _ & _ & _ & _ & -> & Hfresh & Husers
        & _ & _ & ->).
  cbn [session_token session_id session_email session_encryptionKey a_id
       a_email a_encryption_key] in *.
  unfold authenticateToken.
  set (claims := {| userId := users_id_seq srv; email := toLowerCase a |}) in *.
  assert (truthy_str (authorization_header (jwt_sign claims now)) = true) as ->.
  { done. }
  rewrite split_authorization_header by done.
  assert (truthy_str (jwt_sign claims now) = true) as ->
    by (unfold truthy_str; by rewrite bool_decide_eq_false_2).
  simpl. rewrite Hverify. simpl. rewrite Husers.
  rewrite filter_snoc_only; [done| |done].
  apply filter_none. intros x Hx Hid. apply Hfresh. rewrite <- Hid.
  apply list_elem_of_fmap. by exists x.
Qed.
End account_routes.

Section folder_tree.
Import Client.

Lemma folderMap_snoc l f :
  folderMap (l ++ [f]) =
    <[f_id f := {| node_folder := f; children := [] |}]> (folderMap l).
Proof. unfold folderMap. by rewrite foldl_app. Qed.

Lemma folderMap_lookup l p :
  match folderMap l !! p with
  | None => p ∉ f_id <$> l
  | Some node =>
      children node = [] ∧ node_folder node ∈ l ∧ f_id (node_folder node) = p
  end.
Proof.
  induction l as [|f l IH] using rev_ind.
  - unfold folderMap. simpl. rewrite lookup_empty. by intros ?%elem_of_nil.
  - rewrite folderMap_snoc. destruct (decide (p = f_id f)) as [->|Hne].
    + rewrite lookup_insert_eq. simpl. split_and!; [done| |done].
      apply elem_of_app. right. left.
    + rewrite lookup_insert_ne by done.
      destruct (folderMap l !! p) as [node|].
      * destruct IH as (? & ? & ?). split_and!; [done| |done].
        apply elem_of_app. by left.
      * rewrite fmap_app. intros [?|Hin]%elem_of_app; [done|].
        simpl in Hin. apply list_elem_of_singleton in Hin. done.
Qed.

Lemma link_loop m0 l :
  (∀ p node, m0 !! p = Some node → children node = []) →
  (foldl link (m0, []) l).2 = f_id <$> filter (λ f, f_parent_id f = None) l ∧
  ∀ p,
    (foldl link (m0, []) l).1 !! p =
      (λ node, {| node_folder := node_folder node;
                  children := f_id <$> filter (λ f, f_parent_id f = Some p) l |})
        <$> m0 !! p.
Proof.
  intros Hm0. induction l as [|f l [IHr IHm]] using rev_ind.
  - simpl. split; [done|]. intros p.
    destruct (m0 !! p) as [[nf ch]|] eqn:Hp; [|done]. simpl.
    apply Hm0 in Hp. simpl in Hp. by subst.
  - rewrite foldl_app. simpl. unfold link at 1 3.
    destruct (f_parent_id f) as [q|] eqn:Hq.
    + rewrite (IHm q). destruct (m0 !! q) as [n0|] eqn:Hn0; simpl.
      * split.
        { rewrite IHr, filter_app, filter_cons, decide_False by congruence.
          by rewrite filter_nil, app_nil_r. }
        intros p. destruct (decide (p = q)) as [->|Hne].
        -- rewrite lookup_insert_eq, Hn0. simpl. f_equal. f_equal.
           rewrite filter_app, filter_cons, decide_True by done.
           by rewrite filter_nil, fmap_app.
        -- rewrite lookup_insert_ne by done. rewrite IHm.
           rewrite filter_app, filter_cons, decide_False by congruence.
           by rewrite filter_nil, app_nil_r.
      * split.
        { rewrite IHr, filter_app, filter_cons, decide_False by congruence.
          by rewrite filter_nil, app_nil_r. }
        intros p. rewrite IHm.
        destruct (decide (p = q)) as [->|Hne].
        -- by rewrite Hn0.
        -- rewrite filter_app, filter_cons, decide_False by congruence.
           by rewrite filter_nil, app_nil_r.
    + simpl. split.
      * rewrite IHr, filter_app, filter_cons, decide_True by done.
        by rewrite filter_nil, fmap_app.
      * intros p. rewrite IHm.
        rewrite filter_app, filter_cons, decide_False by congruence.
        by rewrite filter_nil, app_nil_r.
Qed.

(** X23 (folder tree of the client).  The tree the client builds from a
    list of folders: the roots are the folders without parent, in the
    order of the list; every id of the list has one entry, and the
    children of an entry are the folders that name its id as their
    parent, in the order of the list.  With unique ids, a folder whose
    parent is not in the list is in no array at all and is not
    shown. *)
Theorem buildFolderTree_shape (folders : list Folder) :
  let tree := buildFolderTree folders in
  tree.2 = f_id <$> filter (λ f, f_parent_id f = None) folders ∧
  (∀ p, is_Some (tree.1 !! p) ↔ p ∈ f_id <$> folders) ∧
  (∀ p node, tree.1 !! p = Some node →
     node_folder node ∈ folders ∧ f_id (node_folder node) = p ∧
     children node = f_id <$> filter (λ f, f_parent_id f = Some p) folders) ∧
  (NoDup (f_id <$> folders) →
   ∀ f p, f ∈ folders → f_parent_id f = Some p → p ∉ f_id <$> folders →
     (f_id f ∉ tree.2) ∧
     ∀ q node, tree.1 !! q = Some node → f_id f ∉ children node).
Proof.
  intros tree.
  destruct (link_loop (folderMap folders) folders) as [Hroots Hmap].
  { intros p node Hp. pose proof (folderMap_lookup folders p) as Hl.
    rewrite Hp in Hl. by destruct Hl. }
  fold (buildFolderTree folders) in Hroots, Hmap. fold tree in Hroots, Hmap.
  assert (∀ p node, tree.1 !! p = Some node →
     node_folder node ∈ folders ∧ f_id (node_folder node) = p ∧
     children node = f_id <$> filter (λ f, f_parent_id f = Some p) folders)
    as Hnode.
  { intros p node Hp. rewrite Hmap in Hp.
    pose proof (folderMap_lookup folders p) as Hl.
    destruct (folderMap folders !! p) as [n0|]; [|done].
    simpl in Hp. injection Hp as <-. simpl. by destruct Hl as (_ & ? & ?). }
  split_and!; [done| |done|].
  - intros p. rewrite Hmap. pose proof (folderMap_lookup folders p) as Hl.
    destruct (folderMap folders !! p) as [n0|]; simpl.
    + split; [|by eauto]. intros _. destruct Hl as (_ & Hin & <-).
      apply list_elem_of_fmap. by exists (node_folder n0).
    + split; [by intros [? [=]]|done].
  - intros Hnd f p Hf Hparent Hmissing. split.
    + rewrite Hroots. intros (g & Hid & Hg)%list_elem_of_fmap.
      apply list_elem_of_filter in Hg as [Hnone Hg].
      assert (g = f) as -> by (by apply (key_unique f_id folders)).
      congruence.
    + intros q node Hq. destruct (Hnode q node Hq) as (Hin & Hqid & ->).
      intros (g & Hid & Hg)%list_elem_of_fmap.
      apply list_elem_of_filter in Hg as [Hgq Hg].
      assert (g = f) as -> by (by apply (key_unique f_id folders)).
      apply Hmissing. assert (p = q) as -> by congruence.
      rewrite <- Hqid. apply list_elem_of_fmap. by exists (node_folder node).
Qed.
End folder_tree.

(** ** The properties on the sample account *)

Section examples.
Import Folders Items Requests Backup Encryption Observations.

(** The examples are run with the rows of a query in the order of
    insertion. *)
Local Existing Instance Demo.insertion_order.

(** Root protection on the sample account: Root cannot be deleted by
    its owner, and is still there after Work, Root and an item were
    asked to go. *)
Lemma root_folder_never_deleted_witness :
  deleteFolder Demo.alice 1 Demo.store
    = (Err 403 "Cannot delete root folder", Demo.store) ∧
  Demo.folder 1 "Root" None ∈
    folders (serve_all [DeleteFolder Demo.alice 2; DeleteFolder Demo.alice 1;
                        DeleteItem Demo.alice 1] Demo.store).
Proof.
  assert (Hpk : NoDup (f_id <$> folders Demo.store)).
  { apply (bool_decide_unpack _). vm_compute. exact I. }
  destruct (root_folder_never_deleted Demo.store Hpk) as [Hreject Hkeep].
  split.
  - apply (Hreject Demo.alice (Demo.folder 1 "Root" None)); [left|reflexivity].
  - apply Hkeep; [left|reflexivity|reflexivity].
Defined.

(** Where the protection ends: a folder named Root that lies under
    another folder goes when that folder is deleted. *)
Example nested_root_goes_with_its_parent :
  let s := with_folders (folders Demo.store ++ [Demo.folder 3 "Root" (Some 2%Z)])
             Demo.store in
  (deleteFolder Demo.alice 2 s).1 = Ok 200 "Folder deleted successfully" ∧
  folders (deleteFolder Demo.alice 2 s).2 = [Demo.folder 1 "Root" None].
Proof. split; vm_compute; reflexivity. Qed.

(** The note of the sample account, updated twice with new contents,
    has versions 3, 2, 1. *)
Lemma version_log_after_updates_witness :
  ∃ rows,
    (getItemVersions Demo.alice 1
       (apply_updates Demo.alice 1
          [(Demo.content "U2FsdGVkX19a", 11%Z);
           (Demo.content "U2FsdGVkX19b", 12%Z)]
          Demo.store_with_note)).1 = Ok 200 rows ∧
    v_version_number <$> rows = [3; 2; 1]%Z.
Proof.
  destruct (version_log_after_updates Demo.alice Demo.note 10 Demo.store
    Demo.store_with_note Demo.created_note
    [(Demo.content "U2FsdGVkX19a", 11%Z); (Demo.content "U2FsdGVkX19b", 12%Z)])
    as [Hlog _].
  - intros v Hv. by apply elem_of_nil in Hv.
  - vm_compute. reflexivity.
  - simpl. split; [|split; [|split; [|split; [|exact I]]]].
    + exists "U2FsdGVkX19a". split; [reflexivity|]. split; vm_compute; discriminate.
    + eexists. vm_compute. reflexivity.
    + exists "U2FsdGVkX19b". split; [reflexivity|]. split; vm_compute; discriminate.
    + eexists. vm_compute. reflexivity.
  - exact Hlog.
Defined.

(** The note of the sample account is created with a ciphertext and
    updated once with the empty string as its content: the request is
    answered 200, the stored content changes from the ciphertext to the
    empty string, and GET /items/:id/versions still answers version 1
    alone. *)
Lemma empty_content_update_adds_no_version :
  let out := updateItem Demo.alice 1 (Demo.content "") 11 Demo.store_with_note in
  current_content Demo.alice 1 Demo.store_with_note = Some "U2FsdGVkX18x" ∧
  (∃ row, out.1 = Ok 200 row) ∧
  current_content Demo.alice 1 out.2 = Some "" ∧
  (∃ rows, (getItemVersions Demo.alice 1 out.2).1 = Ok 200 rows ∧
           v_version_number <$> rows = [1%Z]).
Proof.
  split; [vm_compute; reflexivity|]. split; [eexists; vm_compute; reflexivity|].
  split; [vm_compute; reflexivity|]. eexists. split; vm_compute; reflexivity.
Qed.

(** The same update: the stored content changes and the version log
    does not. *)
Lemma empty_content_is_stored_unversioned_witness :
  let out := updateItem Demo.alice 1 (Demo.content "") 11 Demo.store_with_note in
  current_content Demo.alice 1 Demo.store_with_note = Some "U2FsdGVkX18x" ∧
  current_content Demo.alice 1 out.2 = Some "" ∧
  item_versions out.2 = item_versions Demo.store_with_note ∧
  (getItemVersions Demo.alice 1 out.2).1 =
    (getItemVersions Demo.alice 1 Demo.store_with_note).1.
Proof.
  split; [vm_compute; reflexivity|].
  destruct (empty_content_is_stored_unversioned Demo.alice 1 (Demo.content "")
              11 Demo.store_with_note) as (Hnew & _ & Hlog & Hlist).
  - reflexivity.
  - vm_compute. discriminate.
  - eexists. vm_compute. reflexivity.
  - split; [exact Hnew|]. split; [exact Hlog|exact Hlist].
Defined.

(** The export of the sample account on the stand-in platform. *)
Lemma export_envelope_witness :
  ∃ nonce authTag ciphertext : list Byte.byte,
    @exportData (Demo.node (λ _, None)) Demo.alice 0 (λ _, Byte.x2a) Demo.store =
      (Ok 200 (JObject [("version", JString "1.0.0");
                        ("encrypted", JBool true);
                        ("data", JString
                           (@base64_encode (Demo.node (λ _, None))
                              (nonce ++ authTag ++ ciphertext)))]),
       Demo.store) ∧
    length nonce = 16 ∧ length authTag = 16.
Proof.
  destruct (@export_envelope (Demo.node (λ _, None)) Demo.alice 0
              (λ _, Byte.x2a) Demo.store)
    as (nonce & authTag & ciphertext & Hexport & Hnonce & Htag & _).
  exists nonce, authTag, ciphertext. by repeat split.
Defined.

(** On the sample account: the first byte of the exported buffer is
    replaced by another one and the decipher step still answers the
    plaintext. *)
Lemma modified_nonce_is_accepted_witness :
  let n := Demo.node (λ _, None) in
  let exported :=
    base64_encode (encryptedBackup "3f9a" (randomBytes 16 (λ _, Byte.x2a)) "{}") in
  let modified := base64_encode (<[0 := Byte.xff]> (base64_decode exported)) in
  base64_decode exported !! 0 = Some Byte.x2a ∧
  base64_decode modified !! 0 = Some Byte.xff ∧
  decryptBackup "3f9a" (base64_decode modified) = Some (utf8_encode "{}").
Proof.
  split; [reflexivity|]. split; [reflexivity|].
  apply (@modified_nonce_is_accepted (Demo.node (λ _, None)) "3f9a" "{}"
           (λ _, Byte.x2a) 0 Byte.xff).
  lia.
Defined.

(** The folder array of the design document, child before parent,
    replayed with clearExisting set: a row is inserted for the child, at
    top level. *)
Lemma unresolved_parent_is_inserted_witness :
  ∃ s',
    importFolder Demo.alice true 5 (Demo.folder 2 "Work" (Some 1%Z))
      {| folderMapping := ∅; events := [] |}
      (clearExistingData Demo.alice Demo.store).2 =
      (Done {| folderMapping := {[2%Z := 3%Z]};
               events := [Inserted 2 3 None] |}, s') ∧
    folders s' =
      [{| f_id := 3; f_name := "Work"; f_parent_id := None; f_user_id := 1;
          f_created_at := 5; f_updated_at := 5 |}].
Proof.
  apply (unresolved_parent_is_inserted Demo.alice true 5
           (Demo.folder 2 "Work" (Some 1%Z))
           {| folderMapping := ∅; events := [] |}
           (clearExistingData Demo.alice Demo.store).2 1%Z).
  - reflexivity.
  - reflexivity.
  - by left.
  - reflexivity.
  - intros Hin. vm_compute in Hin. by apply elem_of_nil in Hin.
Defined.

(** The same array replayed as a whole: both folders are inserted at
    top level and both ids are mapped. *)
Example child_before_parent_is_kept :
  let out :=
    replay Demo.alice true 5
      [Demo.folder 2 "Work" (Some 1%Z); Demo.folder 1 "Root" None] []
      Demo.store in
  out.1 = Done ({| imported_folders := 2; imported_items := 0 |},
                {| folderMapping := {[2%Z := 3%Z; 1%Z := 4%Z]};
                   events := [Inserted 2 3 None; Inserted 1 4 None] |}) ∧
  (λ f, (f_name f, f_parent_id f)) <$> folders out.2
    = [("Work", None); ("Root", None)].
Proof. vm_compute. done. Qed.

(** A bundle folder named Root that has a parent is mapped onto the
    existing root all the same, and the store is left as it is. *)
Lemma root_named_folder_with_parent_is_mapped :
  f_parent_id (Demo.folder 7 "Root" (Some 2%Z)) = Some 2%Z ∧
  importFolder Demo.alice false 5 (Demo.folder 7 "Root" (Some 2%Z))
    {| folderMapping := ∅; events := [] |} Demo.store =
    (Done {| folderMapping := {[7%Z := 1%Z]};
             events := [MappedOntoRoot 7 1] |}, Demo.store).
Proof. split; vm_compute; reflexivity. Qed.

(** On the sample account: a bundle folder named Root that is filed
    under Work is taken for the root. *)
Lemma root_mapping_by_name_witness :
  f_parent_id (Demo.folder 7 "Root" (Some 2%Z)) = Some 2%Z ∧
  mapped_onto_root Demo.alice (Demo.folder 7 "Root" (Some 2%Z))
    {| folderMapping := ∅; events := [] |} Demo.store
    (importFolder Demo.alice false 5 (Demo.folder 7 "Root" (Some 2%Z))
       {| folderMapping := ∅; events := [] |} Demo.store).
Proof.
  split; [reflexivity|].
  apply (proj1 (proj2 (@root_mapping_by_name Demo.insertion_order Demo.alice 5
                         (Demo.folder 7 "Root" (Some 2%Z))
                         {| folderMapping := ∅; events := [] |} Demo.store))
           2%Z).
  - reflexivity.
  - reflexivity.
  - exists (Demo.folder 1 "Root" None).
    split; [left|]. by repeat split.
Defined.

(** The sample account with a second folder named Root at the top
    level: the bundle Root is mapped onto the row the query answers
    first, the one or the other. *)
Lemma either_root_can_come_first :
  let s :=
    with_folders (folders Demo.store ++ [Demo.folder 3 "Root" None])
      Demo.store in
  let acc := {| folderMapping := ∅; events := [] |} in
  (@importFolder Demo.insertion_order Demo.alice false 5
     (Demo.folder 1 "Root" None) acc s).1 =
    Done {| folderMapping := {[1%Z := 1%Z]};
            events := [MappedOntoRoot 1 1] |} ∧
  (@importFolder (scan_first 3) Demo.alice false 5
     (Demo.folder 1 "Root" None) acc s).1 =
    Done {| folderMapping := {[1%Z := 3%Z]};
            events := [MappedOntoRoot 1 3] |}.
Proof. split; vm_compute; reflexivity. Qed.

(** On the sample account: the snapshot clears the account, inserts two
    folders and an item, and then meets an item the schema refuses.  The
    answer is an error, the tables are those before the call, and the
    folder sequence has moved on. *)
Lemma failed_import_leaves_tables_witness :
  let n := Demo.node (λ _, Some Demo.broken_snapshot) in
  let body := {| ib_backupData := Some (Demo.envelope n);
                 ib_clearExisting := true |} in
  let out := importData Demo.alice body 20 Demo.store_with_note in
  out.1 = Err 500 "Failed to import data" ∧
  same_tables Demo.store_with_note out.2 ∧
  folders_id_seq out.2 = 5%Z.
Proof.
  split; [vm_compute; reflexivity|]. split; [|vm_compute; reflexivity].
  eapply (proj2 (proj2 (@failed_import_leaves_tables
            (Demo.node (λ _, Some Demo.broken_snapshot))
            Demo.insertion_order Demo.alice
            {| ib_backupData :=
                 Some (Demo.envelope (Demo.node (λ _, Some Demo.broken_snapshot)));
               ib_clearExisting := true |} 20 Demo.store_with_note))).
  vm_compute. reflexivity.
Defined.

(** There is no library with which the round trip holds at every
    plaintext: with any of them, the empty plaintext encrypted under the
    key 3f9a is refused by decrypt. *)
Lemma empty_plaintext_is_refused :
  ¬ (∃ lib : CryptoJS,
        ∀ (key text : Utf16) (salt : list Byte.byte),
          ∃ encryptedText,
            encrypt key salt text = Done encryptedText ∧
            decrypt key encryptedText = Done text).
Proof.
  intros [lib Hall].
  destruct (Hall (code_units "3f9a") [] []) as (e & Henc & Hdec).
  destruct (AES_decrypt_encrypt [] (code_units "3f9a") [] eq_refl eq_refl)
    as (e' & He' & Hdec').
  unfold encrypt in Henc. rewrite He' in Henc. injection Henc as <-.
  unfold decrypt in Hdec. rewrite Hdec' in Hdec.
  discriminate Hdec.
Qed.

(** The round trip on a sample plaintext, and the refusal of a plaintext
    that is a high surrogate alone. *)
Lemma decrypt_encrypt_nonempty_witness :
  (∃ encryptedText,
     @encrypt Demo.cryptoJS (code_units "3f9a") [] (code_units "sk_live_51H")
       = Done encryptedText ∧
     @decrypt Demo.cryptoJS (code_units "3f9a") encryptedText
       = Done (code_units "sk_live_51H")) ∧
  @encrypt Demo.cryptoJS (code_units "3f9a") [] [0xD83D%N]
    = Thrown "Failed to encrypt data".
Proof.
  split.
  - apply (proj1 (@decrypt_encrypt_nonempty Demo.cryptoJS (code_units "3f9a")
                    (code_units "sk_live_51H") [])).
    + reflexivity.
    + reflexivity.
    + discriminate.
  - apply (proj2 (proj2 (@decrypt_encrypt_nonempty Demo.cryptoJS
                           (code_units "3f9a") [0xD83D%N] []))).
    right. reflexivity.
Defined.
End examples.

(** ** The other routes on the sample accounts *)

Section further_examples.
Import Observations.
Local Existing Instance Demo.insertion_order.

(** Settles a closed, decidable fact about the sample data by
    evaluation. *)
Ltac evaluated := apply (bool_decide_unpack _); vm_compute; exact I.

(** Goes through the rows of a sample table. *)
Ltac each_row H :=
  repeat (apply elem_of_cons in H as [->|H]); [..|by apply elem_of_nil in H].

Lemma two_accounts_consistent : consistent Demo.two_accounts.
Proof.
  unfold consistent, primary_keys, foreign_keys, serial_ids. split_and!.
  - evaluated.
  - evaluated.
  - evaluated.
  - intros f p Hf Hp. each_row Hf; simpl in Hp; try discriminate;
      injection Hp as <-; evaluated.
  - intros i Hi. each_row Hi; evaluated.
  - intros v Hv. each_row Hv; evaluated.
  - intros f Hf. each_row Hf; simpl; lia.
  - intros i Hi. each_row Hi; simpl; lia.
  - intros v Hv. each_row Hv; simpl; lia.
  - simpl; lia.
  - simpl; lia.
  - simpl; lia.
Defined.

Lemma two_accounts_owned_links : owned_links Demo.two_accounts.
Proof.
  split.
  - intros f g Hf Hg Hp. each_row Hf; each_row Hg; simpl in Hp;
      try discriminate; reflexivity.
  - intros i g Hi Hg Hp. each_row Hi; each_row Hg; simpl in Hp;
      try discriminate; reflexivity.
Defined.

Lemma store_serial_ids : serial_ids Demo.store.
Proof.
  unfold serial_ids. split_and!; try (simpl; lia).
  - intros f Hf. each_row Hf; simpl; lia.
  - intros i Hi. by apply elem_of_nil in Hi.
  - intros v Hv. by apply elem_of_nil in Hv.
Defined.

(** Three reads of the note of the sample account: the third is
    answered with a counter of 2 and leaves 3. *)
Lemma reads_are_counted_witness :
  ∃ answered folder_name,
    Items.getItem Demo.alice 1 13
        (read_item Demo.alice 1 [11; 12]%Z Demo.store_with_note) =
      (Ok 200 (answered, folder_name),
       read_item Demo.alice 1 ([11; 12] ++ [13])%Z Demo.store_with_note) ∧
    i_access_count answered = 2%Z ∧
    accessed_item 13 answered ∈
      items (read_item Demo.alice 1 ([11; 12] ++ [13])%Z Demo.store_with_note) ∧
    folders (read_item Demo.alice 1 ([11; 12] ++ [13])%Z Demo.store_with_note)
      = folders Demo.store_with_note ∧
    item_versions
      (read_item Demo.alice 1 ([11; 12] ++ [13])%Z Demo.store_with_note)
      = item_versions Demo.store_with_note.
Proof.
  apply (reads_are_counted Demo.alice 1 [11; 12]%Z 13 Demo.store_with_note
           Demo.created_note).
  - evaluated.
  - left.
  - reflexivity.
  - reflexivity.
  - evaluated.
  - vm_compute. reflexivity.
Defined.


(** On the sample account a second Root is accepted at the top level. *)
Lemma top_level_names_are_not_unique_witness :
  ∃ row s',
    Folders.createFolder Demo.alice
      {| Folders.fd_name := Some "Root"; Folders.fd_parentId := None |}
      5 Demo.store = (Ok 201 row, s') ∧
    Demo.folder 1 "Root" None ∈ folders s' ∧ row ∈ folders s' ∧
    row ≠ Demo.folder 1 "Root" None ∧
    f_name row = "Root" ∧ f_parent_id row = None ∧ f_user_id row = 1%Z.
Proof.
  apply (top_level_names_are_not_unique Demo.alice 5 Demo.store
           (Demo.folder 1 "Root" None)).
  - exact store_serial_ids.
  - left.
  - reflexivity.
  - reflexivity.
  - discriminate.
  - simpl. lia.
Defined.





(** The first account deletes Work: the folder, the note in it and the
    version of the note go, and the rows of the second account stay. *)
Lemma deleteFolder_removes_the_subtree_witness :
  let hit := λ f, bool_decide (f_id f = 2%Z ∧ f_user_id f = 1%Z) in
  let out := Folders.deleteFolder Demo.alice 2 Demo.two_accounts in
  out.1 = Ok 200 "Folder deleted successfully" ∧
  (∀ f, f ∈ folders out.2 ↔
        f ∈ folders Demo.two_accounts
        ∧ ¬ doomed (folders Demo.two_accounts) hit f) ∧
  (∀ i, i ∈ items out.2 ↔
        i ∈ items Demo.two_accounts
        ∧ ∃ f, f ∈ folders out.2 ∧ f_id f = i_folder_id i) ∧
  (∀ v, v ∈ item_versions out.2 ↔
        v ∈ item_versions Demo.two_accounts
        ∧ ∃ i, i ∈ items out.2 ∧ i_id i = v_item_id v).
Proof.
  apply (deleteFolder_removes_the_subtree Demo.alice 2 Demo.two_accounts
           (Demo.folder_of 1 2 "Work" (Some 1%Z))).
  - exact two_accounts_consistent.
  - right; left.
  - reflexivity.
  - reflexivity.
  - discriminate.
Defined.


(** With both accounts in the store, an import of the first that clears
    its account leaves the constraints in force. *)
Lemma requests_keep_the_schema_witness :
  consistent
    (@Api.handle (Demo.node (λ _, Some Demo.snapshot)) Demo.insertion_order
       (Api.ImportData Demo.alice (Demo.import_of true) 20)
       Demo.two_accounts).
Proof.
  apply (@requests_keep_the_schema (Demo.node (λ _, Some Demo.snapshot)) Demo.insertion_order).
  exact two_accounts_consistent.
Defined.

(** The same import leaves the rows of the second account as they
    were. *)
Lemma requests_leave_other_accounts_witness :
  let after :=
    @Api.handle (Demo.node (λ _, Some Demo.snapshot)) Demo.insertion_order
      (Api.ImportData Demo.alice (Demo.import_of true) 20)
      Demo.two_accounts in
  folders_of 2 after = folders_of 2 Demo.two_accounts ∧
  items_of 2 after = items_of 2 Demo.two_accounts ∧
  versions_of 2 after = versions_of 2 Demo.two_accounts.
Proof.
  apply (@requests_leave_other_accounts (Demo.node (λ _, Some Demo.snapshot)) Demo.insertion_order
           (Api.ImportData Demo.alice (Demo.import_of true) 20)
           Demo.two_accounts 2).
  - exact two_accounts_consistent.
  - exact two_accounts_owned_links.
  - discriminate.
Defined.

(** The first account moves Work back under its own Root: links stay
    inside the accounts. *)
Lemma requests_keep_links_owned_witness :
  owned_links
    (@Api.handle (Demo.node (λ _, Some Demo.snapshot)) Demo.insertion_order
       (Api.UpdateFolder Demo.alice 2
          {| Folders.fd_name := Some "Work";
             Folders.fd_parentId := Some 1%Z |} 5)
       Demo.two_accounts).
Proof.
  apply (@requests_keep_links_owned (Demo.node (λ _, Some Demo.snapshot)) Demo.insertion_order).
  - exact two_accounts_consistent.
  - exact two_accounts_owned_links.
  - simpl. intros p Hp _. injection Hp as <-.
    exists (Demo.folder_of 1 1 "Root" None). split; [left|]. split; reflexivity.
Defined.

(** An upload of five bytes into Root of the sample account, encrypted,
    and its download. *)
Lemma download_returns_upload_witness :
  let n := Demo.node (λ _, None) in
  ∃ row disk' s',
    @Files.uploadFile n Demo.alice (Some Demo.upload) 1 "true" 5
        (λ _, Byte.x2a) Demo.disk Demo.store
      = (Ok 201 (row, Demo.upload), disk', s') ∧
    i_type row = "file" ∧
    i_file_path row = Some (Files.path Demo.upload) ∧
    disk' !! Files.path Demo.upload =
      Some (if bool_decide ("true" = "true")
            then @Files.encryptedBuffer n (u_encryptionKey Demo.alice)
                   (Backup.randomBytes 16 (λ _, Byte.x2a)) Demo.hello
            else Demo.hello) ∧
    (@Files.downloadFile n Demo.alice (i_id row) 6 disk' s').1
      = Ok 200 (Files.originalname Demo.upload, Demo.hello).
Proof.
  apply (@download_returns_upload (Demo.node (λ _, None)) Demo.alice
           Demo.upload 1 "true" 5 6 (λ _, Byte.x2a) Demo.disk Demo.store
           Demo.hello).
  - evaluated.
  - evaluated.
  - exists (Demo.folder 1 "Root" None). split; [left|]. split; reflexivity.
  - vm_compute. reflexivity.
  - discriminate.
  - simpl. lia.
  - simpl. lia.
  - vm_compute. split; discriminate.
Defined.

(** The sample snapshot imported into the sample account without
    clearing: Root is mapped, Work is left out, one item is added. *)
Lemma merging_import_only_adds_witness :
  let n := Demo.node (λ _, Some Demo.snapshot) in
  let out := @Backup.importData n Demo.insertion_order Demo.alice (Demo.import_of false) 20
               Demo.store in
  ∃ new_folders new_items,
    folders out.2 = folders Demo.store ++ new_folders ∧
    items out.2 = items Demo.store ++ new_items ∧
    item_versions out.2 = item_versions Demo.store ∧
    length new_items = 1 ∧
    Forall (λ f, f_user_id f = 1%Z) new_folders ∧
    Forall (as_imported Demo.alice) new_items.
Proof.
  apply (@merging_import_only_adds Demo.insertion_order
           (Demo.node (λ _, Some Demo.snapshot))
           Demo.alice (Demo.import_of false) 20 Demo.store _ 200
           {| Backup.imported_folders := 2; Backup.imported_items := 1 |}).
  - reflexivity.
  - vm_compute. reflexivity.
Defined.

(** The sample snapshot imported into the account with the note, with
    clearing: what the account holds afterwards was inserted by the
    import, and the version of the note is gone. *)
Lemma clearing_import_replaces_the_account_witness :
  let n := Demo.node (λ _, Some Demo.snapshot) in
  let out := @Backup.importData n Demo.insertion_order Demo.alice (Demo.import_of true) 20
               Demo.store_with_note in
  (∀ f, f ∈ folders out.2 → f_user_id f = 1%Z → (3 ≤ f_id f)%Z) ∧
  (∀ i, i ∈ items out.2 → i_user_id i = 1%Z →
        (2 ≤ i_id i)%Z ∧ as_imported Demo.alice i) ∧
  (∀ v, v ∈ item_versions out.2 →
        v ∈ item_versions Demo.store_with_note ∧
        v_item_id v ∉ i_id <$> items_of 1 Demo.store_with_note).
Proof.
  apply (@clearing_import_replaces_the_account Demo.insertion_order
           (Demo.node (λ _, Some Demo.snapshot))
           Demo.alice (Demo.import_of true) 20 Demo.store_with_note _ 200
           {| Backup.imported_folders := 2; Backup.imported_items := 2 |}).
  - reflexivity.
  - vm_compute. reflexivity.
Defined.

(** A registration on a server without accounts, and the login that
    follows it with the same address and password. *)
Lemma register_then_login_witness :
  let session :=
    {| Auth.session_id := 1; Auth.session_email := "carol@example.org";
       Auth.session_token := "eyJhbGciOiJIUzI1NiJ9.e30.c2ln";
       Auth.session_encryptionKey :=
         Auth.hex (Backup.randomBytes 32 (λ _, Byte.x2a)) |} in
  let srv' :=
    (@Auth.register Demo.platform Demo.carol 100 (λ _, Byte.x2a) []
       Demo.no_accounts).2 in
  @Auth.login Demo.platform Demo.carol 200 srv' = Ok 200 session.
Proof.
  apply (@register_then_login Demo.platform Demo.carol Demo.carol 100 200
           (λ _, Byte.x2a) [] Demo.no_accounts
           (@Auth.register Demo.platform Demo.carol 100 (λ _, Byte.x2a) []
              Demo.no_accounts).2
           {| Auth.session_id := 1;
              Auth.session_email := "carol@example.org";
              Auth.session_token := "eyJhbGciOiJIUzI1NiJ9.e30.c2ln";
              Auth.session_encryptionKey :=
                Auth.hex (Backup.randomBytes 32 (λ _, Byte.x2a)) |}
           "carol@example.org" "carol@example.org").
  - vm_compute. reflexivity.
  - reflexivity.
  - reflexivity.
  - discriminate.
  - reflexivity.
  - reflexivity.
Defined.

(** The same registration: the key is 64 times the digits of the byte
    2a, and the account has its Root. *)
Lemma register_creates_root_and_key_witness :
  let out := @Auth.register Demo.platform Demo.carol 100 (λ _, Byte.x2a) []
               Demo.no_accounts in
  ∃ session,
    out.1 = Ok 201 session ∧
    String.length (Auth.session_encryptionKey session) = 64 ∧
    (∃ root,
      folders (Auth.store out.2) = [root] ∧ f_name root = "Root" ∧
      f_parent_id root = None ∧ f_user_id root = Auth.session_id session) ∧
    (∃ address password,
      Auth.c_email Demo.carol = Some address ∧
      Auth.c_password Demo.carol = Some password ∧
      Auth.users out.2 =
        [{| Auth.a_id := 1;
            Auth.a_email := @Auth.toLowerCase Demo.platform address;
            Auth.a_password_hash := @Auth.bcrypt_hash Demo.platform password [];
            Auth.a_encryption_key := Auth.session_encryptionKey session |}]).
Proof.
  eexists. split; [vm_compute; reflexivity|].
  destruct (@register_creates_root_and_key Demo.platform Demo.carol 100
              (λ _, Byte.x2a) [] Demo.no_accounts
              (@Auth.register Demo.platform Demo.carol 100 (λ _, Byte.x2a) []
                 Demo.no_accounts).2
              {| Auth.session_id := 1;
                 Auth.session_email := "carol@example.org";
                 Auth.session_token := "eyJhbGciOiJIUzI1NiJ9.e30.c2ln";
                 Auth.session_encryptionKey :=
                   Auth.hex (Backup.randomBytes 32 (λ _, Byte.x2a)) |})
    as (_ & Hlength & _ & Hroot & _ & _ & _ & address & password & Ha & Hp
        & Husers & _).
  - vm_compute. reflexivity.
  - split; [exact Hlength|]. split; [exact Hroot|].
    exists address, password. split; [exact Ha|]. split; [exact Hp|].
    exact Husers.
Defined.

(** The same registration: the header built from its token is turned
    into the caller with id 1 and the key of the registration. *)
Lemma token_identifies_the_account_witness :
  let srv' :=
    (@Auth.register Demo.platform Demo.carol 100 (λ _, Byte.x2a) []
       Demo.no_accounts).2 in
  @Auth.authenticateToken Demo.platform
    (Some (Auth.authorization_header "eyJhbGciOiJIUzI1NiJ9.e30.c2ln"))
    200 srv' =
    inr {| u_id := 1; u_email := "carol@example.org";
           u_encryptionKey :=
             Auth.hex (Backup.randomBytes 32 (λ _, Byte.x2a)) |}.
Proof.
  apply (@token_identifies_the_account Demo.platform Demo.carol 100 200
           (λ _, Byte.x2a) [] Demo.no_accounts
           (@Auth.register Demo.platform Demo.carol 100 (λ _, Byte.x2a) []
              Demo.no_accounts).2
           {| Auth.session_id := 1;
              Auth.session_email := "carol@example.org";
              Auth.session_token := "eyJhbGciOiJIUzI1NiJ9.e30.c2ln";
              Auth.session_encryptionKey :=
                Auth.hex (Backup.randomBytes 32 (λ _, Byte.x2a)) |}).
  - vm_compute. reflexivity.
  - discriminate.
  - evaluated.
  - reflexivity.
Defined.
End further_examples.
